(** * Milestone engine of the College Basketball Journal (docs/app.js)

    A shallow embedding of [computeGameMilestones] and of the helpers it
    calls ([getTeamConference], [getGameConference]), with the properties
    of the engine proved over it.

    Modelling conventions.
    - A JSON field that may be absent is an [option]; [x || d] is [orStr]
      (absent and empty are both falsy).  Strings are ASCII, so a byte is
      a UTF-16 code unit.
    - [gender] is the two-valued enumeration of the data model; the source
      itself indexes [d1TeamsSeen = { M, W }] by it.
    - A JS object used as a dictionary is a [gmap string _]; inherited
      [Object.prototype] keys are outside the model.  A JS [Set] is the
      list of its elements in insertion order.
    - [String.prototype.localeCompare] is the code-unit order, with which
      the collation agrees on the digit strings of [DateSort]/[TimeSort].
    - [Array.prototype.sort] is a stable insertion sort: the language
      requires stability, and every stable sort returns the same array for
      a consistent comparator. *)

From Stdlib Require Import ZArith String Ascii List Lia Bool.
From Stdlib Require Import Sorting.Sorted Sorting.Permutation DecimalString.
From stdpp Require Import base option gmap strings.
Import ListNotations.

Local Open Scope string_scope.
Local Open Scope Z_scope.
Local Open Scope list_scope.

(** ** JavaScript primitives *)

Module JS.

(** [s] is truthy. *)
Definition truthy (s : string) : bool :=
  match s with EmptyString => false | String _ _ => true end.

(** [o || d] on an optional string field. *)
Definition orStr (o : option string) (d : string) : string :=
  match o with
  | Some s => if truthy s then s else d
  | None => d
  end.

(** [o || d] on an optional number. *)
Definition orNum (o : option Z) (d : Z) : Z :=
  match o with
  | Some n => if Z.eqb n 0 then d else n
  | None => d
  end.

(** [!m[k]] for a dictionary of counters. *)
Definition falsyCount (o : option nat) : bool :=
  match o with
  | Some (S _) => false
  | _ => true
  end.

(** [m[k] || 0]. *)
Definition countOr0 (o : option nat) : nat :=
  match o with Some n => n | None => O end.

(** [!m[k]] for a dictionary of flags. *)
Definition falsyFlag (o : option bool) : bool :=
  match o with
  | Some true => false
  | _ => true
  end.

(** [a.localeCompare(b)]: negative, zero or positive. *)
Definition localeCompare (a b : string) : Z :=
  match String.compare a b with
  | Lt => -1
  | Eq => 0
  | Gt => 1
  end.

(** [a < b] on strings. *)
Definition strLt (a b : string) : bool := String.ltb a b.

(** [s.slice(a, b)] for [0 <= a <= b]. *)
Definition slice (a b : nat) (s : string) : string :=
  String.substring a (b - a) s.

(** [arr.includes(n)]. *)
Definition includes (arr : list nat) (n : nat) : bool :=
  existsb (Nat.eqb n) arr.

(** Decimal rendering of an index, as in a template literal. *)
Definition numToString (n : nat) : string :=
  NilEmpty.string_of_uint (Nat.to_uint n).

(** [[a, b].sort()]: default sort of a two-element array of strings. *)
Definition sortPair (a b : string) : string * string :=
  if String.ltb b a then (b, a) else (a, b).

(** *** [Set] in insertion order *)

Definition has (s : list string) (x : string) : bool :=
  existsb (String.eqb x) s.

Definition add (s : list string) (x : string) : list string :=
  if has s x then s else s ++ [x].

(** *** [Array.prototype.sort(cmp)] *)

Section Sort.
Context {A : Type} (cmp : A -> A -> Z).

Fixpoint insert (x : A) (l : list A) : list A :=
  match l with
  | [] => [x]
  | y :: l' => if cmp x y <? 0 then x :: y :: l' else y :: insert x l'
  end.

Definition sort (l : list A) : list A :=
  fold_left (fun acc x => insert x acc) l [].
End Sort.

(** *** [new Date("YYYY-MM-DD")] and [Math.round] *)

Definition isDigit (c : ascii) : bool :=
  let n := nat_of_ascii c in (48 <=? n)%nat && (n <=? 57)%nat.

Definition digitVal (c : ascii) : Z := Z.of_nat (nat_of_ascii c) - 48.

Definition isLeap (y : Z) : bool :=
  ((y mod 4 =? 0) && negb (y mod 100 =? 0)) || (y mod 400 =? 0).

Definition daysInMonth (y m : Z) : Z :=
  if m =? 2 then (if isLeap y then 29 else 28)
  else if (m =? 4) || (m =? 6) || (m =? 9) || (m =? 11) then 30
  else 31.

(** Day number of a civil date, counted from 1970-01-01. *)
Definition dayFromCivil (y m d : Z) : Z :=
  let y' := if m <=? 2 then y - 1 else y in
  let era := y' / 400 in
  let yoe := y' - era * 400 in
  let mp := if m <=? 2 then m + 9 else m - 3 in
  let doy := (153 * mp + 2) / 5 + d - 1 in
  let doe := yoe * 365 + yoe / 4 - yoe / 100 + doy in
  era * 146097 + doe - 719468.

(** The date-only form of the ISO format; [None] is the invalid date
    (time value NaN).  A string outside the format, or a day its month
    does not have, for which an engine may fall back on heuristics of its
    own, is invalid here. *)
Definition parseISODate (s : string) : option Z :=
  match s with
  | String y1 (String y2 (String y3 (String y4 (String "-"
    (String m1 (String m2 (String "-"
    (String d1 (String d2 EmptyString))))))))) =>
      if forallb isDigit [y1; y2; y3; y4; m1; m2; d1; d2] then
        let y := digitVal y1 * 1000 + digitVal y2 * 100
                 + digitVal y3 * 10 + digitVal y4 in
        let m := digitVal m1 * 10 + digitVal m2 in
        let d := digitVal d1 * 10 + digitVal d2 in
        if (1 <=? m) && (m <=? 12) && (1 <=? d) && (d <=? daysInMonth y m)
        then Some (dayFromCivil y m d)
        else None
      else None
  | _ => None
  end.

Definition msPerDay : Z := 1000 * 60 * 60 * 24.

(** Time value of [new Date(s)]: a date-only string is UTC midnight. *)
Definition newDate (s : string) : option Z :=
  (fun d => d * msPerDay) <$> parseISODate s.

(** [Math.round(p / q)] for integers [p] and [q > 0]: halves go up. *)
Definition roundDiv (p q : Z) : Z := (2 * p + q) / (2 * q).

End JS.

(** ** Data model *)

Inductive gender := M | W.

Global Instance gender_eq_dec : EqDecision gender.
Proof. solve_decision. Defined.

Definition genderStr (g : gender) : string :=
  match g with M => "M" | W => "W" end.

Record Game := mkGame {
  GameID : option string;
  DateSort : option string;
  TimeSort : option string;
  Gender : option gender;
  Division : option string;
  AwayTeam : option string;
  HomeTeam : option string;
  AwayScore : option Z;
  HomeScore : option Z;
  Venue : option string;
  City : option string;
  State : option string;
  AwayConf : option string;
  HomeConf : option string
}.

(** [game.Gender || 'M'] *)
Definition genderOf (g : Game) : gender :=
  match Gender g with Some x => x | None => M end.

(** ** Ordering of the input (app.js 411-423) *)

Definition compareGames (a b : Game) : Z :=
  let dateA := JS.orStr (DateSort a) "" in
  let dateB := JS.orStr (DateSort b) "" in
  let dateCompare := JS.localeCompare dateA dateB in
  if negb (dateCompare =? 0) then dateCompare else
  let timeA := JS.orStr (TimeSort a) "" in
  let timeB := JS.orStr (TimeSort b) "" in
  if JS.truthy timeA && JS.truthy timeB && negb (String.eqb timeA timeB)
  then JS.localeCompare timeA timeB else
  let genderA := genderOf a in
  let genderB := genderOf b in
  if negb (bool_decide (genderA = genderB))
  then (match genderA with W => -1 | M => 1 end) else
  JS.localeCompare (JS.orStr (GameID a) "") (JS.orStr (GameID b) "").

Definition sortGames (games : list Game) : list Game :=
  JS.sort compareGames games.

(** ** Reference data ([DATA]) *)

Record TeamEntry := mkTeamEntry {
  entryTeam : option string;   (* t.team *)
  entryName : option string    (* t.name *)
}.

Record ConfData := mkConfData {
  teams : option (list TeamEntry);
  totalTeams : option nat
}.

Record TeamRow := mkTeamRow {
  Team : option string;
  Conference : option string
}.

Record PlayerGame := mkPlayerGame {
  game_id : option string;
  player_id : option string;
  player : option string;
  team : option string;
  realgm_previous_schools : option (list string);
  date_yyyymmdd : option string
}.

(** [conferenceChecklist] and [teamAliases] are kept as the lists of
    their [Object.entries], whose order the code depends on. *)
Record Data := mkData {
  games : list Game;
  conferenceChecklist : list (string * ConfData);
  dataTeams : list TeamRow;                 (* DATA.teams *)
  teamAliases : list (string * string);
  playerGames : list PlayerGame
}.

Definition DEFUNCT_TEAM_CONFERENCES : list (string * string) :=
  [("St. Francis (NY)", "NEC")].

(** [obj[k]] on the entries of an object. *)
Fixpoint entryOf {V : Type} (k : string) (l : list (string * V)) : option V :=
  match l with
  | [] => None
  | (k', v) :: l' => if String.eqb k' k then Some v else entryOf k l'
  end.

Definition optIs (o : option string) (s : string) : bool :=
  match o with Some x => String.eqb x s | None => false end.

(** app.js 23-37 *)
Definition getTeamConference (D : Data) (teamName : option string) : string :=
  let name := JS.orStr teamName "" in
  if negb (JS.truthy name) then "" else
  let defunct := JS.orStr (entryOf name DEFUNCT_TEAM_CONFERENCES) "" in
  if JS.truthy defunct then defunct else
  match find (fun e : string * ConfData =>
                match teams (snd e) with
                | Some ts => existsb (fun t => optIs (entryTeam t) name
                                               || optIs (entryName t) name) ts
                | None => false
                end) (conferenceChecklist D) with
  | Some (confName, _) => confName
  | None =>
      match find (fun r => optIs (Team r) name
                           && JS.truthy (JS.orStr (Conference r) ""))
                 (dataTeams D) with
      | Some r => JS.orStr (Conference r) ""
      | None => ""
      end
  end.

Inductive teamType := away | home.

(** app.js 39-45 *)
Definition getGameConference (D : Data) (game : Game) (tt : teamType) : string :=
  match tt with
  | away =>
      if JS.truthy (JS.orStr (AwayConf game) "") then JS.orStr (AwayConf game) ""
      else getTeamConference D (AwayTeam game)
  | home =>
      if JS.truthy (JS.orStr (HomeConf game) "") then JS.orStr (HomeConf game) ""
      else getTeamConference D (HomeTeam game)
  end.

(** ** Badges *)

(** One constructor per badge [type]; the arguments are the values the
    source interpolates into the badge's [text] and [title]. *)
Inductive Badge :=
| GameCountB (n : nat)
| D1GameB (n : nat)
| StreakB (n : nat)
| NewStateB (state : string) (rank : nat)
| VenueCountB (venueNum : nat) (venue : string)
| VenueVisitB (venue : string) (n : nat)
| NewTeamB (team : string) (g : gender)
| D1TeamB (count : nat) (g : gender)
| TeamVisitB (team : string) (n : nat) (g : gender)
| NewConfB (conf : string)
| ConfCompleteB (conf : string) (g : gender) (total : nat)
| NewMatchupB (awayTeam homeTeam : string) (g : gender)
| ConfMatchupB (awayConf homeConf : string)
| TransferB (playerName : option string) (prevTeams : list string)
            (playerTeam : string).

Global Instance Badge_eq_dec : EqDecision Badge.
Proof. solve_decision. Defined.

Definition badgeType (b : Badge) : string :=
  match b with
  | GameCountB _ => "game-count"
  | D1GameB _ => "d1-game"
  | StreakB _ => "streak"
  | NewStateB _ _ => "new-state"
  | VenueCountB _ _ => "venue-count"
  | VenueVisitB _ _ => "venue-visit"
  | NewTeamB _ _ => "new-team"
  | D1TeamB _ _ => "d1-team"
  | TeamVisitB _ _ _ => "team-visit"
  | NewConfB _ => "new-conf"
  | ConfCompleteB _ _ _ => "conf-complete"
  | NewMatchupB _ _ _ => "new-matchup"
  | ConfMatchupB _ _ => "conf-matchup"
  | TransferB _ _ _ => "transfer"
  end.

(** ** Milestone tables *)

Definition MILESTONE_COUNTS : list nat :=
  [1; 5; 10; 15; 20; 25; 30; 35; 40; 45; 50; 75; 100; 150; 200]%nat.

Definition GAME_MILESTONES : list nat :=
  [1; 10; 25; 50; 75; 100; 150; 200; 250; 500]%nat.

Definition D1_MILESTONES : list nat :=
  [1; 10; 25; 50; 75; 100; 150; 200; 250; 500]%nat.

Definition D1_TEAM_MILESTONES : list nat :=
  [5; 10; 15; 20; 25; 30; 35; 40; 45; 50; 55; 60; 65; 70; 75; 80; 85; 90;
   95; 100]%nat.

Definition isSentinel (confName : string) : bool :=
  String.eqb confName "All D1" || String.eqb confName "Historical/Other".

(** app.js 446-451 *)
Definition conferenceTeamCounts (D : Data) : gmap string nat :=
  fold_left (fun (m : gmap string nat) (e : string * ConfData) =>
               if isSentinel (fst e) then m
               else <[fst e := JS.countOr0 (totalTeams (snd e))]> m)
            (conferenceChecklist D) ∅.

(** app.js 466-471 *)
Definition reverseAliases (D : Data) : gmap string (list string) :=
  fold_left (fun (m : gmap string (list string)) (e : string * string) =>
               let '(alias, canonical) := e in
               let s := default [] (m !! canonical) in
               <[canonical := JS.add (JS.add s alias) canonical]> m)
            (teamAliases D) ∅.

(** app.js 464, 473-484 *)
Definition actualD1Teams (D : Data) : list string :=
  fold_left (fun (acc : list string) (e : string * ConfData) =>
    if isSentinel (fst e) then acc else
    fold_left (fun (acc : list string) (t : TeamEntry) =>
      let name := JS.orStr (entryTeam t) "" in
      if JS.truthy name then
        let acc1 := JS.add acc name in
        let canonical := JS.orStr (entryOf name (teamAliases D)) "" in
        let acc2 := if JS.truthy canonical then JS.add acc1 canonical else acc1 in
        match reverseAliases D !! name with
        | Some aliases => fold_left JS.add aliases acc2
        | None => acc2
        end
      else acc)
      (default [] (teams (snd e))) acc)
    (conferenceChecklist D) [].

(** ** Rolling state

    The closure variables of [computeGameMilestones], grouped by the rule
    that reads and writes them; no rule touches another rule's group. *)

Record CountSt := mkCountSt {
  gameCount : nat;
  d1GameCount : nat
}.

Record StreakSt := mkStreakSt {
  currentStreak : nat;
  lastGameDate : option string;
  maxStreak : nat;
  streakHistory : list nat
}.

Record StateSt := mkStateSt {
  statesSeen : list string;
  stateOrder : list string
}.

Record VenueSt := mkVenueSt {
  venueCounts : gmap string nat;
  venueOrder : list string;
  d1VenuesSeen : list string;
  d1VenueCount : nat
}.

Record TeamSt := mkTeamSt {
  teamCounts : gmap string nat;
  teamRecords : gmap string (nat * nat);    (* wins, losses *)
  d1TeamsSeenM : list string;
  d1TeamsSeenW : list string
}.

Record ConfSt := mkConfSt {
  confTeamsSeen : gmap string (list string);
  confTeamCounts : gmap string nat;
  confCompleted : gmap string bool
}.

Record PlayerInfo := mkPlayerInfo {
  playerInfoName : option string;
  playerInfoTeams : list string
}.

Record St := mkSt {
  counts : CountSt;
  streak : StreakSt;
  states : StateSt;
  venues : VenueSt;
  teamSt : TeamSt;
  confs : ConfSt;
  matchupsSeen : gmap string bool;
  confMatchupCounts : gmap string nat;
  confVenuesSeen : gmap string bool;
  playerTeams : gmap string PlayerInfo
}.

Definition initSt : St :=
  {| counts := mkCountSt 0 0;
     streak := mkStreakSt 0 None 0 [];
     states := mkStateSt [] [];
     venues := mkVenueSt ∅ [] [] 0;
     teamSt := mkTeamSt ∅ ∅ [] [];
     confs := mkConfSt ∅ ∅ ∅;
     matchupsSeen := ∅;
     confMatchupCounts := ∅;
     confVenuesSeen := ∅;
     playerTeams := ∅ |}.

(** ** The rules of one iteration (app.js 486-735)

    Every rule returns the new state of its group and the badges it
    pushes, in order. *)

(** Game count and D1 game count (501-521). *)
Definition countRule (division : string) (s : CountSt) : CountSt * list Badge :=
  let gc := S (gameCount s) in
  let b1 := if JS.includes GAME_MILESTONES gc then [GameCountB gc] else [] in
  if String.eqb division "D1" then
    let dc := S (d1GameCount s) in
    (mkCountSt gc dc,
     b1 ++ (if JS.includes D1_MILESTONES dc then [D1GameB dc] else []))
  else (mkCountSt gc (d1GameCount s), b1).

(** The argument of [new Date] built from a [DateSort] (525-526). *)
Definition isoOf (d : string) : string :=
  JS.slice 0 4 d +:+ "-" +:+ JS.slice 4 6 d +:+ "-" +:+ JS.slice 6 8 d.

(** [diffDays] (527); [None] is NaN. *)
Definition diffDays (lastGameDate dateSort : string) : option Z :=
  match JS.newDate (isoOf lastGameDate), JS.newDate (isoOf dateSort) with
  | Some lastDate, Some thisDate =>
      Some (JS.roundDiv (thisDate - lastDate) JS.msPerDay)
  | _, _ => None
  end.

(** The branch taken when the gap is neither 0 nor 1 (533-535). *)
Definition closeStreak (s : StreakSt) : StreakSt :=
  {| currentStreak := 1;
     lastGameDate := lastGameDate s;
     maxStreak := Nat.max (maxStreak s) (currentStreak s);
     streakHistory := if (2 <=? currentStreak s)%nat
                      then streakHistory s ++ [currentStreak s]
                      else streakHistory s |}.

Definition setCurrentStreak (n : nat) (s : StreakSt) : StreakSt :=
  {| currentStreak := n;
     lastGameDate := lastGameDate s;
     maxStreak := maxStreak s;
     streakHistory := streakHistory s |}.

Definition setLastGameDate (d : string) (s : StreakSt) : StreakSt :=
  {| currentStreak := currentStreak s;
     lastGameDate := Some d;
     maxStreak := maxStreak s;
     streakHistory := streakHistory s |}.

(** Streak tracking (523-548). *)
Definition streakRule (dateSort : string) (s : StreakSt) : StreakSt * list Badge :=
  let last := JS.orStr (lastGameDate s) "" in
  let s1 :=
    if JS.truthy last && JS.truthy dateSort then
      match diffDays last dateSort with
      | Some 0 => s
      | Some 1 => setCurrentStreak (S (currentStreak s)) s
      | _ => closeStreak s
      end
    else setCurrentStreak 1 s in
  let s2 := if JS.truthy dateSort then setLastGameDate dateSort s1 else s1 in
  (s2, if (2 <=? currentStreak s2)%nat then [StreakB (currentStreak s2)] else []).

(** State tracking (550-559). *)
Definition stateRule (state : string) (s : StateSt) : StateSt * list Badge :=
  if JS.truthy state && negb (JS.has (statesSeen s) state) then
    let seen := JS.add (statesSeen s) state in
    (mkStateSt seen (stateOrder s ++ [state]),
     [NewStateB state (length seen)])
  else (s, []).

(** Venue milestones (561-588). *)
Definition venueRule (division venue : string) (s : VenueSt)
  : VenueSt * list Badge :=
  if JS.truthy venue then
    let '(s1, b1) :=
      if JS.falsyCount (venueCounts s !! venue) then
        let order := venueOrder s ++ [venue] in
        let venueNum := length order in
        let isD1New := String.eqb division "D1"
                       && negb (JS.has (d1VenuesSeen s) venue) in
        ({| venueCounts := <[venue := O]> (venueCounts s);
            venueOrder := order;
            d1VenuesSeen := if isD1New then JS.add (d1VenuesSeen s) venue
                            else d1VenuesSeen s;
            d1VenueCount := if isD1New then S (d1VenueCount s)
                            else d1VenueCount s |},
         if JS.includes MILESTONE_COUNTS venueNum
         then [VenueCountB venueNum venue] else [])
      else (s, []) in
    let c := S (JS.countOr0 (venueCounts s1 !! venue)) in
    ({| venueCounts := <[venue := c]> (venueCounts s1);
        venueOrder := venueOrder s1;
        d1VenuesSeen := d1VenuesSeen s1;
        d1VenueCount := d1VenueCount s1 |},
     b1 ++ (if (1 <? c)%nat && JS.includes MILESTONE_COUNTS c
            then [VenueVisitB venue c] else []))
  else (s, []).

Definition d1TeamsSeen (s : TeamSt) (g : gender) : list string :=
  match g with M => d1TeamsSeenM s | W => d1TeamsSeenW s end.

(** One iteration of the team loop (591-632). *)
Definition teamStep (D1Teams : list string) (game : Game) (team : string)
    (s : TeamSt) : TeamSt * list Badge :=
  if negb (JS.truthy team) then (s, []) else
  let g := genderOf game in
  let teamKey := team +:+ "|" +:+ genderStr g in
  let '(s1, b1) :=
    if JS.falsyCount (teamCounts s !! teamKey) then
      let isD1 := JS.has D1Teams team in
      let seen := if isD1 then JS.add (d1TeamsSeen s g) team
                  else d1TeamsSeen s g in
      ({| teamCounts := <[teamKey := O]> (teamCounts s);
          teamRecords := teamRecords s;
          d1TeamsSeenM := match g with M => seen | W => d1TeamsSeenM s end;
          d1TeamsSeenW := match g with W => seen | M => d1TeamsSeenW s end |},
       NewTeamB team g ::
       (if isD1 && JS.includes D1_TEAM_MILESTONES (length seen)
        then [D1TeamB (length seen) g] else []))
    else (s, []) in
  let c := S (JS.countOr0 (teamCounts s1 !! teamKey)) in
  let b2 := if (1 <? c)%nat && JS.includes MILESTONE_COUNTS c
            then [TeamVisitB team c g] else [] in
  let '(wins, losses) := default (O, O) (teamRecords s1 !! teamKey) in
  let awayScore := JS.orNum (AwayScore game) 0 in
  let homeScore := JS.orNum (HomeScore game) 0 in
  let isWinner :=
    (String.eqb team (JS.orStr (AwayTeam game) "") && (homeScore <? awayScore))
    || (String.eqb team (JS.orStr (HomeTeam game) "") && (awayScore <? homeScore)) in
  ({| teamCounts := <[teamKey := c]> (teamCounts s1);
      teamRecords := <[teamKey := if isWinner then (S wins, losses)
                                  else (wins, S losses)]> (teamRecords s1);
      d1TeamsSeenM := d1TeamsSeenM s1;
      d1TeamsSeenW := d1TeamsSeenW s1 |},
   b1 ++ b2).

(** One iteration of the conference loop (635-662). *)
Definition confStep (totals : gmap string nat) (g : gender)
    (conf team : string) (s : ConfSt) : ConfSt * list Badge :=
  if negb (JS.truthy conf) || String.eqb conf "Historical/Other" then (s, [])
  else
  let confGenderKey := conf +:+ "|" +:+ genderStr g in
  let seen0 := default [] (confTeamsSeen s !! confGenderKey) in
  let wasNew := negb (JS.has seen0 team) in
  let seen := JS.add seen0 team in
  let isNewConf := JS.falsyCount (confTeamCounts s !! conf) in
  let counts1 := if isNewConf then <[conf := O]> (confTeamCounts s)
                 else confTeamCounts s in
  let counts2 := if wasNew
                 then <[conf := S (JS.countOr0 (counts1 !! conf))]> counts1
                 else counts1 in
  let b1 := if isNewConf then [NewConfB conf] else [] in
  let total := JS.countOr0 (totals !! conf) in
  let complete := (0 <? total)%nat && (total <=? length seen)%nat
                  && JS.falsyFlag (confCompleted s !! confGenderKey) in
  ({| confTeamsSeen := <[confGenderKey := seen]> (confTeamsSeen s);
      confTeamCounts := counts2;
      confCompleted := if complete
                       then <[confGenderKey := true]> (confCompleted s)
                       else confCompleted s |},
   b1 ++ (if complete then [ConfCompleteB conf g total] else [])).

(** Matchup tracking (664-675). *)
Definition matchupRule (g : gender) (awayTeam homeTeam : string)
    (seen : gmap string bool) : gmap string bool * list Badge :=
  if JS.truthy awayTeam && JS.truthy homeTeam then
    let '(a, b) := JS.sortPair awayTeam homeTeam in
    let matchupKey := (a +:+ "|" +:+ b) +:+ "|" +:+ genderStr g in
    if JS.falsyFlag (seen !! matchupKey)
    then (<[matchupKey := true]> seen, [NewMatchupB awayTeam homeTeam g])
    else (seen, [])
  else (seen, []).

(** Conference matchup tracking (677-689). *)
Definition confMatchupRule (awayConf homeConf : string)
    (m : gmap string nat) : gmap string nat * list Badge :=
  if JS.truthy awayConf && JS.truthy homeConf
     && negb (String.eqb awayConf homeConf) then
    let '(a, b) := JS.sortPair awayConf homeConf in
    let confKey := a +:+ "|" +:+ b in
    let isNew := JS.falsyCount (m !! confKey) in
    let m1 := if isNew then <[confKey := O]> m else m in
    (<[confKey := S (JS.countOr0 (m1 !! confKey))]> m1,
     if isNew then [ConfMatchupB awayConf homeConf] else [])
  else (m, []).

(** Conference venue tracking (691-697). *)
Definition confVenueRule (venue homeConf : string)
    (m : gmap string bool) : gmap string bool :=
  if JS.truthy venue && JS.truthy homeConf
     && negb (String.eqb homeConf "Historical/Other") then
    let confVenueKey := homeConf +:+ "|" +:+ venue in
    if JS.falsyFlag (m !! confVenueKey) then <[confVenueKey := true]> m else m
  else m.

(** ASCII [toLowerCase]. *)
Definition lowerChar (c : ascii) : ascii :=
  let n := nat_of_ascii c in
  if (65 <=? n)%nat && (n <=? 90)%nat then ascii_of_nat (n + 32) else c.

Fixpoint toLowerCase (s : string) : string :=
  match s with
  | EmptyString => EmptyString
  | String c s' => String (lowerChar c) (toLowerCase s')
  end.

(** The test [hasPlayerAtSchoolBefore] of lines 713-719.  [playerId] is
    the key of line 702, so it already holds the name when the record has
    no id. *)
Definition hasPlayerAtSchoolBefore (D : Data) (playerId : string)
    (playerName : option string) (currentDateSort prevSchool : string) : bool :=
  existsb (fun pg2 =>
    let idMatch := JS.truthy playerId && optIs (player_id pg2) playerId in
    let nameMatch :=
      negb (JS.truthy playerId)
      && JS.truthy (JS.orStr (player pg2) "")
      && String.eqb (toLowerCase (JS.orStr (player pg2) ""))
                    (toLowerCase (JS.orStr playerName "")) in
    (idMatch || nameMatch)
    && optIs (team pg2) prevSchool
    && JS.strLt (JS.orStr (date_yyyymmdd pg2) "") currentDateSort)
    (playerGames D).

(** The schools a new player starts with (708-723). *)
Definition seedSchools (D : Data) (playerId : string)
    (playerName : option string) (currentDateSort : string)
    (realgmPrevSchools : list string) : list string :=
  fold_left (fun acc prevSchool =>
               if hasPlayerAtSchoolBefore D playerId playerName
                    currentDateSort prevSchool
               then JS.add acc prevSchool else acc)
            realgmPrevSchools [].

(** One iteration of the player loop (701-734). *)
Definition playerStep (D : Data) (game : Game) (pg : PlayerGame)
    (m : gmap string PlayerInfo) : gmap string PlayerInfo * list Badge :=
  let playerId := JS.orStr (player_id pg) (JS.orStr (player pg) "") in
  let playerName := player pg in
  let playerTeam := JS.orStr (team pg) "" in
  let realgmPrevSchools := default [] (realgm_previous_schools pg) in
  if negb (JS.truthy playerId) || negb (JS.truthy playerTeam) then (m, [])
  else
  let info :=
    match m !! playerId with
    | Some i => i
    | None =>
        mkPlayerInfo playerName
          (seedSchools D playerId playerName (JS.orStr (DateSort game) "")
             realgmPrevSchools)
    end in
  let known := playerInfoTeams info in
  (<[playerId := mkPlayerInfo (playerInfoName info) (JS.add known playerTeam)]> m,
   if (0 <? length known)%nat && negb (JS.has known playerTeam)
   then [TransferB playerName known playerTeam] else []).

(** A loop that threads a state and collects the badges pushed. *)
Fixpoint forEach {A S : Type} (f : A -> S -> S * list Badge) (l : list A)
    (s : S) : S * list Badge :=
  match l with
  | [] => (s, [])
  | x :: l' =>
      let r1 := f x s in
      let r2 := forEach f l' (fst r1) in
      (fst r2, snd r1 ++ snd r2)
  end.

(** Transfer tracking (699-734). *)
Definition transferRule (D : Data) (game : Game) (gameId : string)
    (m : gmap string PlayerInfo) : gmap string PlayerInfo * list Badge :=
  let gamePlayers :=
    List.filter (fun pg => optIs (game_id pg) gameId) (playerGames D) in
  forEach (playerStep D game) gamePlayers m.

(** [window.badgeTrackingData] (741-745) *)
Record BadgeTrackingData := mkBadgeTrackingData {
  btConfTeamsSeen : gmap string (list string);
  btConfCompleted : gmap string bool;
  btConferenceTeamCounts : gmap string nat;
  btVenueOrder : list string;
  btTeamCounts : gmap string nat;
  btMatchupsSeen : gmap string bool;
  btStatesSeen : list string;
  btStateOrder : list string;
  btMaxStreak : nat;
  btStreakHistory : list nat;
  btD1TeamsSeenM : list string;
  btD1TeamsSeenW : list string
}.

(** [gameMilestones[gameId]] *)
Record Milestone := mkMilestone {
  badges : list Badge;
  gameNumber : nat
}.

(** ** One game (486-735) *)

Section Engine.
Variable D : Data.

(** Tables built once before the loop. *)
Let totals := conferenceTeamCounts D.
Let D1Teams := actualD1Teams D.

Definition gameIdOf (index : nat) (game : Game) : string :=
  JS.orStr (GameID game) ("game-" +:+ JS.numToString index).

Definition divisionOf (game : Game) : string := JS.orStr (Division game) "D1".

Definition teamRule (game : Game) (s : TeamSt) : TeamSt * list Badge :=
  forEach (teamStep D1Teams game)
          [JS.orStr (AwayTeam game) ""; JS.orStr (HomeTeam game) ""] s.

Definition confRule (game : Game) (s : ConfSt) : ConfSt * list Badge :=
  forEach (fun ct => confStep totals (genderOf game) (fst ct) (snd ct))
          [(getGameConference D game away, JS.orStr (AwayTeam game) "");
           (getGameConference D game home, JS.orStr (HomeTeam game) "")] s.

(** The badges pushed for [game], in the order of the rules. *)
Definition gameBadges (index : nat) (game : Game) (s : St) : list Badge :=
  snd (countRule (divisionOf game) (counts s))
  ++ snd (streakRule (JS.orStr (DateSort game) "") (streak s))
  ++ snd (stateRule (JS.orStr (State game) "") (states s))
  ++ snd (venueRule (divisionOf game) (JS.orStr (Venue game) "") (venues s))
  ++ snd (teamRule game (teamSt s))
  ++ snd (confRule game (confs s))
  ++ snd (matchupRule (genderOf game) (JS.orStr (AwayTeam game) "")
            (JS.orStr (HomeTeam game) "") (matchupsSeen s))
  ++ snd (confMatchupRule (getGameConference D game away)
            (getGameConference D game home) (confMatchupCounts s))
  ++ snd (transferRule D game (gameIdOf index game) (playerTeams s)).

(** The rolling state after [game]. *)
Definition gameState (index : nat) (game : Game) (s : St) : St :=
  {| counts := fst (countRule (divisionOf game) (counts s));
     streak := fst (streakRule (JS.orStr (DateSort game) "") (streak s));
     states := fst (stateRule (JS.orStr (State game) "") (states s));
     venues := fst (venueRule (divisionOf game) (JS.orStr (Venue game) "")
                      (venues s));
     teamSt := fst (teamRule game (teamSt s));
     confs := fst (confRule game (confs s));
     matchupsSeen :=
       fst (matchupRule (genderOf game) (JS.orStr (AwayTeam game) "")
              (JS.orStr (HomeTeam game) "") (matchupsSeen s));
     confMatchupCounts :=
       fst (confMatchupRule (getGameConference D game away)
              (getGameConference D game home) (confMatchupCounts s));
     confVenuesSeen :=
       confVenueRule (JS.orStr (Venue game) "")
         (getGameConference D game home) (confVenuesSeen s);
     playerTeams :=
       fst (transferRule D game (gameIdOf index game) (playerTeams s)) |}.

(** The loop over the sorted games, from position [index]: the final
    state and, per game in processing order, the entry written to
    [gameMilestones]. *)
Fixpoint processGames (index : nat) (gs : list Game) (s : St)
  : St * list (string * Milestone) :=
  match gs with
  | [] => (s, [])
  | game :: gs' =>
      let r := processGames (S index) gs' (gameState index game s) in
      (fst r,
       (gameIdOf index game,
        mkMilestone (gameBadges index game s) (S index)) :: snd r)
  end.

(** The games in processing order. *)
Definition allGames : list Game := sortGames (games D).

(** The entries written to [gameMilestones], in processing order. *)
Definition badgeStream : list (string * Milestone) :=
  snd (processGames 0 allGames initSt).

(** The state when the loop ends. *)
Definition finalSt : St := fst (processGames 0 allGames initSt).

(** [gameMilestones] after the pass: a later game with the same id
    overwrites the entry. *)
Definition gameMilestones : gmap string Milestone :=
  fold_left (fun (m : gmap string Milestone) e => <[fst e := snd e]> m)
            badgeStream ∅.

(** Finalize streak tracking (737-739). *)
Definition finalStreak (s : StreakSt) : StreakSt :=
  {| currentStreak := currentStreak s;
     lastGameDate := lastGameDate s;
     maxStreak := Nat.max (maxStreak s) (currentStreak s);
     streakHistory := if (2 <=? currentStreak s)%nat
                      then streakHistory s ++ [currentStreak s]
                      else streakHistory s |}.

Definition badgeTrackingData : BadgeTrackingData :=
  let s := finalSt in
  {| btConfTeamsSeen := confTeamsSeen (confs s);
     btConfCompleted := confCompleted (confs s);
     btConferenceTeamCounts := totals;
     btVenueOrder := venueOrder (venues s);
     btTeamCounts := teamCounts (teamSt s);
     btMatchupsSeen := matchupsSeen s;
     btStatesSeen := statesSeen (states s);
     btStateOrder := stateOrder (states s);
     btMaxStreak := maxStreak (finalStreak (streak s));
     btStreakHistory := streakHistory (finalStreak (streak s));
     btD1TeamsSeenM := d1TeamsSeenM (teamSt s);
     btD1TeamsSeenW := d1TeamsSeenW (teamSt s) |}.


End Engine.

(** ** Vocabulary of the properties *)

(** The rule that pushes a badge. *)
Inductive Rule :=
| RCount | RStreak | RState | RVenue | RTeam | RConf | RMatchup
| RConfMatchup | RTransfer.

Global Instance Rule_eq_dec : EqDecision Rule.
Proof. solve_decision. Defined.

Definition ruleOf (b : Badge) : Rule :=
  match b with
  | GameCountB _ | D1GameB _ => RCount
  | StreakB _ => RStreak
  | NewStateB _ _ => RState
  | VenueCountB _ _ | VenueVisitB _ _ => RVenue
  | NewTeamB _ _ | D1TeamB _ _ | TeamVisitB _ _ _ => RTeam
  | NewConfB _ | ConfCompleteB _ _ _ => RConf
  | NewMatchupB _ _ _ => RMatchup
  | ConfMatchupB _ _ => RConfMatchup
  | TransferB _ _ _ => RTransfer
  end.

(** The badges of a list that rule [r] pushed. *)
Definition badgesOfRule (r : Rule) (bs : list Badge) : list Badge :=
  List.filter (fun b => bool_decide (ruleOf b = r)) bs.

(** The badges of a list with a given [type]. *)
Definition badgesOfType (ty : string) (bs : list Badge) : list Badge :=
  List.filter (fun b => String.eqb (badgeType b) ty) bs.

(** The badge lists of a stream, in processing order. *)
Definition badgeLists (stream : list (string * Milestone)) : list (list Badge) :=
  map (fun e => badges (snd e)) stream.

(** All badges of a stream, in emission order. *)
Definition allBadges (stream : list (string * Milestone)) : list Badge :=
  concat (badgeLists stream).

(** *** The end-to-end scenario *)

Definition scenarioGame (id date awayTeam homeTeam venue : string)
    (awayScore homeScore : Z) (g : gender) : Game :=
  {| GameID := Some id; DateSort := Some date; TimeSort := None;
     Gender := Some g; Division := None;
     AwayTeam := Some awayTeam; HomeTeam := Some homeTeam;
     AwayScore := Some awayScore; HomeScore := Some homeScore;
     Venue := Some venue; City := None; State := None;
     AwayConf := None; HomeConf := None |}.

Definition scenario (g : gender) : Data :=
  {| games := [scenarioGame "game1" "20240101" "TeamX" "TeamY" "Arena1" 70 60 g;
               scenarioGame "game2" "20240102" "TeamY" "TeamX" "Arena2" 55 65 g;
               scenarioGame "game3" "20240103" "TeamX" "TeamY" "Arena1" 80 75 g];
     conferenceChecklist := [];
     dataTeams := [];
     teamAliases := [];
     playerGames := [] |}.

(** The badges the scenario is said to produce. *)
Definition scenarioAsStated (g : gender) : Prop :=
  match badgeLists (badgeStream (scenario g)) with
  | [b1; b2; b3] =>
      (length (badgesOfType "new-team" b1) = 2%nat
       /\ length (badgesOfType "new-matchup" b1) = 1%nat
       /\ In (VenueCountB 1 "Arena1") b1)
      /\ (badgesOfType "new-team" b2 = []
          /\ In (VenueCountB 2 "Arena2") b2
          /\ In (StreakB 2) b2)
      /\ (In (VenueVisitB "Arena1" 2) b3
          /\ In (StreakB 3) b3
          /\ badgesOfType "new-matchup" b3 = [])
  | _ => False
  end.

(** *** Division *)

Definition withDivision (d : option string) (game : Game) : Game :=
  {| GameID := GameID game; DateSort := DateSort game;
     TimeSort := TimeSort game; Gender := Gender game; Division := d;
     AwayTeam := AwayTeam game; HomeTeam := HomeTeam game;
     AwayScore := AwayScore game; HomeScore := HomeScore game;
     Venue := Venue game; City := City game; State := State game;
     AwayConf := AwayConf game; HomeConf := HomeConf game |}.

(** *** Streaks *)

(** The calendar day a game falls on, counted from 1970-01-01, as the
    streak rule reads it; [None] when its [DateSort] is not a date. *)
Definition dayOf (game : Game) : option Z :=
  JS.parseISODate (isoOf (JS.orStr (DateSort game) "")).

(** A game with only a [DateSort]. *)
Definition gameOn (id date : string) : Game :=
  {| GameID := Some id; DateSort := Some date; TimeSort := None;
     Gender := None; Division := None; AwayTeam := None; HomeTeam := None;
     AwayScore := None; HomeScore := None; Venue := None; City := None;
     State := None; AwayConf := None; HomeConf := None |}.

Definition noData : Data :=
  {| games := []; conferenceChecklist := []; dataTeams := [];
     teamAliases := []; playerGames := [] |}.




(** *** History of a stream *)

(** The rolling state once the games [pre] of a stream are processed. *)
Definition stateAfter (D : Data) (pre : list Game) : St :=
  fst (processGames D 0 pre initSt).

Definition venueOf (game : Game) : string := JS.orStr (Venue game) "".

(** Number of earlier games played at [venue]. *)
Definition visitsBefore (pre : list Game) (venue : string) : nat :=
  length (List.filter (String.eqb venue) (map venueOf pre)).

(** The distinct venues of the earlier games, by first visit. *)
Definition distinctVenues (pre : list Game) : list string :=
  fold_left JS.add (List.filter JS.truthy (map venueOf pre)) [].

(** The venue badges of a game as the venue rule is specified, from the
    history of the stream: a venue-count badge on a first visit whose
    ordinal among the distinct venues is a milestone, a venue-visit badge
    when the number of visits, this one included, exceeds 1 and is a
    milestone. *)
Definition venueBadgesSpec (pre : list Game) (game : Game) : list Badge :=
  let venue := venueOf game in
  let ordinal := S (length (distinctVenues pre)) in
  let visits := S (visitsBefore pre venue) in
  if JS.truthy venue then
    (if (visitsBefore pre venue =? 0)%nat
        && JS.includes MILESTONE_COUNTS ordinal
     then [VenueCountB ordinal venue] else [])
    ++ (if (1 <? visits)%nat && JS.includes MILESTONE_COUNTS visits
        then [VenueVisitB venue visits] else [])
  else [].

(** The venue state records the history of the stream. *)
Definition venueHistory (pre : list Game) (s : St) : Prop :=
  (forall v, JS.countOr0 (venueCounts (venues s) !! v)
             = if JS.truthy v then visitsBefore pre v else O)
  /\ venueOrder (venues s) = distinctVenues pre.

(** *** Badges pushed at most once *)

(** Number of badges of a list that satisfy [p]. *)
Definition countIf (p : Badge -> bool) (l : list Badge) : nat :=
  length (List.filter p l).

(** A step that pushes a badge satisfying [p] only while the mark [seen]
    is not set, at most one, and sets the mark when it does; the mark
    stays set.  [Inv] is an invariant of the state the step may rely on. *)
Definition onceStep {S : Type} (Inv : S -> Prop) (seen : S -> bool)
    (p : Badge -> bool) (step : S -> S * list Badge) : Prop :=
  forall s, Inv s ->
    Inv (fst (step s))
    /\ (seen s = true ->
        seen (fst (step s)) = true /\ countIf p (snd (step s)) = O)
    /\ (seen s = false ->
        (countIf p (snd (step s)) <= 1)%nat
        /\ (countIf p (snd (step s)) = 1%nat -> seen (fst (step s)) = true)).

Definition isNewState (state : string) (b : Badge) : bool :=
  match b with
  | NewStateB state' _ => String.eqb state' state
  | _ => false
  end.

(** A new-matchup badge for the unordered pair [{t1, t2}] and gender [g]. *)
Definition isNewMatchup (t1 t2 : string) (g : gender) (b : Badge) : bool :=
  match b with
  | NewMatchupB awayTeam homeTeam g' =>
      bool_decide (g' = g)
      && ((String.eqb awayTeam t1 && String.eqb homeTeam t2)
          || (String.eqb awayTeam t2 && String.eqb homeTeam t1))
  | _ => false
  end.

Definition isConfComplete (conf : string) (g : gender) (b : Badge) : bool :=
  match b with
  | ConfCompleteB conf' g' _ => String.eqb conf' conf && bool_decide (g' = g)
  | _ => false
  end.

(** No team is recorded for a conference that has no counter yet. *)
Definition confCounted (s : ConfSt) : Prop :=
  forall conf g,
    JS.falsyCount (confTeamCounts s !! conf) = true ->
    default [] (confTeamsSeen s !! (conf +:+ "|" +:+ genderStr g)) = [].

(** [matchupKey] of line 666. *)
Definition matchupKey (t1 t2 : string) (g : gender) : string :=
  let '(a, b) := JS.sortPair t1 t2 in (a +:+ "|" +:+ b) +:+ "|" +:+ genderStr g.

(** [b] is the badge [b0]. *)
Definition isBadge (b0 b : Badge) : bool := bool_decide (b = b0).

(** *** Conference completion *)

(** A game that brings [team] of conference [conf] as the away side; the
    home side has no name and no conference. *)
Definition introGame (conf team : string) (g : gender) : Game :=
  {| GameID := None; DateSort := None; TimeSort := None; Gender := Some g;
     Division := None; AwayTeam := Some team; HomeTeam := None;
     AwayScore := None; HomeScore := None; Venue := None; City := None;
     State := None; AwayConf := Some conf; HomeConf := None |}.

(** The teams seen so far for [(conf, g)]. *)
Definition teamsSeenOf (s : St) (conf : string) (g : gender) : list string :=
  default [] (confTeamsSeen (confs s) !! (conf +:+ "|" +:+ genderStr g)).

(** Every conf-complete badge of a list carries the configured member
    count of its conference, which is positive. *)
Definition completeTotalsPositive (D : Data) (bs : list Badge) : Prop :=
  Forall (fun b => match b with
                   | ConfCompleteB conf _ total =>
                       total = JS.countOr0 (conferenceTeamCounts D !! conf)
                       /\ (0 < total)%nat
                   | _ => True
                   end) bs.

(** A checklist with one conference of three members. *)
Definition ivyData : Data :=
  {| games := [];
     conferenceChecklist :=
       [("Ivy", mkConfData
                  (Some [mkTeamEntry (Some "Brown") None;
                         mkTeamEntry (Some "Penn") None;
                         mkTeamEntry (Some "Yale") None])
                  (Some 3%nat))];
     dataTeams := [];
     teamAliases := [];
     playerGames := [] |}.

(** *** Sentinel conferences *)

(** The badge is for, or keyed by, a sentinel conference name. *)
Definition keyedBySentinel (b : Badge) : bool :=
  match b with
  | NewConfB conf => isSentinel conf
  | ConfCompleteB conf _ _ => isSentinel conf
  | ConfMatchupB awayConf homeConf => isSentinel awayConf || isSentinel homeConf
  | _ => false
  end.

(** "The sentinel names are excluded from all milestone logic." *)
Definition sentinelsExcluded (D : Data) : Prop :=
  Forall (fun b => keyedBySentinel b = false) (allBadges (badgeStream D)).

(** What the conference rule does exclude. *)
Definition sentinelFree (b : Badge) : Prop :=
  match b with
  | NewConfB conf => conf <> "Historical/Other"
  | ConfCompleteB conf _ _ => isSentinel conf = false
  | _ => True
  end.

(** One game between a team of the catch-all conference and a team of
    the ACC, and one whose away team the checklist lists under the
    aggregate first. *)
Definition sentinelData : Data :=
  {| games :=
       [{| GameID := Some "g1"; DateSort := Some "20240101"; TimeSort := None;
           Gender := Some M; Division := None;
           AwayTeam := Some "Chaminade"; HomeTeam := Some "Duke";
           AwayScore := Some 60; HomeScore := Some 90;
           Venue := None; City := None; State := None;
           AwayConf := Some "Historical/Other"; HomeConf := Some "ACC" |};
        {| GameID := Some "g2"; DateSort := Some "20240105"; TimeSort := None;
           Gender := Some M; Division := None;
           AwayTeam := Some "Yale"; HomeTeam := None;
           AwayScore := None; HomeScore := None;
           Venue := None; City := None; State := None;
           AwayConf := None; HomeConf := None |}];
     conferenceChecklist :=
       [("All D1", mkConfData (Some [mkTeamEntry (Some "Duke") None;
                                     mkTeamEntry (Some "Yale") None])
                              (Some 2%nat));
        ("ACC", mkConfData (Some [mkTeamEntry (Some "Duke") None]) (Some 1%nat));
        ("Ivy", mkConfData (Some [mkTeamEntry (Some "Yale") None]) (Some 1%nat))];
     dataTeams := [];
     teamAliases := [];
     playerGames := [] |}.

(** *** Transfers *)

(** The test of lines 713-719 as it is specified: a record of the same
    player, matched by id, or by name when the appearance has no id, at
    that school and strictly before the game. *)
Definition hasPlayerAtSchoolBeforeSpec (D : Data) (pg : PlayerGame)
    (currentDateSort prevSchool : string) : bool :=
  existsb (fun pg2 =>
    let id := JS.orStr (player_id pg) "" in
    let idMatch := JS.truthy id && optIs (player_id pg2) id in
    let nameMatch :=
      negb (JS.truthy id)
      && JS.truthy (JS.orStr (player pg2) "")
      && String.eqb (toLowerCase (JS.orStr (player pg2) ""))
                    (toLowerCase (JS.orStr (player pg) "")) in
    (idMatch || nameMatch)
    && optIs (team pg2) prevSchool
    && JS.strLt (JS.orStr (date_yyyymmdd pg2) "") currentDateSort)
    (playerGames D).

(** A player seen at NewU, listed as coming from OldU, with an earlier
    record at OldU whose game is not among the games attended.  [id] is
    the player id of both records, or [None]. *)
Definition transferData (id : option string) : Data :=
  {| games := [gameOn "g1" "20240101"];
     conferenceChecklist := [];
     dataTeams := [];
     teamAliases := [];
     playerGames :=
       [{| game_id := Some "g0"; player_id := id; player := Some "Bob Smith";
           team := Some "OldU"; realgm_previous_schools := None;
           date_yyyymmdd := Some "20230101" |};
        {| game_id := Some "g1"; player_id := id; player := Some "Bob Smith";
           team := Some "NewU"; realgm_previous_schools := Some ["OldU"];
           date_yyyymmdd := Some "20240101" |}] |}.

(** *** Ordering *)












(** ** Vocabulary of the further properties *)

(** *** Order of the badges of a game *)

(** Position of a rule in the loop body. *)
Definition ruleRank (r : Rule) : nat :=
  match r with
  | RCount => 0
  | RStreak => 1
  | RState => 2
  | RVenue => 3
  | RTeam => 4
  | RConf => 5
  | RMatchup => 6
  | RConfMatchup => 7
  | RTransfer => 8
  end%nat.

(** [b1] is pushed by a rule that does not come after the rule of [b2]. *)
Definition ruleOrder (b1 b2 : Badge) : Prop :=
  (ruleRank (ruleOf b1) <= ruleRank (ruleOf b2))%nat.

(** *** Counts *)

Definition isD1Game (game : Game) : bool := String.eqb (divisionOf game) "D1".

(** The badges of the two counting rules for the game at 1-based position
    [n] that is the [d]-th D1 game when it is one. *)
Definition countBadgesSpec (n d : nat) (d1 : bool) : list Badge :=
  (if JS.includes GAME_MILESTONES n then [GameCountB n] else [])
  ++ (if d1 && JS.includes D1_MILESTONES d then [D1GameB d] else []).

(** *** Teams *)

Definition awayOf (game : Game) : string := JS.orStr (AwayTeam game) "".
Definition homeOf (game : Game) : string := JS.orStr (HomeTeam game) "".

(** Number of sides of [game] (0, 1 or 2) that [team] of gender [g]
    takes. *)
Definition sidesIn (team : string) (g : gender) (game : Game) : nat :=
  if bool_decide (genderOf game = g)
  then ((if String.eqb team (awayOf game) then 1 else 0)
        + (if String.eqb team (homeOf game) then 1 else 0))%nat
  else O.

(** Number of earlier appearances of [team] of gender [g]. *)
Definition appearances (pre : list Game) (team : string) (g : gender) : nat :=
  list_sum (map (sidesIn team g) pre).

(** [isWinner] of line 629. *)
Definition isWinnerOf (team : string) (game : Game) : bool :=
  let awayScore := JS.orNum (AwayScore game) 0 in
  let homeScore := JS.orNum (HomeScore game) 0 in
  (String.eqb team (awayOf game) && (homeScore <? awayScore))
  || (String.eqb team (homeOf game) && (awayScore <? homeScore)).

Definition winsOf (pre : list Game) (team : string) (g : gender) : nat :=
  list_sum (map (fun game => if isWinnerOf team game
                             then sidesIn team g game else O) pre).

Definition lossesOf (pre : list Game) (team : string) (g : gender) : nat :=
  list_sum (map (fun game => if isWinnerOf team game
                             then O else sidesIn team g game) pre).

(** The new-team badge of a side that has [n] earlier appearances. *)
Definition newTeamSpec (team : string) (g : gender) (n : nat) : list Badge :=
  if JS.truthy team && (n =? 0)%nat then [NewTeamB team g] else [].

(** The team-visit badge of a side that has [n] earlier appearances. *)
Definition teamVisitSpec (team : string) (g : gender) (n : nat) : list Badge :=
  if JS.truthy team && (1 <? S n)%nat && JS.includes MILESTONE_COUNTS (S n)
  then [TeamVisitB team (S n) g] else [].

(** *** Streaks, further *)

(** Every recorded streak is at least 2 and at most the maximum. *)
Definition historyBounded (s : StreakSt) : Prop :=
  Forall (fun n => (2 <= n <= maxStreak s)%nat) (streakHistory s).

(** The longest streak the state knows of, the running one included. *)
Definition peak (s : StreakSt) : nat := Nat.max (maxStreak s) (currentStreak s).

(** The running streak is at most 1 as long as no date is recorded. *)
Definition streakStarted (s : StreakSt) : Prop :=
  JS.truthy (JS.orStr (lastGameDate s) "") = true \/ (currentStreak s <= 1)%nat.

Definition isDated (game : Game) : bool := JS.truthy (JS.orStr (DateSort game) "").

(** The streak badges of a list are for lengths from 2 to [m]. *)
Definition streakBadgesWithin (m : nat) (bs : list Badge) : Prop :=
  Forall (fun b => match b with
                   | StreakB n => (2 <= n <= m)%nat
                   | _ => True
                   end) bs.

(** *** First-seen orders *)

(** The distinct non-empty strings of a list, by first occurrence. *)
Definition distinct (l : list string) : list string :=
  fold_left JS.add (List.filter JS.truthy l) [].

Definition stateOf (game : Game) : string := JS.orStr (State game) "".

(** The new-state badge of a game, from the history of the stream. *)
Definition stateBadgesSpec (pre : list Game) (game : Game) : list Badge :=
  let st := stateOf game in
  if JS.truthy st && negb (existsb (String.eqb st) (map stateOf pre))
  then [NewStateB st (S (length (distinct (map stateOf pre))))] else [].

(** The first game at [venue] among [pre] was a D1 game. *)
Definition firstVisitD1 (pre : list Game) (venue : string) : bool :=
  match find (fun game => String.eqb (venueOf game) venue) pre with
  | Some game => isD1Game game
  | None => false
  end.

(** *** Input order *)



(** The last entry of a stream written under [gameId]. *)
Definition lastEntry (stream : list (string * Milestone)) (gameId : string)
  : option Milestone :=
  snd <$> find (fun e => String.eqb (fst e) gameId) (rev stream).

(** *** Pairings *)






(** *** Transfers, further *)

(** The known schools of every player are listed once each. *)
Definition knownSchoolsDistinct (m : gmap string PlayerInfo) : Prop :=
  forall playerId info, m !! playerId = Some info ->
                        List.NoDup (playerInfoTeams info).

(** A transfer badge names at least one previous school, each once, and
    not the new team among them. *)
Definition transferWellFormed (b : Badge) : Prop :=
  match b with
  | TransferB _ prevTeams playerTeam =>
      prevTeams <> [] /\ List.NoDup prevTeams /\ ~ In playerTeam prevTeams
  | _ => True
  end.

(** *** The set of D1 teams *)

(** The body of the inner loop of lines 475-483. *)
Definition d1Step (D : Data) (acc : list string) (t : TeamEntry) : list string :=
  let name := JS.orStr (entryTeam t) "" in
  if JS.truthy name then
    let acc1 := JS.add acc name in
    let canonical := JS.orStr (entryOf name (teamAliases D)) "" in
    let acc2 := if JS.truthy canonical then JS.add acc1 canonical else acc1 in
    match reverseAliases D !! name with
    | Some aliases => fold_left JS.add aliases acc2
    | None => acc2
    end
  else acc.

(** The body of the outer loop of lines 473-484. *)
Definition d1ConfStep (D : Data) (acc : list string) (e : string * ConfData)
  : list string :=
  if isSentinel (fst e) then acc
  else fold_left (d1Step D) (default [] (teams (snd e))) acc.

(** [name] is the [team] field of an entry of a conference of the
    checklist other than the two sentinels. *)
Definition listedD1 (D : Data) (name : string) : Prop :=
  exists conf data ts e,
    In (conf, data) (conferenceChecklist D)
    /\ isSentinel conf = false
    /\ teams data = Some ts
    /\ In e ts
    /\ entryTeam e = Some name
    /\ JS.truthy name = true.

(** [x] is a listed team, the canonical name of one, or an alias of
    one. *)
Definition d1Name (D : Data) (x : string) : Prop :=
  exists name,
    listedD1 D name
    /\ (x = name
        \/ (entryOf name (teamAliases D) = Some x /\ JS.truthy x = true)
        \/ In (x, name) (teamAliases D)).

(** A checklist with the aggregate, one conference, and two aliases. *)
Definition aliasData : Data :=
  {| games := [];
     conferenceChecklist :=
       [("All D1", mkConfData (Some [mkTeamEntry (Some "Chaminade") None])
                              (Some 1%nat));
        ("Big East", mkConfData (Some [mkTeamEntry (Some "UConn") None;
                                       mkTeamEntry (Some "St. John's") None])
                                (Some 2%nat))];
     dataTeams := [];
     teamAliases := [("Connecticut", "UConn"); ("St. John's", "St. John's (NY)")];
     playerGames := [] |}.

(** *** D1 teams seen *)

(** The side names of a game of gender [g], away side first. *)
Definition sideNames (g : gender) (game : Game) : list string :=
  if bool_decide (genderOf game = g) then [awayOf game; homeOf game] else [].

(** The names that took a side in a game of gender [g], in order. *)
Definition namesOf (pre : list Game) (g : gender) : list string :=
  flat_map (sideNames g) pre.

(** The d1-team badge of a side of gender [g], when [names] are the side
    names of that gender handled before it. *)
Definition d1TeamSpec (D1Teams names : list string) (team : string) (g : gender)
  : list Badge :=
  if JS.truthy team && negb (existsb (String.eqb team) names)
     && JS.has D1Teams team
  then let k := S (length (List.filter (JS.has D1Teams) (distinct names))) in
       if JS.includes D1_TEAM_MILESTONES k then [D1TeamB k g] else []
  else [].

(** The team counters and the set of D1 teams of gender [g] agree with
    the side names [names] handled so far. *)
Definition teamsAgree (D1Teams : list string) (g : gender) (names : list string)
    (s : TeamSt) : Prop :=
  (forall t, JS.truthy t = true ->
     JS.falsyCount (teamCounts s !! (t +:+ "|" +:+ genderStr g))
     = negb (existsb (String.eqb t) names))
  /\ d1TeamsSeen s g = List.filter (JS.has D1Teams) (distinct names).

(** *** Conference tracking *)

(** The guard of line 636: the conference loop handles [conf]. *)
Definition validConf (conf : string) : bool :=
  JS.truthy conf && negb (String.eqb conf "Historical/Other").

(** The team a side of conference [conf] and gender [g] brings to the
    set of conference [c] and gender [gc]. *)
Definition confSide (c : string) (gc g : gender) (conf team : string)
  : list string :=
  if validConf conf && String.eqb conf c && bool_decide (g = gc)
  then [team] else [].

(** The teams a game brings to the set of [c] and [gc], away side
    first. *)
Definition confNames (D : Data) (c : string) (gc : gender) (game : Game)
  : list string :=
  confSide c gc (genderOf game) (getGameConference D game away) (awayOf game)
  ++ confSide c gc (genderOf game) (getGameConference D game home) (homeOf game).

Definition confNamesOf (D : Data) (pre : list Game) (c : string) (gc : gender)
  : list string :=
  flat_map (confNames D c gc) pre.

(** A JS Set filled with [names] in order. *)
Definition setOf (names : list string) : list string :=
  fold_left JS.add names [].

(** The new-conf badge of a side of conference [conf], after [earlier]
    sides of that conference, of any gender. *)
Definition newConfSpec (conf : string) (earlier : nat) : list Badge :=
  if validConf conf && (earlier =? 0)%nat then [NewConfB conf] else [].

(** The conf-complete badge of a side that brings [team] of conference
    [conf] and gender [g], after the sides [names] of that conference and
    gender. *)
Definition confCompleteSpec (totals : gmap string nat) (conf : string)
    (g : gender) (names : list string) (team : string) : list Badge :=
  let total := JS.countOr0 (totals !! conf) in
  if validConf conf && negb (JS.has (setOf names) team)
     && (S (length (setOf names)) =? total)%nat
  then [ConfCompleteB conf g total] else [].

(** The conference state agrees with the sides [names c gc] handled so
    far for each conference and gender. *)
Definition confsAgree (totals : gmap string nat)
    (names : string -> gender -> list string) (s : ConfSt) : Prop :=
  forall c gc,
    default [] (confTeamsSeen s !! (c +:+ "|" +:+ genderStr gc))
    = setOf (names c gc)
    /\ JS.falsyFlag (confCompleted s !! (c +:+ "|" +:+ genderStr gc))
       = negb ((0 <? JS.countOr0 (totals !! c))%nat
               && (JS.countOr0 (totals !! c) <=? length (setOf (names c gc)))%nat)
    /\ JS.countOr0 (confTeamCounts s !! c)
       = (length (setOf (names c M)) + length (setOf (names c W)))%nat.

(** *** Conference lookup *)

(** [data] lists [name] as the [team] or the [name] of an entry. *)
Definition listsTeam (data : ConfData) (name : string) : Prop :=
  exists ts t, teams data = Some ts /\ In t ts
               /\ (entryTeam t = Some name \/ entryName t = Some name).

(** Where a conference [c] of the team [name] can come from: the table of
    defunct teams, a key of the checklist that lists the team, or a row
    of [DATA.teams] for the team. *)
Definition confSource (D : Data) (name c : string) : Prop :=
  entryOf name DEFUNCT_TEAM_CONFERENCES = Some c
  \/ (exists data, In (c, data) (conferenceChecklist D) /\ listsTeam data name)
  \/ (exists r, In r (dataTeams D) /\ Team r = Some name
                /\ Conference r = Some c).

(** The stored conference and the team name of a side. *)
Definition sideConf (game : Game) (tt : teamType) : option string :=
  match tt with away => AwayConf game | home => HomeConf game end.

Definition sideTeam (game : Game) (tt : teamType) : option string :=
  match tt with away => AwayTeam game | home => HomeTeam game end.

(** No entry of the checklist lists [name]. *)
Definition unlisted (D : Data) (name : string) : Prop :=
  forall c data, In (c, data) (conferenceChecklist D) -> ~ listsTeam data name.

(** A checklist whose aggregate key comes first and lists every team. *)
Definition aggregateFirst : Data :=
  {| games := [];
     conferenceChecklist :=
       [("All D1", mkConfData (Some [mkTeamEntry (Some "Duke") None])
                              (Some 1%nat));
        ("ACC", mkConfData (Some [mkTeamEntry (Some "Duke") None])
                           (Some 1%nat))];
     dataTeams := [];
     teamAliases := [];
     playerGames := [] |}.

(** *** Ordinals *)

(** [arr[i]] for an integer index: [undefined] outside the array.  The
    index -0 that [%] gives for a negative multiple names the same
    property as 0. *)
Definition arrayAt (arr : list string) (i : Z) : option string :=
  if i <? 0 then None else nth_error arr (Z.to_nat i).

(** The suffix [ordinal] appends (app.js 81-83); [%] truncates, hence
    [Z.rem]. *)
Definition ordinalSuffix (n : Z) : string :=
  let s := ["th"; "st"; "nd"; "rd"] in
  let v := Z.rem n 100 in
  JS.orStr (arrayAt s (Z.rem (v - 20) 10))
           (JS.orStr (arrayAt s v) (JS.orStr (arrayAt s 0) "")).

(** app.js 80-84, on the counters the engine passes. *)
Definition ordinal (n : nat) : string :=
  JS.numToString n +:+ ordinalSuffix (Z.of_nat n).

(** The English rule: st, nd, rd after a last digit 1, 2, 3, except for
    11, 12 and 13 in the last two digits; th otherwise. *)
Definition englishSuffix (n : Z) : string :=
  if (11 <=? n mod 100) && (n mod 100 <=? 13) then "th"
  else if n mod 10 =? 1 then "st"
  else if n mod 10 =? 2 then "nd"
  else if n mod 10 =? 3 then "rd"
  else "th".

(** *** Badges on a game card *)

(** The property key [gameMilestones[game.GameID]] reads: an absent
    [GameID] reads the key 'undefined'. *)
Definition propertyKey (o : option string) : string :=
  match o with Some s => s | None => "undefined" end.

(** [gameMilestones[game.GameID] || { badges: [] }] of [ScoreCard]
    (app.js 870) and of the game log (1396), then [.badges]. *)
Definition cardMilestones (D : Data) (game : Game) : list Badge :=
  match gameMilestones D !! propertyKey (GameID game) with
  | Some m => badges m
  | None => []
  end.

(** The badges a card renders, [badges.slice(0, 3)], and the count of its
    '+N' mark (app.js 890-893). *)
Definition cardBadges (D : Data) (game : Game) : list Badge :=
  firstn 3 (cardMilestones D game).

Definition cardMore (D : Data) (game : Game) : option nat :=
  if (3 <? length (cardMilestones D game))%nat
  then Some (length (cardMilestones D game) - 3)%nat else None.

(** One game without [GameID]. *)
Definition noIdGame : Game :=
  {| GameID := None; DateSort := Some "20240101"; TimeSort := None;
     Gender := Some M; Division := None;
     AwayTeam := Some "TeamX"; HomeTeam := Some "TeamY";
     AwayScore := Some 70; HomeScore := Some 60;
     Venue := Some "Arena1"; City := None; State := None;
     AwayConf := None; HomeConf := None |}.

Definition noIdData : Data :=
  {| games := [noIdGame];
     conferenceChecklist := [];
     dataTeams := [];
     teamAliases := [];
     playerGames := [] |}.

(** *** Pagination (app.js 817-827, 1363, 2442) *)

(** An entry of [pages]: a page number or the string '...'. *)
Inductive PageItem :=
| PageNum (i : Z)
| Ellipsis.

(** [Math.ceil(total / pageSize)] for an array length and the positive
    page sizes the callers pass (50 and 100). *)
Definition totalPagesOf (total : nat) (pageSize : positive) : Z :=
  (Z.of_nat total + Z.pos pageSize - 1) / Z.pos pageSize.

(** The test of line 822. *)
Definition keepPage (totalPages page i : Z) : bool :=
  (i =? 1) || (i =? totalPages) || ((page - 2 <=? i) && (i <=? page + 2)).

(** [pages[pages.length - 1]]; [undefined] on the empty array. *)
Definition lastItem (pages : list PageItem) : option PageItem :=
  List.last (map Some pages) None.

(** The body of the loop (822-826). *)
Definition pageStep (totalPages page : Z) (pages : list PageItem) (i : Z)
  : list PageItem :=
  if keepPage totalPages page i then pages ++ [PageNum i]
  else match lastItem pages with
       | Some Ellipsis => pages
       | _ => pages ++ [Ellipsis]
       end.

(** The values of [i] in [for (let i = 1; i <= totalPages; i++)]. *)
Definition pageRange (totalPages : Z) : list Z :=
  map Z.of_nat (seq 1 (Z.to_nat totalPages)).

Definition pageItems (totalPages page : Z) : list PageItem :=
  fold_left (pageStep totalPages page) (pageRange totalPages) [].

(** The [pages] array of [Pagination]; [None] when the component returns
    [null]. *)
Definition Pagination (page : Z) (pageSize : positive) (total : nat)
  : option (list PageItem) :=
  let totalPages := totalPagesOf total pageSize in
  if totalPages <=? 1 then None else Some (pageItems totalPages page).

(** [Array.prototype.slice(start, end)] on integer indices: a negative
    index counts from the end, and both are clamped to the array. *)
Definition sliceList {A : Type} (l : list A) (start stop : Z) : list A :=
  let len := Z.of_nat (length l) in
  let rel i := if i <? 0 then Z.max (len + i) 0 else Z.min i len in
  firstn (Z.to_nat (rel stop - rel start)) (skipn (Z.to_nat (rel start)) l).

(** [filtered.slice((page - 1) * pageSize, page * pageSize)]. *)
Definition pageData {A : Type} (filtered : list A) (pageSize : positive)
    (page : Z) : list A :=
  sliceList filtered ((page - 1) * Z.pos pageSize) (page * Z.pos pageSize).

(** What the loop pushes for [i]: the number of a kept page, or one
    ellipsis at the start of a run of pages left out. *)
Definition pageItemSpec (totalPages page i : Z) : list PageItem :=
  if keepPage totalPages page i then [PageNum i]
  else if keepPage totalPages page (i - 1) then [Ellipsis] else [].

(** * Properties *)

Arguments JS.includes : simpl never.
Arguments JS.has : simpl never.
Arguments JS.add : simpl never.
Arguments gameBadges : simpl never.
Arguments gameState : simpl never.

(** ** Which rule pushes which badge *)

Lemma badgesOfRule_app (r : Rule) (l1 l2 : list Badge) :
  badgesOfRule r (l1 ++ l2) = badgesOfRule r l1 ++ badgesOfRule r l2.
Proof. apply List.filter_app. Qed.

Lemma badgesOfRule_Forall (r r' : Rule) (l : list Badge) :
  Forall (fun b => ruleOf b = r) l ->
  badgesOfRule r' l = if bool_decide (r = r') then l else [].
Proof.
  induction 1 as [|b l Hb _ IH]; simpl.
  - now destruct (bool_decide (r = r')).
  - rewrite IH, Hb. now destruct (bool_decide (r = r')).
Qed.

Lemma forEach_Forall {A S : Type} (P : Badge -> Prop)
    (f : A -> S -> S * list Badge) (l : list A) :
  (forall x s, Forall P (snd (f x s))) ->
  forall s, Forall P (snd (forEach f l s)).
Proof.
  intros Hf. induction l as [|x l IH]; intros s; simpl.
  - constructor.
  - apply Forall_app. split; [apply Hf | apply IH].
Qed.

(** Closes a goal [Forall P (if c then [b] else [])] and the like. *)
Ltac forall_badges :=
  repeat match goal with
         | |- Forall _ (_ ++ _) => apply Forall_app; split
         | |- Forall _ (if ?c then _ else _) => destruct c
         | |- Forall _ (_ :: _) => constructor; [reflexivity|]
         | |- Forall _ [] => constructor
         end.

Lemma countRule_rule division s :
  Forall (fun b => ruleOf b = RCount) (snd (countRule division s)).
Proof.
  unfold countRule. destruct (String.eqb division "D1"); simpl; forall_badges.
Qed.

Lemma streakRule_rule dateSort s :
  Forall (fun b => ruleOf b = RStreak) (snd (streakRule dateSort s)).
Proof. unfold streakRule; simpl. forall_badges. Qed.

Lemma stateRule_rule state s :
  Forall (fun b => ruleOf b = RState) (snd (stateRule state s)).
Proof.
  unfold stateRule.
  destruct (JS.truthy state && negb (JS.has (statesSeen s) state)); simpl;
    forall_badges.
Qed.

Lemma venueRule_rule division venue s :
  Forall (fun b => ruleOf b = RVenue) (snd (venueRule division venue s)).
Proof.
  unfold venueRule. destruct (JS.truthy venue); [|constructor].
  destruct (JS.falsyCount (venueCounts s !! venue)); simpl; forall_badges.
Qed.

Lemma teamStep_rule D1Teams game team s :
  Forall (fun b => ruleOf b = RTeam) (snd (teamStep D1Teams game team s)).
Proof.
  unfold teamStep. destruct (JS.truthy team); simpl; [|constructor].
  destruct (JS.falsyCount _); simpl;
    destruct (default (O, O) _); simpl; forall_badges.
Qed.

Lemma confStep_rule totals g conf team s :
  Forall (fun b => ruleOf b = RConf) (snd (confStep totals g conf team s)).
Proof.
  unfold confStep.
  destruct (negb (JS.truthy conf) || String.eqb conf "Historical/Other");
    simpl; forall_badges.
Qed.

Lemma matchupRule_rule g awayTeam homeTeam seen :
  Forall (fun b => ruleOf b = RMatchup)
         (snd (matchupRule g awayTeam homeTeam seen)).
Proof.
  unfold matchupRule.
  destruct (JS.truthy awayTeam && JS.truthy homeTeam); [|constructor].
  destruct (JS.sortPair awayTeam homeTeam).
  destruct (JS.falsyFlag _); simpl; forall_badges.
Qed.

Lemma confMatchupRule_rule awayConf homeConf m :
  Forall (fun b => ruleOf b = RConfMatchup)
         (snd (confMatchupRule awayConf homeConf m)).
Proof.
  unfold confMatchupRule.
  destruct (JS.truthy awayConf && JS.truthy homeConf
            && negb (String.eqb awayConf homeConf)); [|constructor].
  destruct (JS.sortPair awayConf homeConf); simpl; forall_badges.
Qed.

Lemma playerStep_rule D game pg m :
  Forall (fun b => ruleOf b = RTransfer) (snd (playerStep D game pg m)).
Proof.
  unfold playerStep.
  destruct (negb (JS.truthy _) || negb (JS.truthy _)); simpl; forall_badges.
Qed.

Lemma teamRule_rule D game s :
  Forall (fun b => ruleOf b = RTeam) (snd (teamRule D game s)).
Proof. apply forEach_Forall. intros; apply teamStep_rule. Qed.

Lemma confRule_rule D game s :
  Forall (fun b => ruleOf b = RConf) (snd (confRule D game s)).
Proof. apply forEach_Forall. intros; apply confStep_rule. Qed.

Lemma transferRule_rule D game gameId m :
  Forall (fun b => ruleOf b = RTransfer) (snd (transferRule D game gameId m)).
Proof. apply forEach_Forall. intros; apply playerStep_rule. Qed.

(** Splits the badges of a game by rule. *)
Ltac split_by_rule :=
  unfold gameBadges;
  rewrite !badgesOfRule_app;
  rewrite (badgesOfRule_Forall _ _ _ (countRule_rule _ _)),
          (badgesOfRule_Forall _ _ _ (streakRule_rule _ _)),
          (badgesOfRule_Forall _ _ _ (stateRule_rule _ _)),
          (badgesOfRule_Forall _ _ _ (venueRule_rule _ _ _)),
          (badgesOfRule_Forall _ _ _ (teamRule_rule _ _ _)),
          (badgesOfRule_Forall _ _ _ (confRule_rule _ _ _)),
          (badgesOfRule_Forall _ _ _ (matchupRule_rule _ _ _ _)),
          (badgesOfRule_Forall _ _ _ (confMatchupRule_rule _ _ _)),
          (badgesOfRule_Forall _ _ _ (transferRule_rule _ _ _ _));
  simpl; rewrite ?app_nil_r.

Lemma gameBadges_count D index game s :
  badgesOfRule RCount (gameBadges D index game s)
  = snd (countRule (divisionOf game) (counts s)).
Proof. split_by_rule. reflexivity. Qed.

Lemma gameBadges_streak D index game s :
  badgesOfRule RStreak (gameBadges D index game s)
  = snd (streakRule (JS.orStr (DateSort game) "") (streak s)).
Proof. split_by_rule. reflexivity. Qed.

Lemma gameBadges_venue D index game s :
  badgesOfRule RVenue (gameBadges D index game s)
  = snd (venueRule (divisionOf game) (JS.orStr (Venue game) "") (venues s)).
Proof. split_by_rule. reflexivity. Qed.

Lemma gameBadges_conf D index game s :
  badgesOfRule RConf (gameBadges D index game s) = snd (confRule D game s.(confs)).
Proof. split_by_rule. reflexivity. Qed.

(** ** The end-to-end scenario *)

(** C2, as stated, fails: in the three-game scenario the second game gets
    no venue-count badge and the third no venue-visit badge, because 2 is
    not a member of [MILESTONE_COUNTS]. *)
Lemma scenario_not_as_stated :
  ~ scenarioAsStated M /\ ~ scenarioAsStated W.
Proof.
  split; intros H; vm_compute in H.
  - destruct H as [_ [[_ [[H | []] _]] _]]. discriminate H.
  - destruct H as [_ [[_ [[H | []] _]] _]]. discriminate H.
Qed.

(** C2 (amended): in the three-game scenario, for either gender, game 1
    gets game-count #1, D1 #1, venue-count #1, two new-team badges and one
    new-matchup badge; game 2 gets only a streak badge of length 2 (no
    new-team and no venue-count badge, 2 not being a venue milestone);
    game 3 gets only a streak badge of length 3 (no venue-visit and no
    new-matchup badge). *)
Theorem scenario_badges (g : gender) :
  badgeStream (scenario g)
  = [("game1", mkMilestone [GameCountB 1; D1GameB 1; VenueCountB 1 "Arena1";
                            NewTeamB "TeamX" g; NewTeamB "TeamY" g;
                            NewMatchupB "TeamX" "TeamY" g] 1);
     ("game2", mkMilestone [StreakB 2] 2);
     ("game3", mkMilestone [StreakB 3] 3)].
Proof. destruct g; vm_compute; reflexivity. Qed.

(** ** Division *)

Lemma divisionOf_withDivision_absent game :
  divisionOf (withDivision None game) = "D1".
Proof. reflexivity. Qed.

Lemma divisionOf_withDivision_empty game :
  divisionOf (withDivision (Some "") game) = "D1".
Proof. reflexivity. Qed.

Lemma divisionOf_withDivision_D1 game :
  divisionOf (withDivision (Some "D1") game) = "D1".
Proof. reflexivity. Qed.

Lemma gameState_division D index game s d d' :
  divisionOf (withDivision d game) = divisionOf (withDivision d' game) ->
  gameState D index (withDivision d game) s
  = gameState D index (withDivision d' game) s.
Proof. intros H. unfold gameState. rewrite H. reflexivity. Qed.

Lemma gameBadges_division D index game s d d' :
  divisionOf (withDivision d game) = divisionOf (withDivision d' game) ->
  gameBadges D index (withDivision d game) s
  = gameBadges D index (withDivision d' game) s.
Proof. intros H. unfold gameBadges. rewrite H. reflexivity. Qed.

(** C10: a game whose Division is absent or empty is processed exactly
    as the same game marked 'D1' (same state, same badges); its D1 game
    count goes up by one, the d1-game badge is pushed exactly when the new
    count is a milestone, and a venue met for the first time is counted as
    a D1 venue unless already in the D1 venue set. *)
Theorem absent_division_is_D1 (D : Data) (index : nat) (game : Game) (s : St) :
  let absent := withDivision None game in
  let empty := withDivision (Some "") game in
  let d1 := withDivision (Some "D1") game in
  let n := S (d1GameCount (counts s)) in
  let venue := JS.orStr (Venue game) "" in
  let newD1Venue := JS.truthy venue
                    && JS.falsyCount (venueCounts (venues s) !! venue)
                    && negb (JS.has (d1VenuesSeen (venues s)) venue) in
  (gameState D index absent s = gameState D index d1 s
   /\ gameBadges D index absent s = gameBadges D index d1 s)
  /\ (gameState D index empty s = gameState D index d1 s
      /\ gameBadges D index empty s = gameBadges D index d1 s)
  /\ d1GameCount (counts (gameState D index absent s)) = n
  /\ badgesOfType "d1-game" (gameBadges D index absent s)
     = (if JS.includes D1_MILESTONES n then [D1GameB n] else [])
  /\ d1VenueCount (venues (gameState D index absent s))
     = (if newD1Venue then S (d1VenueCount (venues s))
        else d1VenueCount (venues s))
  /\ d1VenuesSeen (venues (gameState D index absent s))
     = (if newD1Venue then d1VenuesSeen (venues s) ++ [venue]
        else d1VenuesSeen (venues s)).
Proof.
  cbv zeta.
  split; [split; [apply gameState_division | apply gameBadges_division];
          reflexivity|].
  split; [split; [apply gameState_division | apply gameBadges_division];
          reflexivity|].
  split; [reflexivity|].
  split.
  - unfold gameBadges, badgesOfType. rewrite !List.filter_app.
    rewrite divisionOf_withDivision_absent.
    assert (Hother : forall r l, r <> RCount ->
              Forall (fun b => ruleOf b = r) l ->
              List.filter (fun b => String.eqb (badgeType b) "d1-game") l = []).
    { intros r l Hr Hl. induction Hl as [|b l Hb _ IH]; [reflexivity|].
      simpl. rewrite IH. destruct b; simpl in *; congruence. }
    rewrite (Hother RStreak _ ltac:(discriminate) (streakRule_rule _ _)),
            (Hother RState _ ltac:(discriminate) (stateRule_rule _ _)),
            (Hother RVenue _ ltac:(discriminate) (venueRule_rule _ _ _)),
            (Hother RTeam _ ltac:(discriminate) (teamRule_rule _ _ _)),
            (Hother RConf _ ltac:(discriminate) (confRule_rule _ _ _)),
            (Hother RMatchup _ ltac:(discriminate) (matchupRule_rule _ _ _ _)),
            (Hother RConfMatchup _ ltac:(discriminate) (confMatchupRule_rule _ _ _)),
            (Hother RTransfer _ ltac:(discriminate) (transferRule_rule _ _ _ _)).
    rewrite !app_nil_r. unfold countRule. simpl.
    destruct (JS.includes GAME_MILESTONES _); simpl;
      destruct (JS.includes D1_MILESTONES _); reflexivity.
  - unfold gameState; simpl. rewrite divisionOf_withDivision_absent.
    unfold venueRule.
    destruct (JS.truthy (JS.orStr (Venue game) "")); simpl; [|auto].
    destruct (JS.falsyCount _); simpl; [|auto].
    unfold JS.add.
    destruct (JS.has (d1VenuesSeen (venues s)) _); simpl; auto.
Qed.

(** ** Badges by type *)

Lemma badgesOfType_app ty (l1 l2 : list Badge) :
  badgesOfType ty (l1 ++ l2) = badgesOfType ty l1 ++ badgesOfType ty l2.
Proof. apply List.filter_app. Qed.

(** A type that only rule [r] pushes is found among the badges of [r]. *)
Lemma badgesOfType_rule ty r (l : list Badge) :
  (forall b, badgeType b = ty -> ruleOf b = r) ->
  badgesOfType ty l = badgesOfType ty (badgesOfRule r l).
Proof.
  intros Hty. induction l as [|b l IH]; [reflexivity|].
  unfold badgesOfType, badgesOfRule in *. simpl.
  destruct (String.eqb_spec (badgeType b) ty) as [E|E].
  - rewrite (Hty b E). rewrite bool_decide_eq_true_2 by reflexivity.
    simpl. rewrite (proj2 (String.eqb_eq _ _) E). now rewrite IH.
  - destruct (bool_decide (ruleOf b = r)); simpl; [|exact IH].
    rewrite (proj2 (String.eqb_neq _ _) E). exact IH.
Qed.

Lemma badgesOfType_all ty (l : list Badge) :
  Forall (fun b => badgeType b = ty) l -> badgesOfType ty l = l.
Proof.
  induction 1 as [|b l Hb _ IH]; [reflexivity|].
  unfold badgesOfType in *. simpl.
  rewrite (proj2 (String.eqb_eq _ _) Hb). now rewrite IH.
Qed.

Lemma streak_type_rule b : badgeType b = "streak" -> ruleOf b = RStreak.
Proof. destruct b; simpl; intros H; try discriminate H; reflexivity. Qed.

(** ** Streak tracking *)

Lemma streakRule_badges dateSort s :
  snd (streakRule dateSort s)
  = let n := currentStreak (fst (streakRule dateSort s)) in
    if (2 <=? n)%nat then [StreakB n] else [].
Proof. reflexivity. Qed.

Lemma gameBadges_streak_type D index game s :
  badgesOfType "streak" (gameBadges D index game s)
  = snd (streakRule (JS.orStr (DateSort game) "") (streak s)).
Proof.
  rewrite (badgesOfType_rule _ RStreak) by apply streak_type_rule.
  rewrite gameBadges_streak. apply badgesOfType_all.
  rewrite streakRule_badges. cbv zeta.
  destruct (2 <=? _)%nat; repeat constructor.
Qed.

Lemma roundDiv_days k : JS.roundDiv (k * JS.msPerDay) JS.msPerDay = k.
Proof.
  unfold JS.roundDiv.
  replace (2 * (k * JS.msPerDay) + JS.msPerDay)
    with (k * (2 * JS.msPerDay) + JS.msPerDay) by ring.
  rewrite Z.div_add_l by (vm_compute; discriminate).
  rewrite Z.div_small by (vm_compute; split; [discriminate|reflexivity]).
  ring.
Qed.

Lemma diffDays_days last this a b :
  JS.parseISODate (isoOf last) = Some a ->
  JS.parseISODate (isoOf this) = Some b ->
  diffDays last this = Some (b - a).
Proof.
  intros Ha Hb. unfold diffDays, JS.newDate. rewrite Ha, Hb. simpl.
  replace (b * JS.msPerDay - a * JS.msPerDay) with ((b - a) * JS.msPerDay)
    by ring.
  now rewrite roundDiv_days.
Qed.

Lemma date_truthy dateSort d :
  JS.parseISODate (isoOf dateSort) = Some d -> JS.truthy dateSort = true.
Proof. destruct dateSort; [discriminate | reflexivity]. Qed.

Lemma orStr_truthy s : JS.truthy s = true -> JS.orStr (Some s) "" = s.
Proof. intros H. unfold JS.orStr. now rewrite H. Qed.

Lemma orStr_Some s : JS.orStr (Some s) "" = s.
Proof. now destruct s. Qed.

Lemma streak_gameState D index game s :
  streak (gameState D index game s)
  = fst (streakRule (JS.orStr (DateSort game) "") (streak s)).
Proof. reflexivity. Qed.

Lemma gameBadges_streak_length D index game s :
  badgesOfType "streak" (gameBadges D index game s)
  = let n := currentStreak (streak (gameState D index game s)) in
    if (2 <=? n)%nat then [StreakB n] else [].
Proof. rewrite gameBadges_streak_type. apply streakRule_badges. Qed.

(** The first dated game opens a streak of length 1. *)
Lemma streakRule_first dateSort d s :
  lastGameDate s = None ->
  JS.parseISODate (isoOf dateSort) = Some d ->
  fst (streakRule dateSort s) = setLastGameDate dateSort (setCurrentStreak 1 s).
Proof.
  intros Hl Hd. unfold streakRule. rewrite Hl. simpl.
  now rewrite (date_truthy _ _ Hd).
Qed.

(** A dated game after a dated game: the three branches on the gap. *)
Lemma streakRule_next last dateSort a b s :
  lastGameDate s = Some last ->
  JS.parseISODate (isoOf last) = Some a ->
  JS.parseISODate (isoOf dateSort) = Some b ->
  fst (streakRule dateSort s)
  = setLastGameDate dateSort
      (if b - a =? 0 then s
       else if b - a =? 1 then setCurrentStreak (S (currentStreak s)) s
       else closeStreak s).
Proof.
  intros Hl Ha Hb. unfold streakRule. rewrite Hl.
  rewrite (orStr_truthy _ (date_truthy _ _ Ha)).
  rewrite (date_truthy _ _ Ha), (date_truthy _ _ Hb). simpl.
  rewrite (diffDays_days _ _ _ _ Ha Hb).
  destruct (b - a) as [|p|p]; simpl; try reflexivity.
  destruct p; reflexivity.
Qed.

(** C3: four games on days D, D+1, D+1 and D+3, processed from the start
    of a stream, get the streak badges: none, length 2, length 2 again,
    none.  And on every game the streak badges are exactly one badge of
    the current streak length when that length is at least 2 after the
    date comparison, none otherwise. *)
Theorem streak_arithmetic (D : Data) (g1 g2 g3 g4 : Game) (d : Z) :
  dayOf g1 = Some d ->
  dayOf g2 = Some (d + 1) ->
  dayOf g3 = Some (d + 1) ->
  dayOf g4 = Some (d + 3) ->
  map (badgesOfType "streak")
      (badgeLists (snd (processGames D 0 [g1; g2; g3; g4] initSt)))
  = [[]; [StreakB 2]; [StreakB 2]; []]
  /\ forall index game s,
       badgesOfType "streak" (gameBadges D index game s)
       = let n := currentStreak (streak (gameState D index game s)) in
         if (2 <=? n)%nat then [StreakB n] else [].
Proof.
  intros H1 H2 H3 H4. unfold dayOf in *. split.
  - unfold badgeLists. cbn [processGames map snd fst badges].
    rewrite !gameBadges_streak_length. cbv zeta.
    set (s1 := streak (gameState D 0 g1 initSt)).
    set (s2 := streak (gameState D 1 g2 _)).
    set (s3 := streak (gameState D 2 g3 _)).
    set (s4 := streak (gameState D 3 g4 _)).
    assert (E1 : s1 = mkStreakSt 1 (Some (JS.orStr (DateSort g1) "")) 0 []).
    { unfold s1. rewrite streak_gameState.
      now rewrite (streakRule_first _ d). }
    assert (E2 : s2 = mkStreakSt 2 (Some (JS.orStr (DateSort g2) "")) 0 []).
    { unfold s2. rewrite streak_gameState. fold s1.
      rewrite (streakRule_next (JS.orStr (DateSort g1) "") _ d (d + 1))
        by (rewrite ?E1; auto).
      replace (d + 1 - d) with 1 by ring. rewrite E1. reflexivity. }
    assert (E3 : s3 = mkStreakSt 2 (Some (JS.orStr (DateSort g3) "")) 0 []).
    { unfold s3. rewrite streak_gameState. fold s1. fold s2.
      rewrite (streakRule_next (JS.orStr (DateSort g2) "") _ (d + 1) (d + 1))
        by (rewrite ?E2; auto).
      replace (d + 1 - (d + 1)) with 0 by ring. rewrite E2. reflexivity. }
    assert (E4 : s4 = mkStreakSt 1 (Some (JS.orStr (DateSort g4) "")) 2 [2%nat]).
    { unfold s4. rewrite streak_gameState. fold s1. fold s2. fold s3.
      rewrite (streakRule_next (JS.orStr (DateSort g3) "") _ (d + 1) (d + 3))
        by (rewrite ?E3; auto).
      replace (d + 3 - (d + 1)) with 2 by ring. rewrite E3. reflexivity. }
    rewrite E1, E2, E3, E4. reflexivity.
  - intros index game s. apply gameBadges_streak_length.
Qed.

Lemma streak_arithmetic_witness :
  map (badgesOfType "streak")
      (badgeLists (snd (processGames noData 0
         [gameOn "a" "20240228"; gameOn "b" "20240229";
          gameOn "c" "20240229"; gameOn "d" "20240302"] initSt)))
  = [[]; [StreakB 2]; [StreakB 2]; []].
Proof.
  apply (streak_arithmetic noData (gameOn "a" "20240228")
           (gameOn "b" "20240229") (gameOn "c" "20240229")
           (gameOn "d" "20240302") 19781); reflexivity.
Defined.

(** ** Dates that are not dates *)







(** ** The loop, one game at a time *)

Lemma processGames_app D l1 l2 : forall index s,
  processGames D index (l1 ++ l2) s
  = (fst (processGames D (index + length l1) l2
            (fst (processGames D index l1 s))),
     snd (processGames D index l1 s)
     ++ snd (processGames D (index + length l1) l2
               (fst (processGames D index l1 s)))).
Proof.
  induction l1 as [|g l1 IH]; intros index s; simpl.
  - rewrite Nat.add_0_r. now destruct (processGames D index l2 s).
  - rewrite IH. simpl. now rewrite Nat.add_succ_r.
Qed.

Lemma stateAfter_nil D : stateAfter D [] = initSt.
Proof. reflexivity. Qed.

Lemma stateAfter_snoc D pre game :
  stateAfter D (pre ++ [game]) = gameState D (length pre) game (stateAfter D pre).
Proof. unfold stateAfter. rewrite processGames_app. reflexivity. Qed.

(** A property of the initial state that every game preserves holds
    after any games. *)
Lemma stateAfter_ind D (P : list Game -> St -> Prop) :
  P [] initSt ->
  (forall pre game s, P pre s -> P (pre ++ [game])
                                   (gameState D (length pre) game s)) ->
  forall pre, P pre (stateAfter D pre).
Proof.
  intros H0 Hstep pre. induction pre as [|game pre IH] using rev_ind.
  - exact H0.
  - rewrite stateAfter_snoc. now apply Hstep.
Qed.

(** ** Sets in insertion order *)

Lemma has_app s1 s2 x : JS.has (s1 ++ s2) x = JS.has s1 x || JS.has s2 x.
Proof. unfold JS.has. apply existsb_app. Qed.

Lemma has_add s x y : JS.has (JS.add s x) y = JS.has s y || String.eqb y x.
Proof.
  unfold JS.add. destruct (JS.has s x) eqn:E.
  - destruct (String.eqb_spec y x) as [->|_];
      [now rewrite E | now rewrite orb_false_r].
  - rewrite has_app. unfold JS.has at 2. simpl. now rewrite orb_false_r.
Qed.

Lemma has_fold_add l : forall acc y,
  JS.has (fold_left JS.add l acc) y = JS.has acc y || existsb (String.eqb y) l.
Proof.
  induction l as [|x l IH]; intros acc y; simpl.
  - now rewrite orb_false_r.
  - rewrite IH, has_add, <- orb_assoc. reflexivity.
Qed.

Lemma add_new s x : JS.has s x = false -> JS.add s x = s ++ [x].
Proof. intros H. unfold JS.add. now rewrite H. Qed.

Lemma add_old s x : JS.has s x = true -> JS.add s x = s.
Proof. intros H. unfold JS.add. now rewrite H. Qed.

Lemma falsyCount_countOr0 o : JS.falsyCount o = (JS.countOr0 o =? 0)%nat.
Proof. destruct o as [[|n]|]; reflexivity. Qed.

(** ** Venue milestones *)

Lemma visitsBefore_snoc pre game v :
  visitsBefore (pre ++ [game]) v
  = (visitsBefore pre v + (if String.eqb v (venueOf game) then 1 else 0))%nat.
Proof.
  unfold visitsBefore. rewrite map_app, List.filter_app, length_app. simpl.
  now destruct (String.eqb v (venueOf game)).
Qed.

Lemma distinctVenues_snoc pre game :
  distinctVenues (pre ++ [game])
  = if JS.truthy (venueOf game) then JS.add (distinctVenues pre) (venueOf game)
    else distinctVenues pre.
Proof.
  unfold distinctVenues. rewrite map_app, List.filter_app, fold_left_app. simpl.
  now destruct (JS.truthy (venueOf game)).
Qed.

Lemma has_distinctVenues pre v :
  JS.has (distinctVenues pre) v
  = JS.truthy v && negb (visitsBefore pre v =? 0)%nat.
Proof.
  induction pre as [|game pre IH] using rev_ind.
  - now rewrite andb_false_r.
  - rewrite distinctVenues_snoc, visitsBefore_snoc.
    destruct (JS.truthy (venueOf game)) eqn:Et.
    + rewrite has_add, IH.
      destruct (String.eqb_spec v (venueOf game)) as [->|_].
      * rewrite Et, Nat.add_1_r. simpl. apply orb_true_r.
      * now rewrite Nat.add_0_r, orb_false_r.
    + rewrite IH.
      destruct (String.eqb_spec v (venueOf game)) as [->|_].
      * now rewrite Et.
      * now rewrite Nat.add_0_r.
Qed.

(** What the venue rule does at a non-empty venue, in any state. *)
Lemma venueRule_truthy division venue s :
  JS.truthy venue = true ->
  let isNew := JS.falsyCount (venueCounts s !! venue) in
  let c := S (JS.countOr0 (venueCounts s !! venue)) in
  venueCounts (fst (venueRule division venue s)) !! venue = Some c
  /\ (forall v, v <> venue ->
        venueCounts (fst (venueRule division venue s)) !! v
        = venueCounts s !! v)
  /\ venueOrder (fst (venueRule division venue s))
     = (if isNew then venueOrder s ++ [venue] else venueOrder s)
  /\ snd (venueRule division venue s)
     = (if isNew && JS.includes MILESTONE_COUNTS (S (length (venueOrder s)))
        then [VenueCountB (S (length (venueOrder s))) venue] else [])
       ++ (if (1 <? c)%nat && JS.includes MILESTONE_COUNTS c
           then [VenueVisitB venue c] else []).
Proof.
  intros Ht. cbv zeta. unfold venueRule. rewrite Ht.
  destruct (JS.falsyCount (venueCounts s !! venue)) eqn:Ef; cbn [fst snd
    venueCounts venueOrder].
  - rewrite falsyCount_countOr0 in Ef. apply Nat.eqb_eq in Ef.
    rewrite !lookup_insert_eq, Ef. cbn [JS.countOr0].
    rewrite length_app, Nat.add_1_r. cbn [length andb].
    repeat split.
    intros v Hv. now rewrite !lookup_insert_ne by congruence.
  - rewrite lookup_insert_eq. repeat split.
    intros v Hv. now rewrite lookup_insert_ne by congruence.
Qed.

Lemma venueRule_empty division venue s :
  JS.truthy venue = false -> venueRule division venue s = (s, []).
Proof. intros Ht. unfold venueRule. now rewrite Ht. Qed.

Lemma truthy_false s : JS.truthy s = false -> s = "".
Proof. destruct s; [reflexivity | discriminate]. Qed.

Lemma venues_gameState D index game s :
  venues (gameState D index game s)
  = fst (venueRule (divisionOf game) (venueOf game) (venues s)).
Proof. reflexivity. Qed.

Lemma venueHistory_stateAfter D pre : venueHistory pre (stateAfter D pre).
Proof.
  apply stateAfter_ind with (P := venueHistory); clear pre.
  - split; [|reflexivity]. intros v. cbn. rewrite lookup_empty.
    now destruct (JS.truthy v).
  - intros pre game s [Hc Ho].
    unfold venueHistory. rewrite venues_gameState.
    destruct (JS.truthy (venueOf game)) eqn:Et.
    + destruct (venueRule_truthy (divisionOf game) _ (venues s) Et)
        as (Hv & Hother & Hord & _).
      split.
      * intros v. rewrite visitsBefore_snoc.
        destruct (String.eqb_spec v (venueOf game)) as [->|Hne].
        -- rewrite Hv, Et. cbn [JS.countOr0]. rewrite Hc, Et. lia.
        -- rewrite Hother by exact Hne. rewrite Hc, Nat.add_0_r. reflexivity.
      * rewrite Hord, distinctVenues_snoc, Et, Ho.
        rewrite falsyCount_countOr0, Hc, Et.
        pose proof (has_distinctVenues pre (venueOf game)) as Hh.
        rewrite Et in Hh. cbn [andb] in Hh.
        destruct (visitsBefore pre (venueOf game) =? 0)%nat; cbn in Hh.
        -- now rewrite add_new.
        -- now rewrite add_old.
    + rewrite venueRule_empty by exact Et. cbn [fst]. split.
      * intros v. rewrite visitsBefore_snoc.
        destruct (String.eqb_spec v (venueOf game)) as [->|Hne].
        -- rewrite Hc, Et. reflexivity.
        -- rewrite Hc, Nat.add_0_r. reflexivity.
      * now rewrite distinctVenues_snoc, Et.
Qed.

Lemma venue_count_type_rule b : badgeType b = "venue-count" -> ruleOf b = RVenue.
Proof. destruct b; simpl; intros H; try discriminate H; reflexivity. Qed.

Lemma venue_visit_type_rule b : badgeType b = "venue-visit" -> ruleOf b = RVenue.
Proof. destruct b; simpl; intros H; try discriminate H; reflexivity. Qed.

Lemma gameBadges_venue_spec D pre game :
  badgesOfRule RVenue (gameBadges D (length pre) game (stateAfter D pre))
  = venueBadgesSpec pre game.
Proof.
  destruct (venueHistory_stateAfter D pre) as [Hc Ho].
  rewrite gameBadges_venue. fold (venueOf game). unfold venueBadgesSpec.
  destruct (JS.truthy (venueOf game)) eqn:Et.
  - destruct (venueRule_truthy (divisionOf game) _
                (venues (stateAfter D pre)) Et) as (_ & _ & _ & Hb).
    rewrite Hb, falsyCount_countOr0, Hc, Et, Ho. reflexivity.
  - now rewrite venueRule_empty.
Qed.

(** C4: in any stream, for a game at a non-empty venue, the venue is
    appended to the venue order exactly when no earlier game was played
    there, and then a venue-count badge is pushed exactly when its ordinal
    is in [MILESTONE_COUNTS]; the visit counter of the venue, which counts
    the earlier games there, goes up by one and a venue-visit badge is
    pushed exactly when the new value exceeds 1 and is in
    [MILESTONE_COUNTS].  No game gets both badges, and a game with an
    empty venue gets neither and leaves the venue state unchanged. *)
Theorem venue_milestones (D : Data) (pre : list Game) (game : Game) :
  let s := stateAfter D pre in
  let s' := gameState D (length pre) game s in
  let bs := gameBadges D (length pre) game s in
  let venue := venueOf game in
  let firstVisit := (visitsBefore pre venue =? 0)%nat in
  let ordinal := S (length (venueOrder (venues s))) in
  let visits := S (JS.countOr0 (venueCounts (venues s) !! venue)) in
  badgesOfRule RVenue bs = venueBadgesSpec pre game
  /\ venueOrder (venues s')
     = (if JS.truthy venue && firstVisit then venueOrder (venues s) ++ [venue]
        else venueOrder (venues s))
  /\ badgesOfType "venue-count" bs
     = (if JS.truthy venue && firstVisit
           && JS.includes MILESTONE_COUNTS ordinal
        then [VenueCountB ordinal venue] else [])
  /\ (if JS.truthy venue
      then JS.falsyCount (venueCounts (venues s) !! venue) = firstVisit
           /\ venueCounts (venues s') !! venue = Some visits
           /\ visits = S (visitsBefore pre venue)
      else venues s' = venues s /\ confVenuesSeen s' = confVenuesSeen s)
  /\ badgesOfType "venue-visit" bs
     = (if JS.truthy venue && (1 <? visits)%nat
           && JS.includes MILESTONE_COUNTS visits
        then [VenueVisitB venue visits] else [])
  /\ (badgesOfType "venue-count" bs = [] \/ badgesOfType "venue-visit" bs = []).
Proof.
  cbv zeta.
  destruct (venueHistory_stateAfter D pre) as [Hc Ho].
  pose proof (gameBadges_venue_spec D pre game) as Hspec.
  rewrite (badgesOfType_rule "venue-count" RVenue)
    by apply venue_count_type_rule.
  rewrite (badgesOfType_rule "venue-visit" RVenue)
    by apply venue_visit_type_rule.
  rewrite Hspec, venues_gameState. unfold venueBadgesSpec.
  rewrite Hc, <- Ho.
  destruct (JS.truthy (venueOf game)) eqn:Et.
  - destruct (venueRule_truthy (divisionOf game) _
                (venues (stateAfter D pre)) Et) as (Hv & _ & Hord & _).
    rewrite Hv, Hord, falsyCount_countOr0, Hc, Et. cbn [andb].
    split; [reflexivity|]. split; [reflexivity|].
    split; [|split; [auto|split]].
    + unfold badgesOfType.
      repeat match goal with
             | |- context [if ?c then _ else _] => destruct c
             end; reflexivity.
    + unfold badgesOfType.
      repeat match goal with
             | |- context [if ?c then _ else _] => destruct c
             end; reflexivity.
    + destruct (visitsBefore pre (venueOf game)) as [|n].
      * right. cbn [Nat.ltb Nat.leb andb]. rewrite app_nil_r.
        now destruct (_ && _).
      * left. cbn [Nat.eqb andb app]. now destruct (_ && _).
  - rewrite venueRule_empty by exact Et. cbn [andb fst].
    repeat split; try reflexivity; try (now left).
    unfold gameState; cbn [confVenuesSeen]. fold (venueOf game).
    unfold confVenueRule. now rewrite Et.
Qed.

(** ** Badges pushed at most once *)

Lemma countIf_app p l1 l2 :
  countIf p (l1 ++ l2) = (countIf p l1 + countIf p l2)%nat.
Proof. unfold countIf. now rewrite List.filter_app, length_app. Qed.

Lemma countIf_rule p r (l : list Badge) :
  (forall b, p b = true -> ruleOf b = r) ->
  countIf p l = countIf p (badgesOfRule r l).
Proof.
  intros Hp. unfold countIf, badgesOfRule.
  induction l as [|b l IH]; [reflexivity|]. simpl.
  destruct (p b) eqn:Eb.
  - rewrite (Hp b Eb), bool_decide_eq_true_2 by reflexivity.
    simpl. rewrite Eb. simpl. now rewrite IH.
  - destruct (bool_decide (ruleOf b = r)); simpl; [rewrite Eb|]; exact IH.
Qed.

Section Once.
Context {S : Type} (Inv : S -> Prop) (seen : S -> bool) (p : Badge -> bool).

Lemma onceStep_forEach {A : Type} (f : A -> S -> S * list Badge) (l : list A) :
  (forall x, onceStep Inv seen p (f x)) -> onceStep Inv seen p (forEach f l).
Proof.
  intros Hf. induction l as [|x l IH]; intros s Hs.
  - simpl. repeat split; auto. discriminate.
  - cbn [forEach fst snd].
    destruct (Hf x s Hs) as (Hi & Hseen & Hnew).
    destruct (IH _ Hi) as (Hi' & Hseen' & Hnew').
    split; [exact Hi'|]. rewrite countIf_app. split.
    + intros E. destruct (Hseen E) as [E1 C1].
      destruct (Hseen' E1) as [E2 C2]. split; [exact E2 | lia].
    + intros E. destruct (Hnew E) as [C1 S1].
      destruct (seen (fst (f x s))) eqn:E1.
      * destruct (Hseen' eq_refl) as [E2 C2]. split; [lia | auto].
      * destruct (Hnew' eq_refl) as [C2 S2].
        assert (countIf p (snd (f x s)) = O)
          by (destruct (countIf p (snd (f x s))) as [|[|n]];
              [reflexivity | discriminate (S1 eq_refl) | lia]).
        split; [lia|]. intros Hc. apply S2. lia.
Qed.
End Once.

(** Over any games, a badge that each game pushes once at most, and only
    while unmarked, is pushed once at most. *)
Lemma processGames_once D (Inv : St -> Prop) (seen : St -> bool) p :
  (forall index game,
     onceStep Inv seen p
       (fun s => (gameState D index game s, gameBadges D index game s))) ->
  forall gs index s, Inv s ->
    (countIf p (allBadges (snd (processGames D index gs s)))
     <= if seen s then 0 else 1)%nat.
Proof.
  intros Hstep gs. induction gs as [|game gs IH]; intros index s Hs.
  - cbn. destruct (seen s); lia.
  - cbn [processGames snd]. unfold allBadges, badgeLists.
    cbn [map concat snd badges]. rewrite countIf_app.
    destruct (Hstep index game s Hs) as (Hi & Hseen & Hnew).
    cbn [fst snd] in Hi, Hseen, Hnew.
    specialize (IH (S index) _ Hi). unfold allBadges, badgeLists in IH.
    destruct (seen s) eqn:E.
    + destruct (Hseen eq_refl) as [E1 C1]. rewrite E1 in IH. lia.
    + destruct (Hnew eq_refl) as [C1 S1].
      destruct (seen (gameState D index game s)) eqn:E1; [lia|].
      assert (countIf p (gameBadges D index game s) = O)
        by (destruct (countIf p (gameBadges D index game s)) as [|[|n]];
            [reflexivity | discriminate (S1 eq_refl) | lia]).
      lia.
Qed.

(** *** New state *)

Lemma stateRule_once st state :
  onceStep (fun _ => True) (fun s => JS.has (statesSeen s) st)
           (isNewState st) (stateRule state).
Proof.
  intros s _. split; [exact I|]. unfold stateRule.
  destruct (JS.truthy state && negb (JS.has (statesSeen s) state)) eqn:Ec;
    cbn [fst snd statesSeen].
  - apply andb_true_iff in Ec as [_ Ec]. apply negb_true_iff in Ec.
    rewrite has_add. unfold countIf. cbn [List.filter isNewState].
    destruct (String.eqb_spec state st) as [->|Hne].
    + split; [congruence|]. intros _. split; [cbn; lia|].
      intros _. rewrite String.eqb_refl. apply orb_true_r.
    + split; intros E; rewrite E; cbn; split; auto; try lia.
  - split; intros E; cbn; split; auto; discriminate.
Qed.

(** *** New team *)

Lemma teamStep_counts D1Teams game team s k :
  JS.truthy team = true ->
  teamCounts (fst (teamStep D1Teams game team s)) !! k
  = if bool_decide (k = team +:+ "|" +:+ genderStr (genderOf game))
    then Some (S (JS.countOr0
                    (teamCounts s !! (team +:+ "|" +:+ genderStr (genderOf game)))))
    else teamCounts s !! k.
Proof.
  intros Ht. unfold teamStep. rewrite Ht. cbn [negb].
  set (key := team +:+ "|" +:+ genderStr (genderOf game)).
  destruct (JS.falsyCount (teamCounts s !! key)) eqn:Ef.
  - cbn [teamCounts teamRecords]. destruct (default (O, O) _).
    cbn [fst teamCounts]. rewrite falsyCount_countOr0 in Ef.
    apply Nat.eqb_eq in Ef. rewrite Ef.
    destruct (bool_decide_reflect (k = key)) as [->|Hne].
    + now rewrite !lookup_insert_eq.
    + now rewrite !lookup_insert_ne by congruence.
  - destruct (default (O, O) _). cbn [fst teamCounts].
    destruct (bool_decide_reflect (k = key)) as [->|Hne].
    + now rewrite !lookup_insert_eq.
    + now rewrite !lookup_insert_ne by congruence.
Qed.

Lemma teamStep_newTeam D1Teams game team s t g :
  countIf (fun b => bool_decide (b = NewTeamB t g))
          (snd (teamStep D1Teams game team s))
  = if JS.truthy team
       && JS.falsyCount (teamCounts s
                         !! (team +:+ "|" +:+ genderStr (genderOf game)))
       && bool_decide (NewTeamB team (genderOf game) = NewTeamB t g)
    then 1%nat else O.
Proof.
  unfold teamStep. destruct (JS.truthy team); [|reflexivity]. cbn [negb andb].
  destruct (JS.falsyCount _); cbn [andb].
  - cbn [teamCounts teamRecords]. destruct (default (O, O) _). cbn [snd].
    unfold countIf. rewrite !List.filter_app. cbn [List.filter].
    destruct (bool_decide (NewTeamB team (genderOf game) = NewTeamB t g));
      destruct (_ && JS.includes D1_TEAM_MILESTONES _);
      destruct (_ && JS.includes MILESTONE_COUNTS _); reflexivity.
  - destruct (default (O, O) _). cbn [snd app]. unfold countIf.
    destruct (_ && JS.includes MILESTONE_COUNTS _); reflexivity.
Qed.

Lemma teamStep_falsy D1Teams game team s :
  JS.truthy team = false -> teamStep D1Teams game team s = (s, []).
Proof. intros Ht. unfold teamStep. now rewrite Ht. Qed.

Lemma teamStep_once D1Teams game t g team :
  onceStep (fun _ => True)
           (fun s => negb (JS.falsyCount
                             (teamCounts s !! (t +:+ "|" +:+ genderStr g))))
           (fun b => bool_decide (b = NewTeamB t g))
           (teamStep D1Teams game team).
Proof.
  intros s _. split; [exact I|].
  destruct (JS.truthy team) eqn:Ht.
  - rewrite teamStep_newTeam, Ht, teamStep_counts by exact Ht. cbn [andb].
    destruct (bool_decide_reflect
                (NewTeamB team (genderOf game) = NewTeamB t g)) as [E|Hne].
    + injection E as -> ->.
      rewrite bool_decide_eq_true_2 by reflexivity. cbn [JS.falsyCount negb].
      rewrite andb_true_r. split.
      * intros Hs. apply negb_true_iff in Hs. now rewrite Hs.
      * intros _. split; [destruct (JS.falsyCount _); lia | reflexivity].
    + rewrite andb_false_r.
      destruct (bool_decide _); cbn [JS.falsyCount negb]; split; intros Hs;
        split; auto; try lia; discriminate.
  - rewrite teamStep_falsy by exact Ht. cbn.
    split; intros Hs; split; auto; discriminate.
Qed.

(** *** New matchup *)

Lemma sortPair_comm a b : JS.sortPair a b = JS.sortPair b a.
Proof.
  unfold JS.sortPair, String.ltb.
  rewrite (String.compare_antisym b a).
  destruct (String.compare a b) eqn:E; cbn; try reflexivity.
  apply String.compare_eq_iff in E. now subst.
Qed.

Lemma isNewMatchup_key t1 t2 g awayTeam homeTeam g' :
  isNewMatchup t1 t2 g (NewMatchupB awayTeam homeTeam g') = true ->
  matchupKey awayTeam homeTeam g' = matchupKey t1 t2 g.
Proof.
  cbn. intros H. apply andb_true_iff in H as [Hg H].
  apply bool_decide_eq_true_1 in Hg. subst g'.
  apply orb_true_iff in H as [H|H]; apply andb_true_iff in H as [Ha Hb];
    apply String.eqb_eq in Ha, Hb; subst; unfold matchupKey.
  - reflexivity.
  - now rewrite sortPair_comm.
Qed.

Lemma matchupRule_once t1 t2 g g' awayTeam homeTeam :
  onceStep (fun _ => True)
           (fun m : gmap string bool =>
              negb (JS.falsyFlag (m !! matchupKey t1 t2 g)))
           (isNewMatchup t1 t2 g)
           (matchupRule g' awayTeam homeTeam).
Proof.
  intros m _. split; [exact I|]. unfold matchupRule.
  destruct (JS.truthy awayTeam && JS.truthy homeTeam);
    [|cbn; split; intros Hs; split; auto; discriminate].
  pose proof (isNewMatchup_key t1 t2 g awayTeam homeTeam g') as Hkey.
  unfold matchupKey at 1 in Hkey.
  destruct (JS.sortPair awayTeam homeTeam) as [a b].
  set (key' := (a +:+ "|" +:+ b) +:+ "|" +:+ genderStr g') in *.
  destruct (JS.falsyFlag (m !! key')) eqn:Ef; cbn [fst snd];
    [|cbn; split; intros Hs; split; auto; discriminate].
  unfold countIf. cbn [List.filter].
  destruct (isNewMatchup t1 t2 g (NewMatchupB awayTeam homeTeam g')) eqn:Ep.
  - rewrite <- (Hkey eq_refl), Ef, lookup_insert_eq. cbn.
    split; [intros H; discriminate H|]. intros _. split; [lia | reflexivity].
  - cbn [length]. split; intros Hs.
    + split; [|reflexivity].
      destruct (decide (matchupKey t1 t2 g = key')) as [E|Hne].
      * rewrite E, lookup_insert_eq. reflexivity.
      * now rewrite lookup_insert_ne by congruence.
    + split; [lia | discriminate].
Qed.

(** *** Conference keys *)

Lemma string_length_app s t :
  String.length (s +:+ t) = (String.length s + String.length t)%nat.
Proof.
  induction s as [|c s IH]; [reflexivity|].
  change (String c s +:+ t) with (String c (s +:+ t)).
  cbn [String.length]. now rewrite IH.
Qed.

Lemma append_inj_suffix s1 : forall s2 t1 t2,
  String.length t1 = String.length t2 ->
  s1 +:+ t1 = s2 +:+ t2 -> s1 = s2 /\ t1 = t2.
Proof.
  induction s1 as [|c s1 IH]; intros [|c2 s2] t1 t2 Hlen H.
  - auto.
  - change (t1 = String c2 (s2 +:+ t2)) in H. subst t1.
    cbn [String.length] in Hlen. rewrite string_length_app in Hlen. lia.
  - change (String c (s1 +:+ t1) = t2) in H. subst t2.
    cbn [String.length] in Hlen. rewrite string_length_app in Hlen. lia.
  - change (String c (s1 +:+ t1) = String c2 (s2 +:+ t2)) in H.
    injection H as -> H. destruct (IH _ _ _ Hlen H) as [-> ->]. auto.
Qed.

(** [`${conf}|${gender}`] determines the conference and the gender. *)
Lemma confGenderKey_inj conf1 g1 conf2 g2 :
  conf1 +:+ "|" +:+ genderStr g1 = conf2 +:+ "|" +:+ genderStr g2 ->
  conf1 = conf2 /\ g1 = g2.
Proof.
  intros H. apply append_inj_suffix in H as [-> H].
  - split; [reflexivity|]. destruct g1, g2; vm_compute in H; congruence.
  - now destruct g1, g2.
Qed.

(** *** New conference and conference completion *)

Lemma confStep_skip totals g conf team s :
  negb (JS.truthy conf) || String.eqb conf "Historical/Other" = true ->
  confStep totals g conf team s = (s, []).
Proof. intros H. unfold confStep. now rewrite H. Qed.

(** The counter of the conference of an active step is positive after
    it, and the other counters are unchanged. *)
Lemma confStep_counts totals g conf team s :
  negb (JS.truthy conf) || String.eqb conf "Historical/Other" = false ->
  confCounted s ->
  JS.falsyCount (confTeamCounts (fst (confStep totals g conf team s)) !! conf)
  = false
  /\ forall k, k <> conf ->
       confTeamCounts (fst (confStep totals g conf team s)) !! k
       = confTeamCounts s !! k.
Proof.
  intros Hact Hinv. unfold confStep. rewrite Hact. cbn [fst confTeamCounts].
  destruct (JS.falsyCount (confTeamCounts s !! conf)) eqn:Ef.
  - rewrite (Hinv conf g Ef). cbn [negb]. unfold JS.has at 1 2. cbn [existsb negb].
    rewrite lookup_insert_eq. split.
    + now rewrite lookup_insert_eq.
    + intros k Hk. now rewrite !lookup_insert_ne by congruence.
  - destruct (negb (JS.has _ team)).
    + split; [now rewrite lookup_insert_eq|].
      intros k Hk. now rewrite lookup_insert_ne by congruence.
    + split; [exact Ef | reflexivity].
Qed.

Lemma confStep_teamsSeen totals g conf team s k :
  negb (JS.truthy conf) || String.eqb conf "Historical/Other" = false ->
  k <> conf +:+ "|" +:+ genderStr g ->
  confTeamsSeen (fst (confStep totals g conf team s)) !! k
  = confTeamsSeen s !! k.
Proof.
  intros Hact Hk. unfold confStep. rewrite Hact. cbn [fst confTeamsSeen].
  now rewrite lookup_insert_ne by congruence.
Qed.

Lemma confStep_badges totals g conf team s :
  negb (JS.truthy conf) || String.eqb conf "Historical/Other" = false ->
  let key := conf +:+ "|" +:+ genderStr g in
  let seen := JS.add (default [] (confTeamsSeen s !! key)) team in
  let total := JS.countOr0 (totals !! conf) in
  let complete := (0 <? total)%nat && (total <=? length seen)%nat
                  && JS.falsyFlag (confCompleted s !! key) in
  snd (confStep totals g conf team s)
  = (if JS.falsyCount (confTeamCounts s !! conf) then [NewConfB conf] else [])
    ++ (if complete then [ConfCompleteB conf g total] else [])
  /\ confCompleted (fst (confStep totals g conf team s))
     = (if complete then <[key := true]> (confCompleted s)
        else confCompleted s)
  /\ confTeamsSeen (fst (confStep totals g conf team s)) !! key = Some seen.
Proof.
  intros Hact. cbv zeta. unfold confStep. rewrite Hact.
  cbn [fst snd confCompleted confTeamsSeen]. rewrite lookup_insert_eq. auto.
Qed.

Lemma confCounted_step totals g conf team s :
  confCounted s -> confCounted (fst (confStep totals g conf team s)).
Proof.
  intros Hinv.
  destruct (negb (JS.truthy conf) || String.eqb conf "Historical/Other")
    eqn:Hact; [now rewrite confStep_skip|].
  destruct (confStep_counts totals g conf team s Hact Hinv) as [Hpos Hother].
  intros conf0 g0 Hf.
  destruct (decide (conf0 = conf)) as [->|Hne]; [congruence|].
  rewrite Hother in Hf by exact Hne.
  rewrite confStep_teamsSeen; [now apply Hinv | exact Hact|].
  intros E. now apply confGenderKey_inj in E as [E _].
Qed.

Lemma confStep_newConf_once totals g conf team c :
  onceStep confCounted
           (fun s => negb (JS.falsyCount (confTeamCounts s !! c)))
           (fun b => bool_decide (b = NewConfB c))
           (confStep totals g conf team).
Proof.
  intros s Hinv. split; [now apply confCounted_step|].
  destruct (negb (JS.truthy conf) || String.eqb conf "Historical/Other")
    eqn:Hact.
  { rewrite confStep_skip by exact Hact. cbn.
    split; intros Hs; split; auto; discriminate. }
  destruct (confStep_counts totals g conf team s Hact Hinv) as [Hpos Hother].
  destruct (confStep_badges totals g conf team s Hact) as (Hb & _ & _).
  rewrite Hb. clear Hb. unfold countIf. rewrite List.filter_app, length_app.
  assert (Hcc : forall (x : bool) t,
            length (List.filter (fun b => bool_decide (b = NewConfB c))
                      (if x then [ConfCompleteB conf g t] else [])) = O)
    by (intros [|] t; reflexivity).
  rewrite Hcc, Nat.add_0_r. clear Hcc.
  destruct (decide (conf = c)) as [->|Hne].
  - rewrite Hpos. cbn [negb]. split.
    + intros Hs. apply negb_true_iff in Hs. now rewrite Hs.
    + intros _. split; [|reflexivity].
      destruct (JS.falsyCount (confTeamCounts s !! c)); cbn;
        [destruct (bool_decide _); cbn|]; lia.
  - rewrite Hother by congruence.
    assert (Hz : length (List.filter (fun b => bool_decide (b = NewConfB c))
                   (if JS.falsyCount (confTeamCounts s !! conf)
                    then [NewConfB conf] else [])) = O).
    { destruct (JS.falsyCount (confTeamCounts s !! conf)); [|reflexivity].
      cbn. rewrite bool_decide_eq_false_2 by congruence. reflexivity. }
    rewrite Hz. split; intros Hs; split; auto; discriminate.
Qed.

Lemma confStep_complete_once totals g conf team c gc :
  onceStep (fun _ => True)
           (fun s => negb (JS.falsyFlag
                             (confCompleted s !! (c +:+ "|" +:+ genderStr gc))))
           (isConfComplete c gc)
           (confStep totals g conf team).
Proof.
  intros s _. split; [exact I|].
  destruct (negb (JS.truthy conf) || String.eqb conf "Historical/Other")
    eqn:Hact.
  { rewrite confStep_skip by exact Hact. cbn.
    split; intros Hs; split; auto; discriminate. }
  destruct (confStep_badges totals g conf team s Hact) as (Hb & Hc & _).
  rewrite Hb, Hc. clear Hb Hc. unfold countIf.
  rewrite List.filter_app, length_app.
  assert (Hz : forall x : bool,
            length (List.filter (isConfComplete c gc)
                      (if x then [NewConfB conf] else [])) = O)
    by (intros [|]; reflexivity).
  rewrite Hz. clear Hz. cbn [Nat.add].
  destruct (_ && JS.falsyFlag
                   (confCompleted s !! (conf +:+ "|" +:+ genderStr g)))
    eqn:Ecomplete.
  - apply andb_true_iff in Ecomplete as [_ Ef].
    cbn [List.filter isConfComplete].
    destruct (String.eqb_spec conf c) as [->|Hne]; cbn [andb].
    + destruct (bool_decide_reflect (g = gc)) as [->|Hg].
      * rewrite Ef, lookup_insert_eq. cbn.
        split; [intros H; discriminate H|]. intros _; split; [lia|reflexivity].
      * cbn [length]. rewrite lookup_insert_ne.
        -- split; intros Hs; split; auto; discriminate.
        -- intros E. now apply confGenderKey_inj in E as [_ E].
    + cbn [length]. rewrite lookup_insert_ne.
      * split; intros Hs; split; auto; discriminate.
      * intros E. now apply confGenderKey_inj in E as [E _].
  - cbn. split; intros Hs; split; auto; discriminate.
Qed.

(** A conf-complete badge carries the member count of its conference,
    which is positive. *)
Lemma confStep_complete_total totals g conf team s :
  Forall (fun b => match b with
                   | ConfCompleteB c _ total =>
                       total = JS.countOr0 (totals !! c) /\ (0 < total)%nat
                   | _ => True
                   end)
         (snd (confStep totals g conf team s)).
Proof.
  destruct (negb (JS.truthy conf) || String.eqb conf "Historical/Other")
    eqn:Hact; [rewrite confStep_skip by exact Hact; constructor|].
  destruct (confStep_badges totals g conf team s Hact) as (Hb & _ & _).
  rewrite Hb. apply Forall_app. split.
  - destruct (JS.falsyCount _); repeat constructor.
  - destruct ((0 <? JS.countOr0 (totals !! conf))%nat) eqn:Epos; cbn [andb];
      [|constructor].
    destruct (_ && _); repeat constructor. now apply Nat.ltb_lt.
Qed.

(** *** From a rule to the games *)

Lemma gameBadges_state D index game s :
  badgesOfRule RState (gameBadges D index game s)
  = snd (stateRule (JS.orStr (State game) "") (states s)).
Proof. split_by_rule. reflexivity. Qed.

Lemma gameBadges_team D index game s :
  badgesOfRule RTeam (gameBadges D index game s) = snd (teamRule D game (teamSt s)).
Proof. split_by_rule. reflexivity. Qed.

Lemma gameBadges_matchup D index game s :
  badgesOfRule RMatchup (gameBadges D index game s)
  = snd (matchupRule (genderOf game) (JS.orStr (AwayTeam game) "")
           (JS.orStr (HomeTeam game) "") (matchupsSeen s)).
Proof. split_by_rule. reflexivity. Qed.


Lemma gameBadges_transfer D index game s :
  badgesOfRule RTransfer (gameBadges D index game s)
  = snd (transferRule D game (gameIdOf index game) (playerTeams s)).
Proof. split_by_rule. reflexivity. Qed.

(** A rule that pushes its badge once makes the game push it once. *)
Lemma onceStep_game D index game {S : Type} (proj : St -> S)
    (rule : S -> S * list Badge) (r : Rule) Inv seen p :
  (forall s, proj (gameState D index game s) = fst (rule (proj s))) ->
  (forall s, badgesOfRule r (gameBadges D index game s) = snd (rule (proj s))) ->
  (forall b, p b = true -> ruleOf b = r) ->
  onceStep Inv seen p rule ->
  onceStep (fun s => Inv (proj s)) (fun s => seen (proj s)) p
           (fun s => (gameState D index game s, gameBadges D index game s)).
Proof.
  intros Hst Hb Hp Hrule s Hs. cbn [fst snd].
  rewrite (countIf_rule p r) by exact Hp. rewrite Hb, Hst.
  now apply Hrule.
Qed.

Lemma isBadge_rule b0 b : isBadge b0 b = true -> ruleOf b = ruleOf b0.
Proof. intros H. apply bool_decide_eq_true_1 in H. now subst. Qed.

Lemma newState_once D gs index s st :
  (countIf (isNewState st) (allBadges (snd (processGames D index gs s)))
   <= if JS.has (statesSeen (states s)) st then 0 else 1)%nat.
Proof.
  apply (processGames_once D (fun _ => True)
           (fun s => JS.has (statesSeen (states s)) st)); [|exact I].
  intros i game.
  apply (onceStep_game D i game states
           (stateRule (JS.orStr (State game) "")) RState (fun _ => True)
           (fun s => JS.has (statesSeen s) st)).
  - reflexivity.
  - apply gameBadges_state.
  - intros b. destruct b; cbn; intros H; try discriminate H; reflexivity.
  - apply stateRule_once.
Qed.

Lemma newTeam_once D gs index s t g :
  (countIf (isBadge (NewTeamB t g))
           (allBadges (snd (processGames D index gs s)))
   <= if negb (JS.falsyCount (teamCounts (teamSt s)
                              !! (t +:+ "|" +:+ genderStr g)))
      then 0 else 1)%nat.
Proof.
  apply (processGames_once D (fun _ => True)
           (fun s => negb (JS.falsyCount
                             (teamCounts (teamSt s)
                              !! (t +:+ "|" +:+ genderStr g)))));
    [|exact I].
  intros i game.
  apply (onceStep_game D i game teamSt (teamRule D game) RTeam (fun _ => True)
           (fun s => negb (JS.falsyCount
                             (teamCounts s !! (t +:+ "|" +:+ genderStr g))))).
  - reflexivity.
  - apply gameBadges_team.
  - apply isBadge_rule.
  - apply onceStep_forEach. intros team. apply teamStep_once.
Qed.

Lemma confCounted_init : confCounted (confs initSt).
Proof. intros conf g _. cbn. now rewrite lookup_empty. Qed.

Lemma newConf_once D gs index s c :
  confCounted (confs s) ->
  (countIf (isBadge (NewConfB c))
           (allBadges (snd (processGames D index gs s)))
   <= if negb (JS.falsyCount (confTeamCounts (confs s) !! c))
      then 0 else 1)%nat.
Proof.
  apply (processGames_once D (fun s => confCounted (confs s))
           (fun s => negb (JS.falsyCount (confTeamCounts (confs s) !! c)))).
  intros i game.
  apply (onceStep_game D i game confs (confRule D game) RConf confCounted
           (fun s => negb (JS.falsyCount (confTeamCounts s !! c)))).
  - reflexivity.
  - apply gameBadges_conf.
  - apply isBadge_rule.
  - apply onceStep_forEach. intros ct. apply confStep_newConf_once.
Qed.

Lemma confComplete_once D gs index s c g :
  (countIf (isConfComplete c g)
           (allBadges (snd (processGames D index gs s)))
   <= if negb (JS.falsyFlag (confCompleted (confs s)
                             !! (c +:+ "|" +:+ genderStr g)))
      then 0 else 1)%nat.
Proof.
  apply (processGames_once D (fun _ => True)
           (fun s => negb (JS.falsyFlag
                             (confCompleted (confs s)
                              !! (c +:+ "|" +:+ genderStr g)))));
    [|exact I].
  intros i game.
  apply (onceStep_game D i game confs (confRule D game) RConf (fun _ => True)
           (fun s => negb (JS.falsyFlag
                             (confCompleted s
                              !! (c +:+ "|" +:+ genderStr g))))).
  - reflexivity.
  - apply gameBadges_conf.
  - intros b. destruct b; cbn; intros H; try discriminate H; reflexivity.
  - apply onceStep_forEach. intros ct. apply confStep_complete_once.
Qed.

Lemma newMatchup_once D gs index s t1 t2 g :
  (countIf (isNewMatchup t1 t2 g)
           (allBadges (snd (processGames D index gs s)))
   <= if negb (JS.falsyFlag (matchupsSeen s !! matchupKey t1 t2 g))
      then 0 else 1)%nat.
Proof.
  apply (processGames_once D (fun _ => True)
           (fun s => negb (JS.falsyFlag
                             (matchupsSeen s !! matchupKey t1 t2 g))));
    [|exact I].
  intros i game.
  apply (onceStep_game D i game matchupsSeen
           (matchupRule (genderOf game) (JS.orStr (AwayTeam game) "")
              (JS.orStr (HomeTeam game) "")) RMatchup (fun _ => True)
           (fun m : gmap string bool =>
              negb (JS.falsyFlag (m !! matchupKey t1 t2 g)))).
  - reflexivity.
  - apply gameBadges_matchup.
  - intros b. destruct b; cbn; intros H; try discriminate H; reflexivity.
  - apply matchupRule_once.
Qed.

Lemma le_if_1 (b : bool) n : (n <= if b then 0 else 1)%nat -> (n <= 1)%nat.
Proof. destruct b; lia. Qed.

(** C5: over the whole processed stream there is at most one new-state
    badge per state, one new-team badge per team name and gender, one
    new-conf badge per conference name, and one new-matchup badge per
    unordered pair of team names and gender. *)
Theorem new_badges_once (D : Data) :
  let all := allBadges (badgeStream D) in
  (forall state, (countIf (isNewState state) all <= 1)%nat)
  /\ (forall team g, (countIf (isBadge (NewTeamB team g)) all <= 1)%nat)
  /\ (forall conf, (countIf (isBadge (NewConfB conf)) all <= 1)%nat)
  /\ (forall t1 t2 g, (countIf (isNewMatchup t1 t2 g) all <= 1)%nat).
Proof.
  cbv zeta. unfold badgeStream. repeat split; intros.
  - eapply le_if_1, newState_once.
  - eapply le_if_1, newTeam_once.
  - eapply le_if_1, newConf_once, confCounted_init.
  - eapply le_if_1, newMatchup_once.
Qed.

(** ** Conference completion *)

Lemma conf_complete_type_rule b :
  badgeType b = "conf-complete" -> ruleOf b = RConf.
Proof. destruct b; simpl; intros H; try discriminate H; reflexivity. Qed.

Lemma confs_gameState D index game s :
  confs (gameState D index game s) = fst (confRule D game (confs s)).
Proof. reflexivity. Qed.

Lemma confRule_introGame D conf team g s :
  JS.truthy conf = true ->
  confRule D (introGame conf team g) s
  = (fst (confStep (conferenceTeamCounts D) g conf team s),
     snd (confStep (conferenceTeamCounts D) g conf team s) ++ []).
Proof.
  intros Ht. unfold confRule. cbn [forEach getGameConference introGame AwayConf
    HomeConf AwayTeam HomeTeam genderOf Gender fst snd].
  rewrite !orStr_Some, Ht. cbn [JS.orStr JS.truthy].
  replace (getTeamConference D None) with "" by reflexivity.
  now rewrite (confStep_skip _ _ "" "").
Qed.

(** One more team for a conference of three that is not complete yet. *)
Lemma introGame_step D index conf team g s :
  JS.truthy conf = true ->
  String.eqb conf "Historical/Other" = false ->
  conferenceTeamCounts D !! conf = Some 3%nat ->
  confCompleted (confs s) !! (conf +:+ "|" +:+ genderStr g) = None ->
  let s' := gameState D index (introGame conf team g) s in
  let seen := JS.add (teamsSeenOf s conf g) team in
  badgesOfType "conf-complete" (gameBadges D index (introGame conf team g) s)
  = (if (3 <=? length seen)%nat then [ConfCompleteB conf g 3] else [])
  /\ teamsSeenOf s' conf g = seen
  /\ ((3 <=? length seen)%nat = false ->
      confCompleted (confs s') !! (conf +:+ "|" +:+ genderStr g) = None).
Proof.
  intros Ht Hh Htot Hcc. cbv zeta. unfold teamsSeenOf.
  rewrite (badgesOfType_rule _ RConf) by apply conf_complete_type_rule.
  rewrite gameBadges_conf, confs_gameState, confRule_introGame by exact Ht.
  cbn [fst snd]. rewrite app_nil_r.
  assert (Hact : negb (JS.truthy conf) || String.eqb conf "Historical/Other"
                 = false) by now rewrite Ht, Hh.
  destruct (confStep_badges (conferenceTeamCounts D) g conf team (confs s) Hact)
    as (Hb & Hc & Hseen).
  rewrite Hb, Hc, Hseen, Htot, Hcc. clear Hb Hc Hseen.
  cbn [JS.countOr0 JS.falsyFlag default].
  rewrite andb_true_r. change (0 <? 3)%nat with true. cbn [andb].
  split; [|split].
  - destruct (JS.falsyCount (confTeamCounts (confs s) !! conf));
      destruct (3 <=? _)%nat; reflexivity.
  - reflexivity.
  - intros E. now rewrite E.
Qed.

Lemma add_distinct s x :
  JS.has s x = false -> length (JS.add s x) = S (length s).
Proof. intros H. rewrite add_new by exact H. rewrite length_app. cbn. lia. Qed.

(** A property of every badge of every game holds over a stream. *)
Lemma stream_Forall D (P : Badge -> Prop) :
  (forall index game s, Forall P (gameBadges D index game s)) ->
  forall gs index s, Forall P (allBadges (snd (processGames D index gs s))).
Proof.
  intros Hgame. unfold allBadges, badgeLists.
  induction gs as [|game gs IH]; intros index s; [constructor|].
  cbn [processGames snd map concat badges]. apply Forall_app.
  split; [apply Hgame | apply IH].
Qed.

(** A property of the badges of the conference loop that the badges of
    the other rules have anyway holds of all badges of a game. *)
Lemma gameBadges_Forall_conf D (P : Badge -> Prop) :
  (forall b, ruleOf b <> RConf -> P b) ->
  (forall g conf team s,
     Forall P (snd (confStep (conferenceTeamCounts D) g conf team s))) ->
  forall index game s, Forall P (gameBadges D index game s).
Proof.
  intros Hother Hconf index game s. unfold gameBadges.
  repeat match goal with
         | |- Forall _ (snd (confRule _ _ _) ++ _) =>
             apply Forall_app; split;
             [apply forEach_Forall; intros ct s0; apply Hconf|]
         | |- Forall _ (_ ++ _) =>
             apply Forall_app; split;
             [eapply List.Forall_impl; [|first
                [ apply countRule_rule | apply streakRule_rule
                | apply stateRule_rule | apply venueRule_rule
                | apply teamRule_rule | apply matchupRule_rule
                | apply confMatchupRule_rule ]];
              intros b Hb; apply Hother; rewrite Hb; discriminate|]
         end.
  eapply List.Forall_impl; [|apply transferRule_rule].
  intros b Hb; apply Hother; rewrite Hb; discriminate.
Qed.

Lemma completeTotalsPositive_stream D gs index s :
  completeTotalsPositive D (allBadges (snd (processGames D index gs s))).
Proof.
  apply stream_Forall. apply gameBadges_Forall_conf.
  - intros b Hb. destruct b; try exact I. now contradict Hb.
  - intros. apply confStep_complete_total.
Qed.

(** C6: for a conference of three members, games that bring teams A, B,
    A again and C of the conference, for one gender, get the
    conf-complete badge on the last game only; the set of teams seen is
    [A], [A; B], [A; B] (the second A adds nothing) and [A; B; C].  Over
    the whole stream each (conference, gender) pair gets at most one
    conf-complete badge, and every such badge is for a conference whose
    configured member count is positive. *)
Theorem conf_complete_exact (D : Data) (conf A B C : string) (g : gender) :
  JS.truthy conf = true ->
  String.eqb conf "Historical/Other" = false ->
  conferenceTeamCounts D !! conf = Some 3%nat ->
  String.eqb B A = false ->
  String.eqb C A = false ->
  String.eqb C B = false ->
  let stream := [introGame conf A g; introGame conf B g;
                 introGame conf A g; introGame conf C g] in
  map (badgesOfType "conf-complete")
      (badgeLists (snd (processGames D 0 stream initSt)))
  = [[]; []; []; [ConfCompleteB conf g 3]]
  /\ map (fun pre => teamsSeenOf (stateAfter D pre) conf g)
         [firstn 1 stream; firstn 2 stream; firstn 3 stream; stream]
     = [[A]; [A; B]; [A; B]; [A; B; C]]
  /\ (forall conf' g',
        (countIf (isConfComplete conf' g') (allBadges (badgeStream D)) <= 1)%nat)
  /\ completeTotalsPositive D (allBadges (badgeStream D)).
Proof.
  intros Ht Hh Htot HBA HCA HCB. cbv zeta.
  assert (E0 : teamsSeenOf initSt conf g = []) by reflexivity.
  assert (C0 : confCompleted (confs initSt) !! (conf +:+ "|" +:+ genderStr g)
               = None) by apply lookup_empty.
  destruct (introGame_step D 0 conf A g initSt Ht Hh Htot C0) as (B1 & E1 & C1).
  rewrite E0 in B1, E1, C1. specialize (C1 eq_refl).
  set (s1 := gameState D 0 (introGame conf A g) initSt) in *.
  destruct (introGame_step D 1 conf B g s1 Ht Hh Htot C1) as (B2 & E2 & C2).
  rewrite E1 in B2, E2, C2.
  assert (A2 : JS.add (JS.add [] A) B = [A; B]).
  { unfold JS.add at 2. cbn. unfold JS.add, JS.has. cbn. now rewrite HBA. }
  rewrite A2 in B2, E2, C2. specialize (C2 eq_refl).
  set (s2 := gameState D 1 (introGame conf B g) s1) in *.
  destruct (introGame_step D 2 conf A g s2 Ht Hh Htot C2) as (B3 & E3 & C3).
  rewrite E2 in B3, E3, C3.
  assert (A3 : JS.add [A; B] A = [A; B]).
  { unfold JS.add, JS.has. cbn. now rewrite String.eqb_refl. }
  rewrite A3 in B3, E3, C3. specialize (C3 eq_refl).
  set (s3 := gameState D 2 (introGame conf A g) s2) in *.
  destruct (introGame_step D 3 conf C g s3 Ht Hh Htot C3) as (B4 & E4 & _).
  rewrite E3 in B4, E4.
  assert (A4 : JS.add [A; B] C = [A; B; C]).
  { unfold JS.add, JS.has. cbn. now rewrite HCA, HCB. }
  rewrite A4 in B4, E4.
  split; [|split; [|split]].
  - unfold badgeLists. cbn [processGames map snd fst badges].
    fold s1. fold s2. fold s3. now rewrite B1, B2, B3, B4.
  - unfold stateAfter. cbn [map firstn processGames fst].
    fold s1. fold s2. fold s3. now rewrite E1, E2, E3, E4.
  - intros conf' g'. unfold badgeStream. eapply le_if_1, confComplete_once.
  - apply completeTotalsPositive_stream.
Qed.

Lemma conf_complete_exact_witness :
  map (badgesOfType "conf-complete")
      (badgeLists (snd (processGames ivyData 0
         [introGame "Ivy" "Brown" W; introGame "Ivy" "Yale" W;
          introGame "Ivy" "Brown" W; introGame "Ivy" "Penn" W] initSt)))
  = [[]; []; []; [ConfCompleteB "Ivy" W 3]].
Proof.
  apply (conf_complete_exact ivyData "Ivy" "Brown" "Yale" "Penn" W);
    reflexivity.
Defined.

(** ** Sentinel conference names *)

Lemma conferenceTeamCounts_sentinel D conf :
  isSentinel conf = true -> conferenceTeamCounts D !! conf = None.
Proof.
  intros Hs. unfold conferenceTeamCounts.
  assert (H : forall l (m : gmap string nat), m !! conf = None ->
            fold_left (fun (m : gmap string nat) (e : string * ConfData) =>
                         if isSentinel (fst e) then m
                         else <[fst e := JS.countOr0 (totalTeams (snd e))]> m)
                      l m !! conf = None).
  { induction l as [|e l IH]; intros m Hm; [exact Hm|]. cbn [fold_left].
    apply IH. destruct (isSentinel (fst e)) eqn:Ee; [exact Hm|].
    rewrite lookup_insert_ne; [exact Hm | congruence]. }
  apply H, lookup_empty.
Qed.

Lemma confStep_sentinelFree D g conf team s :
  Forall sentinelFree (snd (confStep (conferenceTeamCounts D) g conf team s)).
Proof.
  destruct (negb (JS.truthy conf) || String.eqb conf "Historical/Other")
    eqn:Hact; [rewrite confStep_skip by exact Hact; constructor|].
  destruct (confStep_badges (conferenceTeamCounts D) g conf team s Hact)
    as (Hb & _ & _).
  rewrite Hb. clear Hb. apply orb_false_iff in Hact as [_ Hh].
  apply String.eqb_neq in Hh. apply Forall_app. split.
  - destruct (JS.falsyCount (confTeamCounts s !! conf)); repeat constructor.
    exact Hh.
  - destruct (isSentinel conf) eqn:Es.
    + rewrite (conferenceTeamCounts_sentinel D conf Es). constructor.
    + destruct (_ && _); repeat constructor. exact Es.
Qed.

(** C7, as stated, fails: the conference-matchup rule has no sentinel
    test, so a game between a 'Historical/Other' team and an ACC team gets
    a conf-matchup badge keyed by the sentinel; and the conference loop
    tests only for 'Historical/Other', so a team that resolves to 'All D1'
    gets a new-conf badge for it. *)
Lemma sentinels_not_excluded :
  In (ConfMatchupB "Historical/Other" "ACC") (allBadges (badgeStream sentinelData))
  /\ In (NewConfB "All D1") (allBadges (badgeStream sentinelData))
  /\ ~ sentinelsExcluded sentinelData.
Proof.
  split; [|split].
  - vm_compute. tauto.
  - vm_compute. tauto.
  - unfold sentinelsExcluded. intros H. rewrite List.Forall_forall in H.
    assert (Hin : In (NewConfB "All D1") (allBadges (badgeStream sentinelData)))
      by (vm_compute; tauto).
    specialize (H _ Hin). discriminate H.
Qed.

(** C7 (amended): over any stream, no new-conf badge is for
    'Historical/Other' and no conf-complete badge is for either sentinel
    name; the conference loop skips a team whose conference is
    'Historical/Other', as does the conference-venue rule; and neither
    sentinel has an entry in the table of member counts. *)
Theorem sentinels_in_conference_rule (D : Data) :
  Forall sentinelFree (allBadges (badgeStream D))
  /\ (forall totals g team s,
        confStep totals g "Historical/Other" team s = (s, []))
  /\ (forall venue m, confVenueRule venue "Historical/Other" m = m)
  /\ conferenceTeamCounts D !! "All D1" = None
  /\ conferenceTeamCounts D !! "Historical/Other" = None.
Proof.
  split; [|split; [|split; [|split]]].
  - apply stream_Forall. apply gameBadges_Forall_conf.
    + intros b Hb. destruct b; try exact I; now contradict Hb.
    + intros. apply confStep_sentinelFree.
  - intros. now apply confStep_skip.
  - intros venue m. unfold confVenueRule. cbn [String.eqb].
    now rewrite andb_false_r.
  - now apply conferenceTeamCounts_sentinel.
  - now apply conferenceTeamCounts_sentinel.
Qed.

(** ** Transfers *)

(** The key of line 702 is never falsy where the test runs, so the name
    comparison of line 715 is never reached: only records whose
    [player_id] equals the key match. *)
Lemma hasPlayerAtSchoolBefore_id_only D playerId playerName date school :
  JS.truthy playerId = true ->
  hasPlayerAtSchoolBefore D playerId playerName date school
  = existsb (fun pg2 => optIs (player_id pg2) playerId
                        && optIs (team pg2) school
                        && JS.strLt (JS.orStr (date_yyyymmdd pg2) "") date)
            (playerGames D).
Proof.
  intros Ht. unfold hasPlayerAtSchoolBefore. rewrite Ht. cbn [negb andb].
  induction (playerGames D) as [|pg2 l IH]; [reflexivity|].
  cbn [existsb]. now rewrite IH, orb_false_r.
Qed.

(** The badge of one appearance: pushed exactly when the player has a
    known school and the current team is not one of them; the team is
    added in any case. *)
Lemma playerStep_known D game pg m info :
  let playerId := JS.orStr (player_id pg) (JS.orStr (player pg) "") in
  let playerTeam := JS.orStr (team pg) "" in
  JS.truthy playerId = true ->
  JS.truthy playerTeam = true ->
  m !! playerId = Some info ->
  snd (playerStep D game pg m)
  = (if (0 <? length (playerInfoTeams info))%nat
        && negb (JS.has (playerInfoTeams info) playerTeam)
     then [TransferB (player pg) (playerInfoTeams info) playerTeam] else [])
  /\ playerInfoTeams <$> (fst (playerStep D game pg m) !! playerId)
     = Some (JS.add (playerInfoTeams info) playerTeam).
Proof.
  cbv zeta. intros Hid Hteam Hm. unfold playerStep.
  rewrite Hid, Hteam, Hm. cbn [negb orb fst snd].
  now rewrite lookup_insert_eq.
Qed.

(** C8 at its failing input.  A player without id, listed as coming
    from OldU and with an earlier record at OldU under the same name, is
    seen at NewU: the specified test finds the earlier record, the code's
    test does not, and no transfer badge is pushed.  With an id on both
    records the badge is pushed. *)
Theorem transfer_name_match_dead :
  hasPlayerAtSchoolBeforeSpec (transferData None)
    {| game_id := Some "g1"; player_id := None; player := Some "Bob Smith";
       team := Some "NewU"; realgm_previous_schools := Some ["OldU"];
       date_yyyymmdd := Some "20240101" |} "20240101" "OldU" = true
  /\ hasPlayerAtSchoolBefore (transferData None) "Bob Smith"
       (Some "Bob Smith") "20240101" "OldU" = false
  /\ badgeStream (transferData None)
     = [("g1", mkMilestone [GameCountB 1; D1GameB 1] 1)]
  /\ badgeStream (transferData (Some "smithbo01"))
     = [("g1", mkMilestone [GameCountB 1; D1GameB 1;
                            TransferB (Some "Bob Smith") ["OldU"] "NewU"] 1)].
Proof. repeat split; vm_compute; reflexivity. Qed.

(** ** Ordering of the input *)

(** *** The code-unit order of strings *)






Lemma localeCompare_range a b :
  JS.localeCompare a b = -1 \/ JS.localeCompare a b = 0
  \/ JS.localeCompare a b = 1.
Proof. unfold JS.localeCompare. destruct (String.compare a b); auto. Qed.



(** *** The comparison as a lexicographic one *)






(** *** The insertion sort *)

Section SortCorrect.
Context {A : Type} (cmp : A -> A -> Z) (dom : A -> Prop).
Hypothesis cmp_antisym : forall a b, cmp b a = - cmp a b.
Hypothesis cmp_trans : forall a b c, dom a -> dom b -> dom c ->
  cmp a b <= 0 -> cmp b c <= 0 -> cmp a c <= 0.

Lemma insert_perm x l : Permutation (x :: l) (JS.insert cmp x l).
Proof.
  induction l as [|y l IH]; cbn; [reflexivity|].
  destruct (cmp x y <? 0); [reflexivity|].
  rewrite perm_swap. now apply perm_skip.
Qed.


Lemma sort_fold_perm l : forall acc,
  Permutation (l ++ acc) (fold_left (fun acc x => JS.insert cmp x acc) l acc).
Proof.
  induction l as [|x l IH]; intros acc; cbn; [reflexivity|].
  rewrite <- IH. rewrite Permutation_middle.
  apply Permutation_app_head, insert_perm.
Qed.


Lemma sort_perm l : Permutation l (JS.sort cmp l).
Proof.
  unfold JS.sort. rewrite <- sort_fold_perm. now rewrite app_nil_r.
Qed.

End SortCorrect.







(** * Further properties of the engine *)

(** ** Order of the badges of a game *)

Lemma ruleOrder_app (r : Rule) (k : nat) (l1 l2 : list Badge) :
  Forall (fun b => ruleOf b = r) l1 ->
  (ruleRank r <= k)%nat ->
  StronglySorted ruleOrder l2
  /\ Forall (fun b => (k <= ruleRank (ruleOf b))%nat) l2 ->
  StronglySorted ruleOrder (l1 ++ l2)
  /\ Forall (fun b => (ruleRank r <= ruleRank (ruleOf b))%nat) (l1 ++ l2).
Proof.
  intros H1 Hk [Hs Hl2].
  assert (Hl2' : Forall (fun b => (ruleRank r <= ruleRank (ruleOf b))%nat) l2).
  { eapply List.Forall_impl; [|exact Hl2]. cbv beta. intros b Hb. lia. }
  induction H1 as [|b l1 Hb _ IH]; cbn [app].
  - split; assumption.
  - destruct IH as [IHs IHf]. split.
    + constructor; [exact IHs|].
      eapply List.Forall_impl; [|exact IHf]. intros b' Hb'.
      unfold ruleOrder. now rewrite Hb.
    + constructor; [rewrite Hb; lia | exact IHf].
Qed.

Lemma ruleOrder_last (r : Rule) (l : list Badge) :
  Forall (fun b => ruleOf b = r) l ->
  StronglySorted ruleOrder l
  /\ Forall (fun b => (ruleRank r <= ruleRank (ruleOf b))%nat) l.
Proof.
  intros H. rewrite <- (app_nil_r l).
  apply (ruleOrder_app r (ruleRank r)); [exact H | lia|].
  split; constructor.
Qed.

(** X1: the badges of a game come in the order of the rules: game
    counts, streak, state, venue, teams, conferences, matchup, conference
    matchup, transfers. *)
Theorem gameBadges_in_rule_order (D : Data) (index : nat) (game : Game) (s : St) :
  StronglySorted ruleOrder (gameBadges D index game s).
Proof.
  unfold gameBadges.
  refine (proj1 (ruleOrder_app RCount 1 _ _ (countRule_rule _ _) _ _)); [cbn; lia|].
  refine (ruleOrder_app RStreak 2 _ _ (streakRule_rule _ _) _ _); [cbn; lia|].
  refine (ruleOrder_app RState 3 _ _ (stateRule_rule _ _) _ _); [cbn; lia|].
  refine (ruleOrder_app RVenue 4 _ _ (venueRule_rule _ _ _) _ _); [cbn; lia|].
  refine (ruleOrder_app RTeam 5 _ _ (teamRule_rule _ _ _) _ _); [cbn; lia|].
  refine (ruleOrder_app RConf 6 _ _ (confRule_rule _ _ _) _ _); [cbn; lia|].
  refine (ruleOrder_app RMatchup 7 _ _ (matchupRule_rule _ _ _ _) _ _);
    [cbn; lia|].
  refine (ruleOrder_app RConfMatchup 8 _ _ (confMatchupRule_rule _ _ _) _ _);
    [cbn; lia|].
  apply (ruleOrder_last RTransfer), transferRule_rule.
Qed.

(** ** Game counts *)

Lemma counts_gameState D index game s :
  counts (gameState D index game s) = fst (countRule (divisionOf game) (counts s)).
Proof. reflexivity. Qed.

Lemma counts_stateAfter D pre :
  gameCount (counts (stateAfter D pre)) = length pre
  /\ d1GameCount (counts (stateAfter D pre)) = length (List.filter isD1Game pre).
Proof.
  apply stateAfter_ind with
    (P := fun pre s =>
            gameCount (counts s) = length pre
            /\ d1GameCount (counts s) = length (List.filter isD1Game pre));
    clear pre.
  - split; reflexivity.
  - intros pre game s [Hg Hd]. rewrite counts_gameState.
    rewrite List.filter_app, !length_app. cbn [List.filter length].
    unfold countRule.
    change (String.eqb (divisionOf game) "D1") with (isD1Game game).
    destruct (isD1Game game); cbn [fst gameCount d1GameCount length];
      rewrite Hg, Hd; split; lia.
Qed.

(** X2: the game count is the number of games processed and the D1 count
    the number of them whose division is 'D1' (absent counts as 'D1'); so
    each game raises the first by one and the second by one or zero, the
    game at position n gets a game-count badge exactly when n is in
    [GAME_MILESTONES], and the d-th D1 game a d1-game badge exactly when d
    is in [D1_MILESTONES]. *)
Theorem game_counts (D : Data) (pre : list Game) (game : Game) :
  let s := stateAfter D pre in
  let s' := gameState D (length pre) game s in
  let n := S (length pre) in
  let d := S (length (List.filter isD1Game pre)) in
  gameCount (counts s) = length pre
  /\ d1GameCount (counts s) = length (List.filter isD1Game pre)
  /\ gameCount (counts s') = n
  /\ d1GameCount (counts s')
     = (if isD1Game game then d else d1GameCount (counts s))
  /\ badgesOfRule RCount (gameBadges D (length pre) game s)
     = countBadgesSpec n d (isD1Game game).
Proof.
  cbv zeta. destruct (counts_stateAfter D pre) as [Hg Hd].
  rewrite gameBadges_count, counts_gameState.
  unfold countRule, countBadgesSpec.
  change (String.eqb (divisionOf game) "D1") with (isD1Game game).
  destruct (isD1Game game);
    cbn [fst snd gameCount d1GameCount andb]; rewrite Hg, ?Hd;
    repeat split; try reflexivity.
  now rewrite app_nil_r.
Qed.

(** ** Team milestones and records *)

Lemma teamSt_gameState D index game s :
  teamSt (gameState D index game s) = fst (teamRule D game (teamSt s)).
Proof. reflexivity. Qed.

Lemma teamRule_steps D game s :
  teamRule D game s
  = (fst (teamStep (actualD1Teams D) game (homeOf game)
            (fst (teamStep (actualD1Teams D) game (awayOf game) s))),
     snd (teamStep (actualD1Teams D) game (awayOf game) s)
     ++ snd (teamStep (actualD1Teams D) game (homeOf game)
               (fst (teamStep (actualD1Teams D) game (awayOf game) s)))).
Proof. unfold teamRule. cbn [forEach fst snd]. now rewrite app_nil_r. Qed.

Lemma truthy_neq t team :
  JS.truthy t = true -> JS.truthy team = false -> String.eqb t team = false.
Proof.
  intros Ht Hteam. apply truthy_false in Hteam. subst team.
  now destruct t.
Qed.

(** The counter of [(t, g)] after one iteration of the team loop. *)
Lemma teamStep_count D1Teams game team s t g :
  JS.truthy t = true ->
  JS.countOr0 (teamCounts (fst (teamStep D1Teams game team s))
               !! (t +:+ "|" +:+ genderStr g))
  = (JS.countOr0 (teamCounts s !! (t +:+ "|" +:+ genderStr g))
     + (if bool_decide (genderOf game = g) && String.eqb t team
        then 1 else 0))%nat.
Proof.
  intros Ht. destruct (JS.truthy team) eqn:Hteam.
  - rewrite teamStep_counts by exact Hteam.
    destruct (bool_decide_reflect
                (t +:+ "|" +:+ genderStr g
                 = team +:+ "|" +:+ genderStr (genderOf game))) as [E|Hne].
    + apply confGenderKey_inj in E as [-> ->].
      rewrite bool_decide_eq_true_2, String.eqb_refl by reflexivity.
      cbn [JS.countOr0 andb]. lia.
    + assert (Hc : bool_decide (genderOf game = g) && String.eqb t team = false).
      { destruct (bool_decide_reflect (genderOf game = g)) as [<-|]; [|easy].
        destruct (String.eqb_spec t team) as [->|]; [|easy].
        now contradict Hne. }
      rewrite Hc. lia.
  - rewrite teamStep_falsy by exact Hteam. cbn [fst].
    rewrite (truthy_neq _ _ Ht Hteam), andb_false_r. lia.
Qed.

Lemma sidesIn_sum t g game :
  sidesIn t g game
  = ((if bool_decide (genderOf game = g) && String.eqb t (awayOf game)
      then 1 else 0)
     + (if bool_decide (genderOf game = g) && String.eqb t (homeOf game)
        then 1 else 0))%nat.
Proof. unfold sidesIn. now destruct (bool_decide (genderOf game = g)). Qed.

Lemma appearances_snoc pre game t g :
  appearances (pre ++ [game]) t g = (appearances pre t g + sidesIn t g game)%nat.
Proof.
  unfold appearances. rewrite map_app, list_sum_app. cbn. lia.
Qed.

(** The team counters record the appearances. *)
Lemma teamCounts_stateAfter D pre t g :
  JS.truthy t = true ->
  JS.countOr0 (teamCounts (teamSt (stateAfter D pre))
               !! (t +:+ "|" +:+ genderStr g))
  = appearances pre t g.
Proof.
  intros Ht.
  apply stateAfter_ind with
    (P := fun pre s =>
            JS.countOr0 (teamCounts (teamSt s) !! (t +:+ "|" +:+ genderStr g))
            = appearances pre t g); clear pre.
  - cbn. now rewrite lookup_empty.
  - intros pre game s IH.
    rewrite teamSt_gameState, teamRule_steps. cbn [fst].
    rewrite !teamStep_count by exact Ht.
    rewrite IH, appearances_snoc, sidesIn_sum. lia.
Qed.

Lemma new_team_type_rule b : badgeType b = "new-team" -> ruleOf b = RTeam.
Proof. destruct b; simpl; intros H; try discriminate H; reflexivity. Qed.

Lemma team_visit_type_rule b : badgeType b = "team-visit" -> ruleOf b = RTeam.
Proof. destruct b; simpl; intros H; try discriminate H; reflexivity. Qed.

(** The new-team and team-visit badges of one iteration. *)
Lemma teamStep_badges D1Teams game team s :
  let n := JS.countOr0 (teamCounts s
                        !! (team +:+ "|" +:+ genderStr (genderOf game))) in
  badgesOfType "new-team" (snd (teamStep D1Teams game team s))
  = newTeamSpec team (genderOf game) n
  /\ badgesOfType "team-visit" (snd (teamStep D1Teams game team s))
     = teamVisitSpec team (genderOf game) n.
Proof.
  cbv zeta. unfold newTeamSpec, teamVisitSpec.
  destruct (JS.truthy team) eqn:Hteam;
    [|rewrite teamStep_falsy by exact Hteam; split; reflexivity].
  unfold teamStep. rewrite Hteam. cbn [negb andb].
  set (key := team +:+ "|" +:+ genderStr (genderOf game)).
  rewrite falsyCount_countOr0.
  destruct (JS.countOr0 (teamCounts s !! key) =? 0)%nat eqn:E0.
  - apply Nat.eqb_eq in E0. rewrite E0.
    cbn [teamCounts teamRecords]. rewrite lookup_insert_eq.
    destruct (default (O, O) (teamRecords s !! key)). cbn [snd JS.countOr0].
    unfold badgesOfType. rewrite !List.filter_app. cbn.
    destruct (_ && JS.includes D1_TEAM_MILESTONES _); cbn; split; reflexivity.
  - destruct (default (O, O) (teamRecords s !! key)). cbn [snd app].
    unfold badgesOfType.
    destruct (_ && JS.includes MILESTONE_COUNTS _); cbn; split; reflexivity.
Qed.

(** X3: the counter of a team and gender counts its earlier appearances,
    as away or as home side.  A side gets a new-team badge exactly on its
    first appearance and a team-visit badge exactly when the number of its
    appearances, this one included, exceeds 1 and is in
    [MILESTONE_COUNTS]; the away side is handled first, so a team that
    meets itself appears twice. *)
Theorem team_milestones (D : Data) (pre : list Game) (game : Game) :
  let s := stateAfter D pre in
  let bs := gameBadges D (length pre) game s in
  let g := genderOf game in
  let na := appearances pre (awayOf game) g in
  let nh := (appearances pre (homeOf game) g
             + (if JS.truthy (awayOf game)
                   && String.eqb (homeOf game) (awayOf game)
                then 1 else 0))%nat in
  (forall t g', JS.truthy t = true ->
     JS.countOr0 (teamCounts (teamSt s) !! (t +:+ "|" +:+ genderStr g'))
     = appearances pre t g')
  /\ badgesOfType "new-team" bs
     = newTeamSpec (awayOf game) g na ++ newTeamSpec (homeOf game) g nh
  /\ badgesOfType "team-visit" bs
     = teamVisitSpec (awayOf game) g na ++ teamVisitSpec (homeOf game) g nh.
Proof.
  cbv zeta. split; [intros; now apply teamCounts_stateAfter|].
  rewrite (badgesOfType_rule "new-team" RTeam) by apply new_team_type_rule.
  rewrite (badgesOfType_rule "team-visit" RTeam) by apply team_visit_type_rule.
  rewrite gameBadges_team, teamRule_steps. cbn [snd].
  rewrite !badgesOfType_app.
  destruct (teamStep_badges (actualD1Teams D) game (awayOf game)
              (teamSt (stateAfter D pre))) as [Hn1 Hv1].
  destruct (teamStep_badges (actualD1Teams D) game (homeOf game)
              (fst (teamStep (actualD1Teams D) game (awayOf game)
                      (teamSt (stateAfter D pre))))) as [Hn2 Hv2].
  rewrite Hn1, Hv1, Hn2, Hv2. clear Hn1 Hv1 Hn2 Hv2.
  assert (Ea : JS.truthy (awayOf game) = true ->
               JS.countOr0 (teamCounts (teamSt (stateAfter D pre))
                            !! (awayOf game +:+ "|" +:+ genderStr (genderOf game)))
               = appearances pre (awayOf game) (genderOf game))
    by (intros; now apply teamCounts_stateAfter).
  assert (Eh : JS.truthy (homeOf game) = true ->
               JS.countOr0
                 (teamCounts (fst (teamStep (actualD1Teams D) game (awayOf game)
                                     (teamSt (stateAfter D pre))))
                  !! (homeOf game +:+ "|" +:+ genderStr (genderOf game)))
               = (appearances pre (homeOf game) (genderOf game)
                  + (if JS.truthy (awayOf game)
                        && String.eqb (homeOf game) (awayOf game)
                     then 1 else 0))%nat).
  { intros Hh. rewrite teamStep_count by exact Hh.
    rewrite teamCounts_stateAfter by exact Hh.
    rewrite bool_decide_eq_true_2 by reflexivity. cbn [andb].
    destruct (String.eqb_spec (homeOf game) (awayOf game)) as [E|_];
      [|now rewrite andb_false_r].
    rewrite <- E, Hh. reflexivity. }
  unfold newTeamSpec, teamVisitSpec.
  destruct (JS.truthy (awayOf game)) eqn:Hta; cbn [andb];
    destruct (JS.truthy (homeOf game)) eqn:Hth; cbn [andb];
    rewrite ?(Ea eq_refl), ?(Eh eq_refl), ?Hta; cbn [andb]; split; reflexivity.
Qed.

Lemma team_milestones_witness :
  JS.countOr0
    (teamCounts
       (teamSt (stateAfter (scenario M)
                  [scenarioGame "game1" "20240101" "TeamX" "TeamY" "Arena1"
                     70 60 M]))
     !! "TeamX|M")
  = 1%nat.
Proof.
  exact (proj1 (team_milestones (scenario M)
                  [scenarioGame "game1" "20240101" "TeamX" "TeamY" "Arena1"
                     70 60 M]
                  (scenarioGame "game2" "20240102" "TeamY" "TeamX" "Arena2"
                     55 65 M))
           "TeamX" M eq_refl).
Defined.

(** The record of [(t, g)] after one iteration of the team loop. *)
Lemma teamStep_record D1Teams game team s t g :
  JS.truthy t = true ->
  default (O, O) (teamRecords (fst (teamStep D1Teams game team s))
                  !! (t +:+ "|" +:+ genderStr g))
  = let '(w, l) := default (O, O) (teamRecords s
                                   !! (t +:+ "|" +:+ genderStr g)) in
    if bool_decide (genderOf game = g) && String.eqb t team
    then (if isWinnerOf t game then (S w, l) else (w, S l))
    else (w, l).
Proof.
  intros Ht. destruct (JS.truthy team) eqn:Hteam.
  - unfold teamStep. rewrite Hteam. cbn [negb].
    set (key := team +:+ "|" +:+ genderStr (genderOf game)).
    assert (Hrec : forall s1 : TeamSt,
              teamRecords s1 = teamRecords s ->
              default (O, O)
                (teamRecords
                   (fst (let '(wins, losses) :=
                           default (O, O) (teamRecords s1 !! key) in
                         (mkTeamSt
                            (<[key := S (JS.countOr0 (teamCounts s1 !! key))]>
                               (teamCounts s1))
                            (<[key := if isWinnerOf team game
                                      then (S wins, losses)
                                      else (wins, S losses)]> (teamRecords s1))
                            (d1TeamsSeenM s1) (d1TeamsSeenW s1),
                          @nil Badge)))
                 !! (t +:+ "|" +:+ genderStr g))
              = let '(w, l) := default (O, O) (teamRecords s
                                               !! (t +:+ "|" +:+ genderStr g)) in
                if bool_decide (genderOf game = g) && String.eqb t team
                then (if isWinnerOf t game then (S w, l) else (w, S l))
                else (w, l)).
    { intros s1 ->.
      destruct (decide (t +:+ "|" +:+ genderStr g = key)) as [E|Hne].
      - unfold key in E. apply confGenderKey_inj in E as [-> ->]. fold key.
        rewrite bool_decide_eq_true_2, String.eqb_refl by reflexivity.
        destruct (default (O, O) (teamRecords s !! key)) as [w l].
        cbn [fst teamRecords andb]. rewrite lookup_insert_eq. reflexivity.
      - assert (Hc : bool_decide (genderOf game = g) && String.eqb t team
                     = false).
        { destruct (bool_decide_reflect (genderOf game = g)) as [<-|]; [|easy].
          destruct (String.eqb_spec t team) as [->|]; [|easy].
          now contradict Hne. }
        rewrite Hc.
        destruct (default (O, O) (teamRecords s !! key)) as [w l].
        cbn [fst teamRecords]. rewrite lookup_insert_ne by congruence.
        now destruct (default (O, O) _). }
    destruct (JS.falsyCount (teamCounts s !! key)).
    + cbn [teamCounts teamRecords d1TeamsSeenM d1TeamsSeenW].
      specialize (Hrec (mkTeamSt (<[key := O]> (teamCounts s)) (teamRecords s)
                          (match genderOf game with
                           | M => if JS.has D1Teams team
                                  then JS.add (d1TeamsSeen s (genderOf game)) team
                                  else d1TeamsSeen s (genderOf game)
                           | W => d1TeamsSeenM s
                           end)
                          (match genderOf game with
                           | M => d1TeamsSeenW s
                           | W => if JS.has D1Teams team
                                  then JS.add (d1TeamsSeen s (genderOf game)) team
                                  else d1TeamsSeen s (genderOf game)
                           end)) eq_refl).
      cbn [teamCounts teamRecords d1TeamsSeenM d1TeamsSeenW] in Hrec.
      rewrite <- Hrec. destruct (default (O, O) (teamRecords s !! key)).
      reflexivity.
    + specialize (Hrec s eq_refl). rewrite <- Hrec.
      destruct (default (O, O) (teamRecords s !! key)). reflexivity.
  - rewrite teamStep_falsy by exact Hteam. cbn [fst].
    rewrite (truthy_neq _ _ Ht Hteam), andb_false_r.
    now destruct (default (O, O) _).
Qed.

Lemma winsOf_snoc pre game t g :
  winsOf (pre ++ [game]) t g
  = (winsOf pre t g + (if isWinnerOf t game then sidesIn t g game else 0))%nat.
Proof. unfold winsOf. rewrite map_app, list_sum_app. cbn. lia. Qed.

Lemma lossesOf_snoc pre game t g :
  lossesOf (pre ++ [game]) t g
  = (lossesOf pre t g + (if isWinnerOf t game then 0 else sidesIn t g game))%nat.
Proof. unfold lossesOf. rewrite map_app, list_sum_app. cbn. lia. Qed.

Lemma wins_losses_appearances pre t g :
  (winsOf pre t g + lossesOf pre t g)%nat = appearances pre t g.
Proof.
  induction pre as [|game pre IH] using rev_ind; [reflexivity|].
  rewrite winsOf_snoc, lossesOf_snoc, appearances_snoc.
  destruct (isWinnerOf t game); lia.
Qed.

(** X4: the record of a team and gender holds, as wins, its earlier
    appearances in games where its side scored strictly more, and as
    losses all its other appearances: wins and losses add up to the
    appearances, and with equal scores both sides take a loss. *)
Theorem team_records (D : Data) (pre : list Game) (t : string) (g : gender) :
  JS.truthy t = true ->
  default (O, O) (teamRecords (teamSt (stateAfter D pre))
                  !! (t +:+ "|" +:+ genderStr g))
  = (winsOf pre t g, lossesOf pre t g)
  /\ (winsOf pre t g + lossesOf pre t g)%nat = appearances pre t g
  /\ forall game,
       JS.orNum (AwayScore game) 0 = JS.orNum (HomeScore game) 0 ->
       isWinnerOf t game = false.
Proof.
  intros Ht. split; [|split].
  - apply stateAfter_ind with
      (P := fun pre s =>
              default (O, O) (teamRecords (teamSt s)
                              !! (t +:+ "|" +:+ genderStr g))
              = (winsOf pre t g, lossesOf pre t g)); clear pre.
    + cbn. now rewrite lookup_empty.
    + intros pre game s IH.
      rewrite teamSt_gameState, teamRule_steps. cbn [fst].
      rewrite !teamStep_record by exact Ht. rewrite IH.
      rewrite winsOf_snoc, lossesOf_snoc, sidesIn_sum.
      fold (awayOf game). fold (homeOf game).
      destruct (bool_decide (genderOf game = g) && String.eqb t (awayOf game));
        destruct (bool_decide (genderOf game = g) && String.eqb t (homeOf game));
        destruct (isWinnerOf t game); f_equal; lia.
  - apply wins_losses_appearances.
  - intros game E. unfold isWinnerOf. rewrite E, Z.ltb_irrefl.
    now rewrite !andb_false_r.
Qed.

Lemma team_records_witness :
  default (O, O) (teamRecords (teamSt (stateAfter (scenario M)
                                         (games (scenario M))))
                  !! "TeamX|M")
  = (3%nat, O).
Proof.
  apply (team_records (scenario M) (games (scenario M)) "TeamX" M).
  reflexivity.
Defined.

(** ** Streak history and maximum *)

Lemma historyBounded_closeStreak s :
  historyBounded s -> historyBounded (closeStreak s).
Proof.
  unfold historyBounded, closeStreak. cbn [maxStreak streakHistory]. intros H.
  assert (H' : Forall (fun n => (2 <= n <= Nat.max (maxStreak s) (currentStreak s))%nat)
                      (streakHistory s)).
  { eapply List.Forall_impl; [|exact H]. cbv beta. intros n Hn. lia. }
  destruct (Nat.leb_spec 2 (currentStreak s)); [|exact H'].
  apply Forall_app. split; [exact H'|]. constructor; [lia | constructor].
Qed.

Lemma historyBounded_streakRule dateSort s :
  historyBounded s -> historyBounded (fst (streakRule dateSort s)).
Proof.
  intros H. unfold streakRule. cbn [fst].
  assert (Hset : forall d s0, historyBounded s0 ->
                              historyBounded (setLastGameDate d s0))
    by (intros; assumption).
  assert (Hcur : forall n s0, historyBounded s0 ->
                              historyBounded (setCurrentStreak n s0))
    by (intros; assumption).
  assert (H1 : historyBounded
                 (if JS.truthy (JS.orStr (lastGameDate s) "")
                     && JS.truthy dateSort
                  then match diffDays (JS.orStr (lastGameDate s) "") dateSort with
                       | Some 0 => s
                       | Some 1 => setCurrentStreak (S (currentStreak s)) s
                       | _ => closeStreak s
                       end
                  else setCurrentStreak 1 s)).
  { destruct (_ && _); [|now apply Hcur].
    destruct (diffDays _ _) as [[|[p|p|]|p]|];
      auto using historyBounded_closeStreak. }
  destruct (JS.truthy dateSort); [now apply Hset | exact H1].
Qed.

Lemma historyBounded_stateAfter D pre : historyBounded (streak (stateAfter D pre)).
Proof.
  apply stateAfter_ind with (P := fun _ s => historyBounded (streak s)).
  - constructor.
  - intros pre' game s H. rewrite streak_gameState.
    now apply historyBounded_streakRule.
Qed.

(** X5: in the exported summary every entry of the streak history is at
    least 2 and at most the maximal streak. *)
Theorem streak_history_bounded (D : Data) :
  Forall (fun n => (2 <= n <= btMaxStreak (badgeTrackingData D))%nat)
         (btStreakHistory (badgeTrackingData D)).
Proof.
  unfold badgeTrackingData. cbn [btMaxStreak btStreakHistory].
  pose proof (historyBounded_stateAfter D (allGames D)) as H.
  fold (finalSt D) in H |- *. apply historyBounded_closeStreak in H.
  exact H.
Qed.

Lemma streakRule_dated dateSort s :
  JS.truthy dateSort = true ->
  streakStarted s ->
  (peak s <= peak (fst (streakRule dateSort s)))%nat
  /\ streakStarted (fst (streakRule dateSort s)).
Proof.
  intros Hd Hs. unfold streakRule. rewrite Hd, andb_true_r. cbn [fst].
  split; [|left; cbn; now rewrite Hd].
  unfold peak. cbn [setLastGameDate maxStreak currentStreak].
  destruct (JS.truthy (JS.orStr (lastGameDate s) "")) eqn:Hl.
  - destruct (diffDays _ _) as [[|[p|p|]|p]|]; cbn; lia.
  - destruct Hs as [Hs|Hs]; [congruence|]. cbn. lia.
Qed.

Lemma gameBadges_streak_in D index game s n :
  In (StreakB n) (gameBadges D index game s) ->
  n = currentStreak (streak (gameState D index game s)) /\ (2 <= n)%nat.
Proof.
  intros Hin.
  assert (Hin' : In (StreakB n) (badgesOfRule RStreak (gameBadges D index game s))).
  { unfold badgesOfRule. apply List.filter_In. split; [exact Hin|reflexivity]. }
  rewrite gameBadges_streak, streakRule_badges,
    <- (streak_gameState D index) in Hin'.
  cbv zeta in Hin'.
  destruct (Nat.leb_spec 2 (currentStreak (streak (gameState D index game s))))
    as [Hle|]; [|destruct Hin'].
  destruct Hin' as [E|[]]. injection E as <-. auto.
Qed.

Lemma streakBadges_stream D gs : forall index s,
  Forall (fun game => isDated game = true) gs ->
  streakStarted (streak s) ->
  (peak (streak s) <= peak (streak (fst (processGames D index gs s))))%nat
  /\ streakBadgesWithin (peak (streak (fst (processGames D index gs s))))
       (allBadges (snd (processGames D index gs s))).
Proof.
  induction gs as [|game gs IH]; intros index s Hd Hs.
  - cbn. split; [lia | constructor].
  - apply List.Forall_cons_iff in Hd as [Hg Hd].
    cbn [processGames fst snd].
    pose proof (streakRule_dated _ (streak s) Hg Hs) as [Hp Hs'].
    rewrite <- streak_gameState with (D := D) (index := index) in Hp, Hs'.
    destruct (IH (S index) _ Hd Hs') as [Hmono Hb].
    split; [lia|].
    unfold allBadges, badgeLists. cbn [map concat snd badges].
    apply Forall_app. split; [|exact Hb].
    apply List.Forall_forall. intros b Hin. destruct b; try exact I.
    apply gameBadges_streak_in in Hin as [-> Hn]. split; [exact Hn|].
    unfold peak in *. lia.
Qed.

(** X6: when every game has a date, each streak badge of the stream is
    for a length from 2 to the maximal streak of the exported summary. *)
Theorem streak_badges_within_max (D : Data) :
  Forall (fun game => isDated game = true) (games D) ->
  streakBadgesWithin (btMaxStreak (badgeTrackingData D))
                     (allBadges (badgeStream D)).
Proof.
  intros Hd.
  assert (Hd' : Forall (fun game => isDated game = true) (allGames D)).
  { eapply Permutation_Forall; [|exact Hd]. apply sort_perm. }
  destruct (streakBadges_stream D (allGames D) 0 initSt Hd') as [_ H].
  - right. cbn. lia.
  - exact H.
Qed.

Lemma streak_badges_within_max_witness :
  streakBadgesWithin 3 (allBadges (badgeStream (scenario M))).
Proof.
  apply (streak_badges_within_max (scenario M)).
  repeat constructor.
Defined.

(** ** First-seen orders *)

Lemma has_In s x : JS.has s x = true <-> In x s.
Proof.
  unfold JS.has. rewrite existsb_exists. split.
  - intros (y & Hy & E). apply String.eqb_eq in E. now subst.
  - intros H. exists x. split; [exact H | apply String.eqb_refl].
Qed.

Lemma has_false_In s x : JS.has s x = false <-> ~ In x s.
Proof.
  rewrite <- has_In. destruct (JS.has s x); split; congruence.
Qed.

Lemma add_NoDup s x : List.NoDup s -> List.NoDup (JS.add s x).
Proof.
  intros H. unfold JS.add. destruct (JS.has s x) eqn:E; [exact H|].
  apply has_false_In in E.
  apply (Permutation_NoDup (l := x :: s)).
  - apply Permutation_cons_append.
  - now constructor.
Qed.

Lemma fold_add_NoDup l : forall acc,
  List.NoDup acc -> List.NoDup (fold_left JS.add l acc).
Proof.
  induction l as [|x l IH]; intros acc H; cbn; [exact H|].
  apply IH. now apply add_NoDup.
Qed.

Lemma distinct_NoDup l : List.NoDup (distinct l).
Proof. apply fold_add_NoDup. constructor. Qed.

Lemma existsb_filter_truthy x l :
  existsb (String.eqb x) (List.filter JS.truthy l)
  = JS.truthy x && existsb (String.eqb x) l.
Proof.
  induction l as [|y l IH]; cbn; [now rewrite andb_false_r|].
  destruct (JS.truthy y) eqn:Ey; cbn; rewrite IH.
  - destruct (String.eqb_spec x y) as [->|_].
    + now rewrite Ey.
    + reflexivity.
  - destruct (String.eqb_spec x y) as [->|_].
    + now rewrite Ey.
    + reflexivity.
Qed.

Lemma has_distinct l x :
  JS.has (distinct l) x = JS.truthy x && existsb (String.eqb x) l.
Proof.
  unfold distinct. rewrite has_fold_add. cbn [orb].
  unfold JS.has at 1. cbn [existsb orb]. apply existsb_filter_truthy.
Qed.

Lemma In_distinct l x : In x (distinct l) <-> JS.truthy x = true /\ In x l.
Proof.
  rewrite <- has_In, has_distinct, andb_true_iff, existsb_exists. split.
  - intros [Ht (y & Hy & E)]. apply String.eqb_eq in E. now subst.
  - intros [Ht Hin]. split; [exact Ht|]. exists x.
    split; [exact Hin | apply String.eqb_refl].
Qed.

Lemma distinct_snoc l x :
  distinct (l ++ [x])
  = if JS.truthy x then JS.add (distinct l) x else distinct l.
Proof.
  unfold distinct. rewrite List.filter_app, fold_left_app. cbn.
  now destruct (JS.truthy x).
Qed.

Lemma states_gameState D index game s :
  states (gameState D index game s) = fst (stateRule (stateOf game) (states s)).
Proof. reflexivity. Qed.

Lemma states_stateAfter D pre :
  statesSeen (states (stateAfter D pre)) = distinct (map stateOf pre)
  /\ stateOrder (states (stateAfter D pre)) = distinct (map stateOf pre).
Proof.
  apply stateAfter_ind with
    (P := fun pre s =>
            statesSeen (states s) = distinct (map stateOf pre)
            /\ stateOrder (states s) = distinct (map stateOf pre)); clear pre.
  - split; reflexivity.
  - intros pre game s [Hs Ho]. rewrite states_gameState, map_app.
    cbn [map]. rewrite distinct_snoc. unfold stateRule.
    destruct (JS.truthy (stateOf game)) eqn:Et; cbn [andb fst]; [|now split].
    destruct (JS.has (statesSeen (states s)) (stateOf game)) eqn:Eh;
      cbn [negb fst statesSeen stateOrder].
    + rewrite <- Hs, add_old by exact Eh. split; congruence.
    + rewrite Ho, <- Hs. split; [reflexivity|]. now rewrite add_new.
Qed.

(** X7: the states seen, in the set and in the order list alike, are
    the distinct non-empty states of the games processed, in the order of
    their first game, each once; a game gets a new-state badge exactly
    when its state is non-empty and no earlier game had it, and the rank on
    the badge is the number of distinct states so far, this one
    included. *)
Theorem states_first_seen (D : Data) (pre : list Game) (game : Game) :
  let s := stateAfter D pre in
  statesSeen (states s) = distinct (map stateOf pre)
  /\ stateOrder (states s) = statesSeen (states s)
  /\ List.NoDup (stateOrder (states s))
  /\ (forall st, In st (stateOrder (states s))
                 <-> JS.truthy st = true /\ In st (map stateOf pre))
  /\ badgesOfRule RState (gameBadges D (length pre) game s)
     = stateBadgesSpec pre game.
Proof.
  cbv zeta. destruct (states_stateAfter D pre) as [Hs Ho].
  rewrite Hs, Ho. split; [reflexivity|]. split; [reflexivity|].
  split; [apply distinct_NoDup|]. split; [intros; apply In_distinct|].
  rewrite gameBadges_state. fold (stateOf game).
  unfold stateRule, stateBadgesSpec. rewrite Hs, has_distinct.
  destruct (JS.truthy (stateOf game)) eqn:Et; cbn [andb]; [|reflexivity].
  destruct (existsb _ _) eqn:Ee; cbn [negb snd]; [reflexivity|].
  rewrite add_new; [now rewrite length_app, Nat.add_1_r|].
  now rewrite has_distinct, Et, Ee.
Qed.

(** ** Venues, first seen and D1 *)

Lemma venueRule_d1 division venue s :
  JS.truthy venue = true ->
  let isD1New := JS.falsyCount (venueCounts s !! venue)
                 && String.eqb division "D1"
                 && negb (JS.has (d1VenuesSeen s) venue) in
  d1VenuesSeen (fst (venueRule division venue s))
  = (if isD1New then JS.add (d1VenuesSeen s) venue else d1VenuesSeen s)
  /\ d1VenueCount (fst (venueRule division venue s))
     = (if isD1New then S (d1VenueCount s) else d1VenueCount s).
Proof.
  intros Ht. cbv zeta. unfold venueRule. rewrite Ht.
  destruct (JS.falsyCount (venueCounts s !! venue)); cbn [andb fst
    d1VenuesSeen d1VenueCount]; split; reflexivity.
Qed.

Lemma find_append {A : Type} (f : A -> bool) (l1 l2 : list A) :
  find f (l1 ++ l2)
  = match find f l1 with Some x => Some x | None => find f l2 end.
Proof.
  induction l1 as [|x l1 IH]; [reflexivity|]. cbn.
  now destruct (f x).
Qed.

Lemma find_venue_none pre v :
  visitsBefore pre v = O ->
  find (fun game => String.eqb (venueOf game) v) pre = None.
Proof.
  unfold visitsBefore. induction pre as [|game pre IH]; [reflexivity|].
  cbn. rewrite (String.eqb_sym (venueOf game) v).
  destruct (String.eqb v (venueOf game)); cbn; [discriminate | exact IH].
Qed.

Lemma firstVisitD1_snoc pre game u :
  In u (map venueOf pre) ->
  firstVisitD1 (pre ++ [game]) u = firstVisitD1 pre u.
Proof.
  unfold firstVisitD1. intros Hin.
  induction pre as [|g0 pre IH]; [destruct Hin|]. cbn.
  destruct (String.eqb_spec (venueOf g0) u) as [E|Hne]; [reflexivity|].
  apply IH. destruct Hin as [E|Hin]; [contradiction | exact Hin].
Qed.

Lemma firstVisitD1_filter pre game :
  List.filter (firstVisitD1 (pre ++ [game])) (distinctVenues pre)
  = List.filter (firstVisitD1 pre) (distinctVenues pre).
Proof.
  apply List.filter_ext_in. intros u Hu.
  apply firstVisitD1_snoc. now apply (In_distinct (map venueOf pre)).
Qed.

Lemma d1Venues_stateAfter D pre :
  d1VenuesSeen (venues (stateAfter D pre))
  = List.filter (firstVisitD1 pre) (distinctVenues pre)
  /\ d1VenueCount (venues (stateAfter D pre))
     = length (d1VenuesSeen (venues (stateAfter D pre))).
Proof.
  induction pre as [|game pre [IHs IHc]] using rev_ind; [split; reflexivity|].
  destruct (venueHistory_stateAfter D pre) as [Hc Ho].
  rewrite stateAfter_snoc, venues_gameState, distinctVenues_snoc.
  destruct (JS.truthy (venueOf game)) eqn:Et.
  - destruct (venueRule_d1 (divisionOf game) _ (venues (stateAfter D pre)) Et)
      as [Hd Hn].
    rewrite Hd, Hn. clear Hd Hn.
    rewrite falsyCount_countOr0, Hc, Et.
    pose proof (has_distinctVenues pre (venueOf game)) as Hh.
    rewrite Et in Hh. cbn [andb] in Hh.
    destruct (visitsBefore pre (venueOf game) =? 0)%nat eqn:Ev;
      cbn [negb andb] in Hh |- *.
    + assert (Hnot : JS.has (d1VenuesSeen (venues (stateAfter D pre)))
                            (venueOf game) = false).
      { apply has_false_In. rewrite IHs. intros Hin.
        apply List.filter_In in Hin as [Hin _].
        apply has_In in Hin. congruence. }
      rewrite Hnot, (add_new (distinctVenues pre)) by exact Hh. cbn [negb].
      rewrite List.filter_app, firstVisitD1_filter. cbn [List.filter].
      assert (Hf : firstVisitD1 (pre ++ [game]) (venueOf game) = isD1Game game).
      { unfold firstVisitD1. rewrite find_append.
        apply Nat.eqb_eq in Ev. rewrite (find_venue_none _ _ Ev). cbn.
        now rewrite String.eqb_refl. }
      rewrite Hf. change (String.eqb (divisionOf game) "D1") with (isD1Game game).
      destruct (isD1Game game); cbn [andb].
      * rewrite add_new by exact Hnot. rewrite IHs, length_app. cbn [length].
        split; [reflexivity|]. rewrite IHc, IHs. lia.
      * rewrite app_nil_r. now split.
    + rewrite (add_old (distinctVenues pre)) by exact Hh.
      rewrite firstVisitD1_filter. now split.
  - rewrite venueRule_empty by exact Et. cbn [fst].
    rewrite firstVisitD1_filter. now split.
Qed.

(** X8: the venue order lists the distinct non-empty venues of the games
    processed, by first game, each once.  The D1 venues are those of
    them whose first game was a D1 game -- a venue first met in a game of
    another division never becomes one -- and the D1 venue count is their
    number. *)
Theorem venues_first_seen (D : Data) (pre : list Game) :
  let s := stateAfter D pre in
  venueOrder (venues s) = distinct (map venueOf pre)
  /\ List.NoDup (venueOrder (venues s))
  /\ (forall v, In v (venueOrder (venues s))
                <-> JS.truthy v = true /\ In v (map venueOf pre))
  /\ d1VenuesSeen (venues s)
     = List.filter (firstVisitD1 pre) (venueOrder (venues s))
  /\ d1VenueCount (venues s) = length (d1VenuesSeen (venues s)).
Proof.
  cbv zeta. destruct (venueHistory_stateAfter D pre) as [_ Ho].
  destruct (d1Venues_stateAfter D pre) as [Hd Hn].
  rewrite Ho. split; [reflexivity|].
  split; [apply distinct_NoDup|]. split; [intros; apply In_distinct|].
  split; assumption.
Qed.

(** ** The table of milestones *)

Lemma fold_insert_lookup (l : list (string * Milestone)) (k : string) :
  forall m : gmap string Milestone,
  fold_left (fun (m : gmap string Milestone) e => <[fst e := snd e]> m) l m !! k
  = match lastEntry l k with
    | Some x => Some x
    | None => m !! k
    end.
Proof.
  unfold lastEntry.
  induction l as [|e l IH] using rev_ind; intros m; [reflexivity|].
  rewrite fold_left_app, rev_app_distr. cbn [fold_left rev app find].
  destruct (String.eqb_spec (fst e) k) as [<-|Hne].
  - cbn. apply lookup_insert_eq.
  - rewrite lookup_insert_ne by exact Hne. apply IH.
Qed.

Lemma lastEntry_unique (l : list (string * Milestone)) e :
  List.NoDup (map fst l) -> In e l -> lastEntry l (fst e) = Some (snd e).
Proof.
  unfold lastEntry. intros Hnd Hin.
  induction l as [|x l IH] using rev_ind; [destruct Hin|].
  rewrite rev_app_distr. cbn [rev app find].
  rewrite map_app in Hnd. cbn [map] in Hnd.
  apply List.NoDup_remove in Hnd as [Hnd Hx]. rewrite app_nil_r in Hnd, Hx.
  apply in_app_or in Hin as [Hin|[<-|[]]].
  - destruct (String.eqb_spec (fst x) (fst e)) as [E|_].
    + exfalso. apply Hx. rewrite E. now apply in_map.
    + now apply IH.
  - now rewrite String.eqb_refl.
Qed.

(** X9: [gameMilestones] holds under each game id the entry of the last
    game processed with that id, and nothing under an id no game has; so
    when the ids of the processed games are pairwise distinct, every game
    finds its own badges and game number under its id. *)
Theorem gameMilestones_lookup (D : Data) :
  (forall gameId, gameMilestones D !! gameId = lastEntry (badgeStream D) gameId)
  /\ (List.NoDup (map fst (badgeStream D)) ->
      forall e, In e (badgeStream D) ->
                gameMilestones D !! fst e = Some (snd e)).
Proof.
  assert (H : forall gameId,
            gameMilestones D !! gameId = lastEntry (badgeStream D) gameId).
  { intros gameId. unfold gameMilestones. rewrite fold_insert_lookup.
    destruct (lastEntry (badgeStream D) gameId); [reflexivity|].
    apply lookup_empty. }
  split; [exact H|].
  intros Hnd e Hin. rewrite H. now apply lastEntry_unique.
Qed.

Lemma gameMilestones_lookup_witness :
  gameMilestones (scenario M) !! "game2" = Some (mkMilestone [StreakB 2] 2).
Proof.
  apply (proj2 (gameMilestones_lookup (scenario M))
           ltac:(vm_compute; repeat constructor; cbn; intuition discriminate)
           ("game2", mkMilestone [StreakB 2] 2)).
  vm_compute. tauto.
Defined.

(** ** The order of the input *)








(** ** Pairings of conferences and of teams *)










(** ** Transfer badges *)

(** A property of the badges that holds of every game from a state that
    satisfies an invariant holds over a stream. *)
Lemma stream_Forall_inv D (Inv : St -> Prop) (P : Badge -> Prop) :
  (forall index game s, Inv s ->
     Inv (gameState D index game s) /\ Forall P (gameBadges D index game s)) ->
  forall gs index s, Inv s ->
    Forall P (allBadges (snd (processGames D index gs s))).
Proof.
  intros Hgame. unfold allBadges, badgeLists.
  induction gs as [|game gs IH]; intros index s Hs; [constructor|].
  cbn [processGames snd map concat badges].
  destruct (Hgame index game s Hs) as [Hi Hb].
  apply Forall_app. split; [exact Hb | now apply IH].
Qed.

Lemma seedSchools_NoDup D playerId playerName date prev :
  List.NoDup (seedSchools D playerId playerName date prev).
Proof.
  unfold seedSchools.
  assert (H : forall acc, List.NoDup acc ->
            List.NoDup
              (fold_left (fun acc prevSchool =>
                            if hasPlayerAtSchoolBefore D playerId playerName
                                 date prevSchool
                            then JS.add acc prevSchool else acc) prev acc)).
  { induction prev as [|x prev IH]; intros acc Hacc; cbn; [exact Hacc|].
    apply IH. destruct (hasPlayerAtSchoolBefore _ _ _ _ _);
      [now apply add_NoDup | exact Hacc]. }
  apply H. constructor.
Qed.

Lemma playerStep_wellFormed D game pg m :
  knownSchoolsDistinct m ->
  knownSchoolsDistinct (fst (playerStep D game pg m))
  /\ Forall transferWellFormed (snd (playerStep D game pg m)).
Proof.
  intros Hm. unfold playerStep.
  destruct (negb (JS.truthy _) || negb (JS.truthy _));
    [split; [exact Hm | constructor]|].
  set (playerId := JS.orStr (player_id pg) (JS.orStr (player pg) "")).
  set (info := match m !! playerId with
               | Some i => i
               | None => mkPlayerInfo _ _
               end).
  assert (Hinfo : List.NoDup (playerInfoTeams info)).
  { unfold info. destruct (m !! playerId) eqn:E; [now apply (Hm playerId)|].
    apply seedSchools_NoDup. }
  cbn [fst snd]. split.
  - intros k i. destruct (decide (k = playerId)) as [->|Hne].
    + rewrite lookup_insert_eq. intros [= <-]. cbn. now apply add_NoDup.
    + rewrite lookup_insert_ne by congruence. apply Hm.
  - destruct (0 <? length (playerInfoTeams info))%nat eqn:El; cbn [andb];
      [|constructor].
    destruct (JS.has (playerInfoTeams info) _) eqn:Eh; cbn [negb];
      constructor; [|constructor].
    cbn. split; [|split; [exact Hinfo | now apply has_false_In]].
    intros E. rewrite E in El. discriminate El.
Qed.

Lemma transferRule_wellFormed D game gameId m :
  knownSchoolsDistinct m ->
  knownSchoolsDistinct (fst (transferRule D game gameId m))
  /\ Forall transferWellFormed (snd (transferRule D game gameId m)).
Proof.
  unfold transferRule. generalize (List.filter (fun pg => optIs (game_id pg) gameId)
                                     (playerGames D)).
  intros l. revert m. induction l as [|pg l IH]; intros m Hm; cbn [forEach fst snd].
  - split; [exact Hm | constructor].
  - destruct (playerStep_wellFormed D game pg m Hm) as [H1 B1].
    destruct (IH _ H1) as [H2 B2].
    split; [exact H2|]. apply Forall_app. now split.
Qed.

(** X13: every transfer badge of the stream names at least one previous
    school, names each previous school once, and does not name the new
    team among the previous ones. *)
Theorem transfer_badges_well_formed (D : Data) :
  Forall transferWellFormed (allBadges (badgeStream D)).
Proof.
  unfold badgeStream.
  apply (stream_Forall_inv D (fun s => knownSchoolsDistinct (playerTeams s))).
  - intros index game s Hs.
    destruct (transferRule_wellFormed D game (gameIdOf index game)
                (playerTeams s) Hs) as [Hi Hb].
    split; [exact Hi|].
    unfold gameBadges.
    repeat match goal with
           | |- Forall _ (snd (transferRule _ _ _ _)) => exact Hb
           | |- Forall _ (_ ++ _) =>
               apply Forall_app; split;
               [eapply List.Forall_impl; [|first
                  [ apply countRule_rule | apply streakRule_rule
                  | apply stateRule_rule | apply venueRule_rule
                  | apply teamRule_rule | apply confRule_rule
                  | apply matchupRule_rule | apply confMatchupRule_rule ]];
                intros b Hr; destruct b; try exact I; discriminate Hr|]
           end.
  - intros k i. cbn. rewrite lookup_empty. discriminate.
Qed.

(** ** The set of D1 teams *)

Lemma In_add s x y : In y (JS.add s x) <-> In y s \/ y = x.
Proof.
  rewrite <- !has_In, has_add, orb_true_iff, String.eqb_eq. reflexivity.
Qed.

Lemma In_fold_add l acc y :
  In y (fold_left JS.add l acc) <-> In y acc \/ In y l.
Proof.
  rewrite <- (has_In (fold_left JS.add l acc)), has_fold_add, orb_true_iff.
  rewrite (has_In acc), existsb_exists. split.
  - intros [H|(z & Hz & E)]; [now left|]. apply String.eqb_eq in E.
    subst. now right.
  - intros [H|H]; [now left|]. right. exists y.
    split; [exact H | apply String.eqb_refl].
Qed.

Lemma actualD1Teams_fold D :
  actualD1Teams D = fold_left (d1ConfStep D) (conferenceChecklist D) [].
Proof. reflexivity. Qed.

(** [reverseAliases] maps a canonical name to itself and its aliases. *)
Lemma reverseAliases_spec D canonical x :
  (exists s, reverseAliases D !! canonical = Some s /\ In x s)
  <-> (exists alias, In (alias, canonical) (teamAliases D)
                     /\ (x = alias \/ x = canonical)).
Proof.
  unfold reverseAliases.
  induction (teamAliases D) as [|[a c] l IH] using rev_ind.
  - cbn. split.
    + intros (s & Hs & _). rewrite lookup_empty in Hs. discriminate.
    + intros (alias & [] & _).
  - rewrite fold_left_app. cbn [fold_left].
    set (m := fold_left _ l ∅) in *.
    destruct (decide (c = canonical)) as [->|Hne].
    + rewrite lookup_insert_eq. split.
      * intros (s & [= <-] & Hin).
        apply In_add in Hin as [Hin| ->];
          [|exists a; split; [apply in_or_app; right; now left | now right]].
        apply In_add in Hin as [Hin| ->];
          [|exists a; split; [apply in_or_app; right; now left | now left]].
        destruct (proj1 IH) as (alias & Hal & Hx).
        { destruct (m !! canonical) as [s|]; [|destruct Hin].
          exists s. now split. }
        exists alias. split; [apply in_or_app; now left | exact Hx].
      * intros (alias & Hal & Hx). eexists. split; [reflexivity|].
        apply In_add. apply in_app_or in Hal as [Hal|[[= -> ]|[]]].
        -- destruct (proj2 IH) as (s & Hs & Hin);
             [exists alias; now split|].
           left. apply In_add. left. now rewrite Hs.
        -- destruct Hx as [->| ->]; [left; apply In_add; now right | now right].
    + rewrite lookup_insert_ne by exact Hne. rewrite IH. split.
      * intros (alias & Hal & Hx). exists alias.
        split; [apply in_or_app; now left | exact Hx].
      * intros (alias & Hal & Hx). exists alias. split; [|exact Hx].
        apply in_app_or in Hal as [Hal|[[= _ E]|[]]]; [exact Hal|].
        now contradict Hne.
Qed.

(** What one team entry adds to the set. *)
Lemma d1Step_spec D acc t x :
  In x (d1Step D acc t)
  <-> In x acc
      \/ (let name := JS.orStr (entryTeam t) "" in
          JS.truthy name = true
          /\ (x = name
              \/ (entryOf name (teamAliases D) = Some x /\ JS.truthy x = true)
              \/ In (x, name) (teamAliases D))).
Proof.
  unfold d1Step. cbv zeta.
  set (name := JS.orStr (entryTeam t) "").
  destruct (JS.truthy name) eqn:Et; [|split; [now left | intros [H|[H _]]; [exact H|discriminate]]].
  set (canonical := JS.orStr (entryOf name (teamAliases D)) "").
  assert (Hcan : forall y,
            In y (if JS.truthy canonical then JS.add (JS.add acc name) canonical
                  else JS.add acc name)
            <-> In y acc \/ y = name
                \/ (entryOf name (teamAliases D) = Some y /\ JS.truthy y = true)).
  { intros y. unfold canonical.
    destruct (entryOf name (teamAliases D)) as [c|] eqn:Ec; cbn [JS.orStr].
    - destruct (JS.truthy c) eqn:Etc.
      + rewrite Etc, !In_add. split.
        * intros [[H|H]|H]; auto. subst. right. right. now split.
        * intros [H|[H|[[= <-] _]]]; auto.
      + change (JS.truthy "") with false. cbv iota. rewrite In_add. split.
        * intros [H|H]; auto.
        * intros [H|[H|[[= <-] H]]]; auto. congruence.
    - change (JS.truthy "") with false. cbv iota. rewrite In_add. split.
      + intros [H|H]; auto.
      + intros [H|[H|[H _]]]; auto. discriminate. }
  pose proof (reverseAliases_spec D name x) as Hrev.
  destruct (reverseAliases D !! name) as [s|] eqn:Er.
  - rewrite In_fold_add, Hcan. split.
    + intros [[H|[H|H]]|H].
      * now left.
      * right. split; [reflexivity | now left].
      * right. split; [reflexivity | right; now left].
      * destruct (proj1 Hrev) as (alias & Hal & [->| ->]);
          [exists s; now split | |].
        -- right. split; [reflexivity | right; now right].
        -- right. split; [reflexivity | now left].
    + intros [H|[_ [H|[H|H]]]].
      * left. now left.
      * left. right. now left.
      * left. right. now right.
      * right. destruct (proj2 Hrev) as (s' & Hs' & Hin);
          [exists x; split; [exact H | now left]|].
        now injection Hs' as <-.
  - rewrite Hcan. split.
    + intros [H|[H|H]].
      * now left.
      * right. split; [reflexivity | now left].
      * right. split; [reflexivity | right; now left].
    + intros [H|[_ [H|[H|H]]]].
      * now left.
      * right. now left.
      * right. now right.
      * exfalso. destruct (proj2 Hrev) as (s & Hs & _); [|discriminate].
        exists x. split; [exact H | now left].
Qed.

Lemma orStr_truthy_iff o :
  JS.truthy (JS.orStr o "") = true
  <-> exists name, o = Some name /\ JS.truthy name = true.
Proof.
  destruct o as [s|]; cbn [JS.orStr].
  - destruct (JS.truthy s) eqn:E.
    + rewrite E. split; [intros _; now exists s | reflexivity].
    + split; [discriminate|]. intros (name & [= <-] & H). congruence.
  - split; [discriminate|]. intros (name & [=] & _).
Qed.

Lemma d1Step_fold D ts : forall acc x,
  In x (fold_left (d1Step D) ts acc)
  <-> In x acc
      \/ exists e name,
           In e ts /\ entryTeam e = Some name /\ JS.truthy name = true
           /\ (x = name
               \/ (entryOf name (teamAliases D) = Some x /\ JS.truthy x = true)
               \/ In (x, name) (teamAliases D)).
Proof.
  induction ts as [|t ts IH]; intros acc x; cbn [fold_left].
  - split; [now left | intros [H|(e & _ & [] & _)]; exact H].
  - rewrite IH, d1Step_spec. cbv zeta. split.
    + intros [[H|[Ht Hx]]|(e & name & He & Hrest)].
      * now left.
      * right. apply orStr_truthy_iff in Ht as Hn.
        destruct Hn as (name & En & Htn).
        rewrite En, orStr_Some in Hx. exists t, name.
        split; [now left | now repeat split].
      * right. exists e, name. split; [now right | exact Hrest].
    + intros [H|(e & name & [<-|He] & En & Htn & Hx)].
      * left. now left.
      * left. right. rewrite En, orStr_Some. now split.
      * right. exists e, name. now repeat split.
Qed.

Lemma d1Step_NoDup D acc t : List.NoDup acc -> List.NoDup (d1Step D acc t).
Proof.
  intros H. unfold d1Step. cbv zeta.
  destruct (JS.truthy (JS.orStr (entryTeam t) "")); [|exact H].
  assert (H2 : List.NoDup
                 (if JS.truthy (JS.orStr (entryOf (JS.orStr (entryTeam t) "")
                                                  (teamAliases D)) "")
                  then JS.add (JS.add acc (JS.orStr (entryTeam t) ""))
                         (JS.orStr (entryOf (JS.orStr (entryTeam t) "")
                                            (teamAliases D)) "")
                  else JS.add acc (JS.orStr (entryTeam t) ""))).
  { destruct (JS.truthy _); repeat apply add_NoDup; exact H. }
  destruct (reverseAliases D !! _); [now apply fold_add_NoDup | exact H2].
Qed.

Lemma d1ConfStep_NoDup D acc e :
  List.NoDup acc -> List.NoDup (d1ConfStep D acc e).
Proof.
  intros H. unfold d1ConfStep. destruct (isSentinel (fst e)); [exact H|].
  revert acc H. induction (default [] (teams (snd e))) as [|t ts IH];
    intros acc H; cbn [fold_left]; [exact H|].
  apply IH. now apply d1Step_NoDup.
Qed.

Lemma d1ConfStep_fold D cl : forall acc x,
  In x (fold_left (d1ConfStep D) cl acc)
  <-> In x acc
      \/ exists conf data ts e name,
           In (conf, data) cl /\ isSentinel conf = false
           /\ teams data = Some ts /\ In e ts
           /\ entryTeam e = Some name /\ JS.truthy name = true
           /\ (x = name
               \/ (entryOf name (teamAliases D) = Some x /\ JS.truthy x = true)
               \/ In (x, name) (teamAliases D)).
Proof.
  induction cl as [|[conf data] cl IH]; intros acc x; cbn [fold_left].
  - split; [now left | intros [H|(? & ? & ? & ? & ? & [] & _)]; exact H].
  - rewrite IH. unfold d1ConfStep. cbn [fst snd]. split.
    + intros [H|(conf' & data' & ts & e & name & Hin & Hrest)].
      * destruct (isSentinel conf) eqn:Es; [now left|].
        apply d1Step_fold in H as [H|(e & name & He & Hrest)]; [now left|].
        right. destruct (teams data) as [ts|] eqn:Ets; [|destruct He].
        exists conf, data, ts, e, name.
        split; [now left | now repeat split].
      * right. exists conf', data', ts, e, name.
        split; [now right | exact Hrest].
    + intros [H|(conf' & data' & ts & e & name & [[= <- <-]|Hin] & Hs & Ets
                 & He & Hrest)].
      * left. destruct (isSentinel conf); [exact H|].
        apply d1Step_fold. now left.
      * left. rewrite Hs. apply d1Step_fold. right. exists e, name.
        rewrite Ets. now split.
      * right. exists conf', data', ts, e, name. now repeat split.
Qed.

(** X14. The set of D1 teams built from the conference checklist
    (app.js 464-484) holds no name twice and holds exactly: the non-empty
    [team] names listed under a conference other than 'All D1' and
    'Historical/Other', the non-empty canonical name [teamAliases] gives
    for such a name, and every alias [teamAliases] maps to such a name. A
    team listed only under one of the two excluded keys is not in the
    set. *)
Theorem actualD1Teams_exact (D : Data) :
  List.NoDup (actualD1Teams D)
  /\ forall x, In x (actualD1Teams D) <-> d1Name D x.
Proof.
  rewrite actualD1Teams_fold. split.
  - assert (H : forall cl acc,
               List.NoDup acc -> List.NoDup (fold_left (d1ConfStep D) cl acc)).
    { induction cl as [|e cl IH]; intros acc H; cbn [fold_left]; [exact H|].
      apply IH. now apply d1ConfStep_NoDup. }
    apply H. constructor.
  - intros x. rewrite d1ConfStep_fold. unfold d1Name, listedD1. split.
    + intros [[]|(conf & data & ts & e & name & H1 & H2 & H3 & H4 & H5 & H6
                  & H7)].
      exists name. split; [|exact H7].
      exists conf, data, ts, e. now repeat split.
    + intros (name & (conf & data & ts & e & H1 & H2 & H3 & H4 & H5 & H6)
              & H7).
      right. exists conf, data, ts, e, name. now repeat split.
Qed.

Example actualD1Teams_aliasData :
  actualD1Teams aliasData
  = ["UConn"; "Connecticut"; "St. John's"; "St. John's (NY)"].
Proof. vm_compute. reflexivity. Qed.

(** ** D1 teams seen *)

Lemma has_filter (p : string -> bool) l x :
  JS.has (List.filter p l) x = JS.has l x && p x.
Proof.
  unfold JS.has. induction l as [|y l IH]; cbn; [reflexivity|].
  destruct (p y) eqn:Ep; cbn; rewrite IH.
  - destruct (String.eqb_spec x y) as [->|_]; cbn; [now rewrite Ep | reflexivity].
  - destruct (String.eqb_spec x y) as [->|_]; cbn;
      [now rewrite Ep, andb_false_r | reflexivity].
Qed.

Lemma filter_add (p : string -> bool) l x :
  List.filter p (JS.add l x)
  = if p x then JS.add (List.filter p l) x else List.filter p l.
Proof.
  unfold JS.add. rewrite has_filter.
  destruct (JS.has l x) eqn:E; cbn [andb].
  - now destruct (p x).
  - rewrite List.filter_app. cbn. destruct (p x); [reflexivity|].
    apply app_nil_r.
Qed.

Lemma teamStep_d1Seen D1Teams game team s g :
  d1TeamsSeen (fst (teamStep D1Teams game team s)) g
  = if bool_decide (genderOf game = g) && JS.truthy team
       && JS.falsyCount (teamCounts s
                         !! (team +:+ "|" +:+ genderStr (genderOf game)))
       && JS.has D1Teams team
    then JS.add (d1TeamsSeen s g) team
    else d1TeamsSeen s g.
Proof.
  destruct (JS.truthy team) eqn:Hteam;
    [|rewrite teamStep_falsy by exact Hteam; now rewrite andb_false_r].
  unfold teamStep. rewrite Hteam. cbn [negb].
  set (key := team +:+ "|" +:+ genderStr (genderOf game)).
  destruct (JS.falsyCount (teamCounts s !! key)) eqn:Ef.
  - cbn [teamCounts teamRecords].
    destruct (default (O, O) (teamRecords s !! key)). cbn [fst].
    destruct (JS.has D1Teams team);
      destruct (genderOf game), g; cbn; reflexivity.
  - destruct (default (O, O) (teamRecords s !! key)). cbn [fst].
    rewrite andb_false_r. now destruct g.
Qed.

Lemma teamStep_d1Badges D1Teams game team s :
  badgesOfType "d1-team" (snd (teamStep D1Teams game team s))
  = if JS.truthy team
       && JS.falsyCount (teamCounts s
                         !! (team +:+ "|" +:+ genderStr (genderOf game)))
       && JS.has D1Teams team
    then let k := length (JS.add (d1TeamsSeen s (genderOf game)) team) in
         if JS.includes D1_TEAM_MILESTONES k
         then [D1TeamB k (genderOf game)] else []
    else [].
Proof.
  destruct (JS.truthy team) eqn:Hteam;
    [|rewrite teamStep_falsy by exact Hteam; reflexivity].
  unfold teamStep. rewrite Hteam. cbn [negb andb].
  set (key := team +:+ "|" +:+ genderStr (genderOf game)).
  destruct (JS.falsyCount (teamCounts s !! key)) eqn:Ef.
  - cbn [teamCounts teamRecords].
    destruct (default (O, O) (teamRecords s !! key)). cbn [snd].
    rewrite badgesOfType_app. cbv zeta.
    destruct (JS.has D1Teams team); cbn [andb].
    + destruct (JS.includes D1_TEAM_MILESTONES _);
        destruct (_ && JS.includes MILESTONE_COUNTS _); reflexivity.
    + destruct (_ && JS.includes MILESTONE_COUNTS _); reflexivity.
  - destruct (default (O, O) (teamRecords s !! key)). cbn [snd app].
    destruct (_ && JS.includes MILESTONE_COUNTS _); reflexivity.
Qed.

Lemma teamsAgree_step D1Teams game team s g names :
  teamsAgree D1Teams g names s ->
  teamsAgree D1Teams g
    (names ++ (if bool_decide (genderOf game = g) then [team] else []))
    (fst (teamStep D1Teams game team s))
  /\ (genderOf game = g ->
      badgesOfType "d1-team" (snd (teamStep D1Teams game team s))
      = d1TeamSpec D1Teams names team g).
Proof.
  intros [Hc Hd]. split; [split|].
  - intros t Ht. rewrite falsyCount_countOr0, teamStep_count by exact Ht.
    rewrite existsb_app, negb_orb, <- (Hc t Ht), falsyCount_countOr0.
    destruct (bool_decide (genderOf game = g)); cbn [andb existsb].
    + rewrite orb_false_r. destruct (String.eqb t team); cbn [negb].
      * rewrite andb_false_r. apply Nat.eqb_neq. lia.
      * now rewrite andb_true_r, Nat.add_0_r.
    + now rewrite andb_true_r, Nat.add_0_r.
  - rewrite teamStep_d1Seen, Hd.
    destruct (bool_decide_reflect (genderOf game = g)) as [Eg|Hg];
      cbn [andb]; [|now rewrite app_nil_r].
    rewrite distinct_snoc.
    destruct (JS.truthy team) eqn:Hteam; cbn [andb]; [|reflexivity].
    rewrite filter_add, Eg, (Hc team Hteam).
    destruct (JS.has D1Teams team) eqn:Ed; [|now rewrite andb_false_r].
    rewrite andb_true_r.
    destruct (existsb (String.eqb team) names) eqn:Ex; cbn [negb];
      [|reflexivity].
    symmetry. apply add_old. rewrite has_filter, has_distinct, Hteam, Ex.
    now rewrite Ed.
  - intros Eg. rewrite teamStep_d1Badges. unfold d1TeamSpec.
    rewrite Eg. destruct (JS.truthy team) eqn:Hteam; cbn [andb]; [|reflexivity].
    rewrite (Hc team Hteam).
    destruct (existsb (String.eqb team) names) eqn:Ex; cbn [negb andb];
      [reflexivity|].
    destruct (JS.has D1Teams team) eqn:Ed; [|reflexivity].
    cbv zeta. rewrite Hd, add_new, length_app, Nat.add_1_r; [reflexivity|].
    rewrite has_filter, has_distinct, Hteam, Ex. reflexivity.
Qed.

Lemma teamsAgree_game D game s g names :
  teamsAgree (actualD1Teams D) g names s ->
  teamsAgree (actualD1Teams D) g (names ++ sideNames g game)
    (fst (teamRule D game s)).
Proof.
  intros H. rewrite teamRule_steps. cbn [fst].
  apply (teamsAgree_step _ game (awayOf game)) in H as [H _].
  apply (teamsAgree_step _ game (homeOf game)) in H as [H _].
  rewrite <- app_assoc in H. unfold sideNames.
  destruct (bool_decide (genderOf game = g)); exact H.
Qed.

Lemma teamsAgree_stateAfter D pre g :
  teamsAgree (actualD1Teams D) g (namesOf pre g) (teamSt (stateAfter D pre)).
Proof.
  apply stateAfter_ind with
    (P := fun pre s =>
            teamsAgree (actualD1Teams D) g (namesOf pre g) (teamSt s));
    clear pre.
  - split; [|now destruct g]. intros t _. cbn. now rewrite lookup_empty.
  - intros pre game s IH. rewrite teamSt_gameState.
    unfold namesOf. rewrite flat_map_app. cbn [flat_map].
    rewrite app_nil_r. now apply teamsAgree_game.
Qed.

Lemma d1_team_type_rule b : badgeType b = "d1-team" -> ruleOf b = RTeam.
Proof. destruct b; simpl; intros H; try discriminate H; reflexivity. Qed.

(** X15. After any games, the set of D1 teams seen of a gender holds, in
    first-appearance order, the non-empty side names of that gender's
    games that are in the D1 set (app.js 603-605).  A side gets a d1-team
    badge exactly when its name is non-empty, has not taken a side of that
    gender before (the away side of the same game included), is in the D1
    set, and the number of distinct D1 names of that gender seen, this one
    included, is in [D1_TEAM_MILESTONES]; the badge carries that
    number. *)
Theorem d1_teams_seen (D : Data) (pre : list Game) (game : Game) :
  let s := stateAfter D pre in
  let g := genderOf game in
  let D1Teams := actualD1Teams D in
  (forall g', d1TeamsSeen (teamSt s) g'
              = List.filter (JS.has D1Teams) (distinct (namesOf pre g')))
  /\ badgesOfType "d1-team" (gameBadges D (length pre) game s)
     = d1TeamSpec D1Teams (namesOf pre g) (awayOf game) g
       ++ d1TeamSpec D1Teams (namesOf pre g ++ [awayOf game]) (homeOf game) g.
Proof.
  cbv zeta. split; [intros g'; apply teamsAgree_stateAfter|].
  rewrite (badgesOfType_rule "d1-team" RTeam) by apply d1_team_type_rule.
  rewrite gameBadges_team, teamRule_steps. cbn [snd].
  rewrite badgesOfType_app.
  pose proof (teamsAgree_stateAfter D pre (genderOf game)) as H.
  apply (teamsAgree_step _ game (awayOf game)) in H as [H Ha].
  apply (teamsAgree_step _ game (homeOf game)) in H as [_ Hh].
  rewrite Ha, Hh by reflexivity.
  now rewrite bool_decide_eq_true_2 by reflexivity.
Qed.

(** ** Conference tracking *)

Lemma setOf_snoc names x : setOf (names ++ [x]) = JS.add (setOf names) x.
Proof. unfold setOf. now rewrite fold_left_app. Qed.

Lemma length_add s x :
  length (JS.add s x) = (length s + if JS.has s x then 0 else 1)%nat.
Proof.
  unfold JS.add. destruct (JS.has s x); [lia|]. now rewrite length_app.
Qed.

Lemma setOf_empty names :
  (length (setOf names) =? 0)%nat = (length names =? 0)%nat.
Proof.
  destruct names as [|x names] using rev_ind; [reflexivity|].
  rewrite setOf_snoc, length_add, length_app. cbn [length].
  destruct (JS.has (setOf names) x) eqn:E.
  - apply has_In in E. destruct (setOf names); [destruct E|].
    cbn [length]. symmetry. apply Nat.eqb_neq. lia.
  - transitivity false; [|symmetry]; apply Nat.eqb_neq; lia.
Qed.

Lemma confRule_steps D game s :
  confRule D game s
  = (fst (confStep (conferenceTeamCounts D) (genderOf game)
            (getGameConference D game home) (homeOf game)
            (fst (confStep (conferenceTeamCounts D) (genderOf game)
                    (getGameConference D game away) (awayOf game) s))),
     snd (confStep (conferenceTeamCounts D) (genderOf game)
            (getGameConference D game away) (awayOf game) s)
     ++ snd (confStep (conferenceTeamCounts D) (genderOf game)
               (getGameConference D game home) (homeOf game)
               (fst (confStep (conferenceTeamCounts D) (genderOf game)
                       (getGameConference D game away) (awayOf game) s)))).
Proof. unfold confRule. cbn [forEach fst snd]. now rewrite app_nil_r. Qed.

Lemma validConf_active conf :
  negb (JS.truthy conf) || String.eqb conf "Historical/Other"
  = negb (validConf conf).
Proof. unfold validConf. now destruct (JS.truthy conf), (String.eqb conf _). Qed.

Lemma confSide_same conf g team :
  validConf conf = true -> confSide conf g g conf team = [team].
Proof.
  intros H. unfold confSide.
  now rewrite H, String.eqb_refl, bool_decide_eq_true_2 by reflexivity.
Qed.

Lemma confSide_other c gc g conf team :
  c +:+ "|" +:+ genderStr gc <> conf +:+ "|" +:+ genderStr g ->
  confSide c gc g conf team = [].
Proof.
  intros H. unfold confSide.
  destruct (String.eqb_spec conf c) as [->|_];
    [|now rewrite andb_false_r].
  destruct (bool_decide_reflect (g = gc)) as [->|_];
    [now contradict H | now rewrite andb_false_r].
Qed.

Lemma confSide_invalid c gc g conf team :
  validConf conf = false -> confSide c gc g conf team = [].
Proof. intros H. unfold confSide. now rewrite H. Qed.

(** What one iteration of the conference loop does to the state and which
    badges it pushes. *)
Lemma confsAgree_step totals g conf team s names :
  confsAgree totals names s ->
  confsAgree totals (fun c gc => names c gc ++ confSide c gc g conf team)
    (fst (confStep totals g conf team s))
  /\ badgesOfType "new-conf" (snd (confStep totals g conf team s))
     = newConfSpec conf (length (names conf M) + length (names conf W))
  /\ badgesOfType "conf-complete" (snd (confStep totals g conf team s))
     = confCompleteSpec totals conf g (names conf g) team.
Proof.
  intros Hinv.
  destruct (validConf conf) eqn:Hv.
  2:{ rewrite confStep_skip by (now rewrite validConf_active, Hv).
      unfold newConfSpec, confCompleteSpec. rewrite Hv. cbn [andb fst snd].
      split; [|split; reflexivity].
      intros c gc. rewrite !confSide_invalid, !app_nil_r by exact Hv.
      apply Hinv. }
  assert (Hact : negb (JS.truthy conf) || String.eqb conf "Historical/Other"
                 = false) by now rewrite validConf_active, Hv.
  destruct (Hinv conf g) as (Hseen & Hflag & Hcount).
  set (key := conf +:+ "|" +:+ genderStr g) in *.
  set (total := JS.countOr0 (totals !! conf)) in *.
  set (seen0 := setOf (names conf g)) in *.
  assert (Hnew : JS.falsyCount (confTeamCounts s !! conf)
                 = (length (names conf M) + length (names conf W) =? 0)%nat).
  { rewrite falsyCount_countOr0, Hcount.
    pose proof (setOf_empty (names conf M)) as HM.
    pose proof (setOf_empty (names conf W)) as HW.
    destruct (length (setOf (names conf M))), (length (setOf (names conf W))),
      (length (names conf M)), (length (names conf W));
      cbn in *; congruence. }
  assert (Hcomplete :
            (0 <? total)%nat && (total <=? length (JS.add seen0 team))%nat
            && JS.falsyFlag (confCompleted s !! key)
            = negb (JS.has seen0 team) && (S (length seen0) =? total)%nat).
  { rewrite Hflag, length_add.
    destruct (JS.has seen0 team); cbn [negb andb].
    - rewrite Nat.add_0_r.
      now destruct ((0 <? total)%nat && (total <=? length seen0)%nat).
    - destruct (Nat.ltb_spec 0 total), (Nat.leb_spec total (length seen0 + 1)),
        (Nat.leb_spec total (length seen0)),
        (Nat.eqb_spec (S (length seen0)) total); cbn; try reflexivity; lia. }
  unfold confStep. rewrite Hact. cbv zeta. fold key. fold total.
  rewrite Hseen, Hcomplete, Hnew. cbn [fst snd].
  split; [|split].
  - intros c gc. cbn [confTeamsSeen confCompleted confTeamCounts].
    split; [|split].
    + destruct (decide (c +:+ "|" +:+ genderStr gc = key)) as [E|Hne].
      * rewrite E, lookup_insert_eq. apply confGenderKey_inj in E as [-> ->].
        rewrite confSide_same by exact Hv. cbn [default].
        now rewrite setOf_snoc.
      * rewrite lookup_insert_ne by congruence.
        rewrite confSide_other, app_nil_r by exact Hne. apply Hinv.
    + destruct (decide (c +:+ "|" +:+ genderStr gc = key)) as [E|Hne].
      * rewrite E. pose proof E as E'.
        apply confGenderKey_inj in E' as [-> ->].
        rewrite confSide_same, setOf_snoc by exact Hv. fold total. fold seen0.
        rewrite length_add.
        destruct (JS.has seen0 team) eqn:Eh; cbn [negb andb].
        -- rewrite Nat.add_0_r. exact Hflag.
        -- destruct (Nat.eqb_spec (S (length seen0)) total) as [Et|Et].
           ++ rewrite lookup_insert_eq. cbn [JS.falsyFlag]. symmetry.
              apply negb_false_iff, andb_true_iff.
              split; [apply Nat.ltb_lt | apply Nat.leb_le]; lia.
           ++ rewrite Hflag.
              destruct (Nat.ltb_spec 0 total),
                (Nat.leb_spec total (length seen0 + 1)),
                (Nat.leb_spec total (length seen0));
                cbn; try reflexivity; lia.
      * rewrite confSide_other, app_nil_r by exact Hne.
        destruct (_ && (S (length seen0) =? total)%nat);
          [rewrite lookup_insert_ne by congruence|]; apply Hinv.
    + destruct (decide (c = conf)) as [->|Hne].
      * assert (Ec : JS.countOr0
                       ((if (length (names conf M) + length (names conf W) =? 0)%nat
                         then <[conf := O]> (confTeamCounts s)
                         else confTeamCounts s) !! conf)
                     = JS.countOr0 (confTeamCounts s !! conf)).
        { rewrite <- Hnew. rewrite falsyCount_countOr0.
          destruct (Nat.eqb_spec (JS.countOr0 (confTeamCounts s !! conf)) 0)
            as [E0|_]; [|reflexivity].
          now rewrite lookup_insert_eq, E0. }
        assert (Eg : (length (setOf (names conf M ++ confSide conf M g conf team))
                      + length (setOf (names conf W ++ confSide conf W g conf team))
                      = length (setOf (names conf M)) + length (setOf (names conf W))
                        + (if JS.has seen0 team then 0 else 1))%nat).
        { unfold seen0. destruct g.
          - rewrite confSide_same by exact Hv.
            rewrite (confSide_other conf W M), app_nil_r
              by (intros E; now apply confGenderKey_inj in E as [_ E]).
            rewrite setOf_snoc, length_add. lia.
          - rewrite confSide_same by exact Hv.
            rewrite (confSide_other conf M W), app_nil_r
              by (intros E; now apply confGenderKey_inj in E as [_ E]).
            rewrite setOf_snoc, length_add. lia. }
        rewrite Eg, <- Hcount.
        destruct (JS.has seen0 team); cbn [negb].
        -- rewrite Ec. lia.
        -- rewrite lookup_insert_eq. cbn [JS.countOr0]. rewrite Ec. lia.
      * rewrite !confSide_other, !app_nil_r
          by (intros E; now apply confGenderKey_inj in E as [E _]).
        destruct (Hinv c M) as (_ & _ & <-).
        destruct (negb (JS.has seen0 team));
          [rewrite lookup_insert_ne by congruence|];
          (destruct (_ =? 0)%nat;
           [rewrite lookup_insert_ne by congruence|]; reflexivity).
  - rewrite badgesOfType_app. unfold newConfSpec. rewrite Hv. cbn [andb].
    destruct (length (names conf M) + length (names conf W) =? 0)%nat;
      destruct (negb (JS.has seen0 team) && (S (length seen0) =? total)%nat);
      reflexivity.
  - rewrite badgesOfType_app. unfold confCompleteSpec. rewrite Hv. cbn [andb].
    fold total. fold seen0.
    destruct (length (names conf M) + length (names conf W) =? 0)%nat;
      destruct (negb (JS.has seen0 team) && (S (length seen0) =? total)%nat);
      reflexivity.
Qed.

Lemma confNamesOf_snoc D pre game c gc :
  confNamesOf D (pre ++ [game]) c gc
  = (confNamesOf D pre c gc
     ++ confSide c gc (genderOf game) (getGameConference D game away)
          (awayOf game))
    ++ confSide c gc (genderOf game) (getGameConference D game home)
         (homeOf game).
Proof.
  unfold confNamesOf. rewrite flat_map_app. cbn [flat_map].
  rewrite app_nil_r. unfold confNames. now rewrite app_assoc.
Qed.

Lemma confsAgree_stateAfter D pre :
  confsAgree (conferenceTeamCounts D) (confNamesOf D pre)
    (confs (stateAfter D pre)).
Proof.
  apply stateAfter_ind with
    (P := fun pre s =>
            confsAgree (conferenceTeamCounts D) (confNamesOf D pre) (confs s));
    clear pre.
  - intros c gc. cbn. rewrite !lookup_empty. cbn.
    repeat split. now destruct (JS.countOr0 (conferenceTeamCounts D !! c)).
  - intros pre game s IH. rewrite confs_gameState, confRule_steps. cbn [fst].
    apply (confsAgree_step _ (genderOf game) (getGameConference D game away)
             (awayOf game)) in IH as [IH _].
    apply (confsAgree_step _ (genderOf game) (getGameConference D game home)
             (homeOf game)) in IH as [IH _].
    intros c gc. specialize (IH c gc). cbv beta in IH.
    now rewrite !confNamesOf_snoc.
Qed.

Lemma new_conf_type_rule b : badgeType b = "new-conf" -> ruleOf b = RConf.
Proof. destruct b; simpl; intros H; try discriminate H; reflexivity. Qed.

(** X16. Conference tracking (app.js 634-662), over any games.  The set
    kept for a conference and gender holds, in first-appearance order, the
    team names of the sides of that conference and gender; sides whose
    conference is empty or 'Historical/Other' are skipped, and an empty
    team name is a member like any other.  The counter of a conference is
    the sum of the sizes of its two sets, and a conference and gender is
    marked complete exactly when its configured total is positive and the
    set has reached it.  A side gets a new-conf badge
    exactly when it is the first side of its conference, of any gender,
    and a conf-complete badge exactly when its team is new to the set and
    brings the size of the set to the configured total; the away side is
    handled first. *)
Theorem conference_tracking (D : Data) (pre : list Game) (game : Game) :
  let s := stateAfter D pre in
  let bs := gameBadges D (length pre) game s in
  let g := genderOf game in
  let ca := getGameConference D game away in
  let ch := getGameConference D game home in
  let viaAway c gc := confSide c gc g ca (awayOf game) in
  (forall c gc, teamsSeenOf s c gc = setOf (confNamesOf D pre c gc))
  /\ (forall c, JS.countOr0 (confTeamCounts (confs s) !! c)
                = (length (teamsSeenOf s c M) + length (teamsSeenOf s c W))%nat)
  /\ (forall c gc,
        JS.falsyFlag (confCompleted (confs s) !! (c +:+ "|" +:+ genderStr gc))
        = negb ((0 <? JS.countOr0 (conferenceTeamCounts D !! c))%nat
                && (JS.countOr0 (conferenceTeamCounts D !! c)
                    <=? length (teamsSeenOf s c gc))%nat))
  /\ badgesOfType "new-conf" bs
     = newConfSpec ca (length (confNamesOf D pre ca M)
                       + length (confNamesOf D pre ca W))
       ++ newConfSpec ch (length (confNamesOf D pre ch M ++ viaAway ch M)
                          + length (confNamesOf D pre ch W ++ viaAway ch W))
  /\ badgesOfType "conf-complete" bs
     = confCompleteSpec (conferenceTeamCounts D) ca g (confNamesOf D pre ca g)
         (awayOf game)
       ++ confCompleteSpec (conferenceTeamCounts D) ch g
            (confNamesOf D pre ch g ++ viaAway ch g) (homeOf game).
Proof.
  cbv zeta. pose proof (confsAgree_stateAfter D pre) as H.
  split; [intros c gc; apply H|].
  split.
  { intros c. unfold teamsSeenOf.
    destruct (H c M) as (-> & _ & ->). now destruct (H c W) as (-> & _ & _). }
  split.
  { intros c gc. unfold teamsSeenOf. now destruct (H c gc) as (-> & -> & _). }
  rewrite (badgesOfType_rule "new-conf" RConf) by apply new_conf_type_rule.
  rewrite (badgesOfType_rule "conf-complete" RConf)
    by apply conf_complete_type_rule.
  rewrite gameBadges_conf, confRule_steps. cbn [snd].
  rewrite !badgesOfType_app.
  apply (confsAgree_step _ (genderOf game) (getGameConference D game away)
           (awayOf game)) in H as (H & -> & ->).
  apply (confsAgree_step _ (genderOf game) (getGameConference D game home)
           (homeOf game)) in H as (_ & -> & ->).
  split; reflexivity.
Qed.

(** ** Conference lookup *)

Lemma optIs_true o s : optIs o s = true <-> o = Some s.
Proof.
  destruct o as [x|]; cbn; [|split; discriminate].
  rewrite String.eqb_eq. split; congruence.
Qed.

Lemma listsTeam_find (e : string * ConfData) name :
  match teams (snd e) with
  | Some ts => existsb (fun t => optIs (entryTeam t) name
                                 || optIs (entryName t) name) ts
  | None => false
  end = true
  <-> listsTeam (snd e) name.
Proof.
  unfold listsTeam. destruct (teams (snd e)) as [ts|].
  - rewrite existsb_exists. split.
    + intros (t & Hin & H). exists ts, t.
      apply orb_true_iff in H. rewrite !optIs_true in H. now repeat split.
    + intros (ts' & t & [= <-] & Hin & H). exists t.
      split; [exact Hin|]. apply orb_true_iff. now rewrite !optIs_true.
  - split; [discriminate|]. intros (ts & t & [=] & _).
Qed.

Lemma find_none_all {A : Type} (f : A -> bool) (l : list A) :
  (forall x, In x l -> f x = false) -> find f l = None.
Proof.
  induction l as [|x l IH]; intros H; [reflexivity|]. cbn.
  rewrite (H x) by now left. apply IH. intros y Hy. apply H. now right.
Qed.

Lemma getTeamConference_source D o :
  getTeamConference D o = ""
  \/ exists name, o = Some name /\ JS.truthy name = true
                  /\ confSource D name (getTeamConference D o).
Proof.
  unfold getTeamConference. cbv zeta.
  destruct (JS.truthy (JS.orStr o "")) eqn:Hn; cbn [negb]; [|now left].
  apply orStr_truthy_iff in Hn as (name & -> & Hn). rewrite orStr_Some.
  destruct (JS.truthy (JS.orStr (entryOf name DEFUNCT_TEAM_CONFERENCES) ""))
    eqn:Hd.
  { right. exists name. repeat split; [exact Hn|]. left.
    apply orStr_truthy_iff in Hd as (c & Ec & _).
    now rewrite Ec, orStr_Some. }
  destruct (find _ (conferenceChecklist D)) as [[confName data]|] eqn:Ef.
  { right. exists name. repeat split; [exact Hn|]. right. left.
    apply find_some in Ef as [Hin Hl]. exists data.
    split; [exact Hin|]. now apply (listsTeam_find (confName, data)). }
  destruct (find _ (dataTeams D)) as [r|] eqn:Er; [|now left].
  right. exists name. repeat split; [exact Hn|]. right. right.
  apply find_some in Er as [Hin Hr]. apply andb_true_iff in Hr as [Ht Hc].
  apply optIs_true in Ht. apply orStr_truthy_iff in Hc as (c & Ec & _).
  exists r. rewrite Ec, orStr_Some. now repeat split.
Qed.

(** X17. The conference of a side of a game (app.js 23-45) is the empty
    string, the conference stored on the game, or a conference the
    non-empty team name of that side has a source for: the table of
    defunct teams, a checklist key that lists the name, or a [DATA.teams]
    row of the name.  A non-empty stored conference always wins.  Without
    a stored conference, a name outside the defunct table gets the first
    checklist key that lists it, whichever key that is: the aggregate
    'All D1' key is not skipped here. *)
Theorem conference_lookup (D : Data) (game : Game) (tt : teamType) :
  let c := getGameConference D game tt in
  (c = ""
   \/ sideConf game tt = Some c
   \/ exists name, sideTeam game tt = Some name /\ JS.truthy name = true
                   /\ confSource D name c)
  /\ (forall stored, sideConf game tt = Some stored ->
        JS.truthy stored = true -> c = stored)
  /\ (forall name l1 key data l2,
        JS.truthy (JS.orStr (sideConf game tt) "") = false ->
        sideTeam game tt = Some name ->
        JS.truthy name = true ->
        entryOf name DEFUNCT_TEAM_CONFERENCES = None ->
        conferenceChecklist D = l1 ++ (key, data) :: l2 ->
        (forall e, In e l1 -> ~ listsTeam (snd e) name) ->
        listsTeam data name ->
        c = key).
Proof.
  cbv zeta.
  assert (E : getGameConference D game tt
              = if JS.truthy (JS.orStr (sideConf game tt) "")
                then JS.orStr (sideConf game tt) ""
                else getTeamConference D (sideTeam game tt))
    by now destruct tt.
  rewrite E. clear E. split; [|split].
  - destruct (JS.truthy (JS.orStr (sideConf game tt) "")) eqn:Hs.
    + right. left. apply orStr_truthy_iff in Hs as (c & Ec & _).
      now rewrite Ec, orStr_Some.
    + destruct (getTeamConference_source D (sideTeam game tt)) as [H|H];
        [now left | right; now right].
  - intros stored Es Ht. rewrite Es, orStr_Some, Ht. reflexivity.
  - intros name l1 key data l2 Hs En Hn Hd Hl Hl1 Hdata. rewrite Hs, En.
    unfold getTeamConference. cbv zeta. rewrite orStr_Some, Hn, Hd.
    cbn [negb JS.orStr]. change (JS.truthy "") with false. cbv iota.
    rewrite Hl, find_append.
    replace (find _ l1) with (@None (string * ConfData)).
    + pose proof (proj2 (listsTeam_find (key, data) name) Hdata) as Hb.
      cbn [snd] in Hb. cbn [find snd]. now rewrite Hb.
    + symmetry. apply find_none_all. intros e He.
      apply not_true_is_false. intros Hb.
      apply (Hl1 e He). now apply listsTeam_find.
Qed.

Lemma conference_lookup_witness :
  let game := scenarioGame "g" "20240101" "Duke" "X" "v" 1 0 M in
  getGameConference aggregateFirst game away = "All D1".
Proof.
  cbv zeta.
  refine (proj2 (proj2 (conference_lookup aggregateFirst
                          (scenarioGame "g" "20240101" "Duke" "X" "v" 1 0 M)
                          away))
            "Duke" [] "All D1"
            (mkConfData (Some [mkTeamEntry (Some "Duke") None]) (Some 1%nat))
            [("ACC", mkConfData (Some [mkTeamEntry (Some "Duke") None])
                                (Some 1%nat))]
            _ _ _ _ _ _ _);
    try reflexivity.
  - intros e [].
  - exists [mkTeamEntry (Some "Duke") None], (mkTeamEntry (Some "Duke") None).
    repeat split; [now left | now left].
Defined.

(** ** Ordinals *)

Lemma forallb_range (P : Z -> bool) (lo : Z) (len : nat) :
  forallb P (map (fun k => lo + Z.of_nat k) (seq 0 len)) = true ->
  forall v, lo <= v < lo + Z.of_nat len -> P v = true.
Proof.
  intros H v Hv. rewrite forallb_forall in H. apply H.
  apply in_map_iff. exists (Z.to_nat (v - lo)). split; [lia|].
  apply in_seq. lia.
Qed.

Lemma ordinalSuffix_rem n :
  ordinalSuffix n = ordinalSuffix (Z.rem n 100).
Proof.
  unfold ordinalSuffix. cbv zeta. now rewrite Z.rem_rem by discriminate.
Qed.

Lemma englishSuffix_mod n :
  englishSuffix n = englishSuffix (n mod 100).
Proof.
  unfold englishSuffix. rewrite Z.mod_mod by discriminate.
  now rewrite (Z.mod_mod_divide n 100 10) by now exists 10.
Qed.

(** X18. [ordinal] (app.js 80-84) appends the English ordinal suffix to
    its counter: st, nd, rd after a last digit 1, 2, 3, th otherwise, and
    th for 11, 12, 13 in the last two digits (11th, 112th, but 21st,
    101st).  On a negative integer the suffix is always th. *)
Theorem ordinal_english (n : nat) :
  ordinal n = JS.numToString n +:+ englishSuffix (Z.of_nat n)
  /\ forall z : Z,
       ordinalSuffix z = if z <? 0 then "th" else englishSuffix z.
Proof.
  assert (H : forall z : Z,
             ordinalSuffix z = if z <? 0 then "th" else englishSuffix z).
  { intros z. rewrite ordinalSuffix_rem. destruct (Z.ltb_spec z 0) as [Hz|Hz].
    - pose proof (Z.rem_bound_pos_neg z 100 ltac:(lia) ltac:(lia)) as Hb.
      apply String.eqb_eq.
      apply (forallb_range (fun v => String.eqb (ordinalSuffix v) "th")
               (-99) 100); [vm_compute; reflexivity | lia].
    - rewrite englishSuffix_mod, Z.rem_mod_nonneg by lia.
      pose proof (Z.mod_pos_bound z 100 ltac:(lia)) as Hb.
      apply String.eqb_eq.
      apply (forallb_range
               (fun v => String.eqb (ordinalSuffix v) (englishSuffix v))
               0 100); [vm_compute; reflexivity | lia]. }
  split; [|exact H]. unfold ordinal. rewrite H.
  now destruct (Z.ltb_spec (Z.of_nat n) 0) as [Hn|_]; [lia|].
Qed.

(** ** Badges on a game card *)

Lemma stream_keys D gs : forall index s e,
  In e (snd (processGames D index gs s)) ->
  exists i game, In game gs /\ fst e = gameIdOf i game.
Proof.
  induction gs as [|game gs IH]; intros index s e Hin; [destruct Hin|].
  cbn [processGames snd] in Hin. destruct Hin as [<-|Hin].
  - exists index, game. split; [now left | reflexivity].
  - destruct (IH _ _ _ Hin) as (i & g' & Hg' & E).
    exists i, g'. split; [now right | exact E].
Qed.

Lemma lastEntry_none (l : list (string * Milestone)) k :
  (forall e, In e l -> fst e <> k) -> lastEntry l k = None.
Proof.
  intros H. unfold lastEntry. rewrite find_none_all; [reflexivity|].
  intros e He. apply in_rev in He. apply String.eqb_neq. now apply H.
Qed.

Lemma gameMilestones_lastEntry D k :
  gameMilestones D !! k = lastEntry (badgeStream D) k.
Proof.
  unfold gameMilestones. rewrite fold_insert_lookup.
  destruct (lastEntry (badgeStream D) k); [reflexivity | apply lookup_empty].
Qed.

Lemma badgeStream_split D pre game post :
  allGames D = pre ++ game :: post ->
  In (gameIdOf (length pre) game,
      mkMilestone (gameBadges D (length pre) game (stateAfter D pre))
                  (S (length pre)))
     (badgeStream D).
Proof.
  intros E. unfold badgeStream. rewrite E, processGames_app.
  cbn [snd processGames]. apply in_or_app. right. left. reflexivity.
Qed.

(** X19. The badges a game card reads (app.js 870, 1396).  When the
    stored ids are distinct, a game with a non-empty [GameID] gets the
    badges the engine pushed for it: the card renders the first three and
    marks the rest as '+N'. *)
Theorem card_shows_engine_badges (D : Data) (pre post : list Game) (game : Game) :
  allGames D = pre ++ game :: post ->
  JS.truthy (JS.orStr (GameID game) "") = true ->
  List.NoDup (map fst (badgeStream D)) ->
  let bs := gameBadges D (length pre) game (stateAfter D pre) in
  cardMilestones D game = bs
  /\ cardBadges D game = firstn 3 bs
  /\ (cardMore D game = None <-> (length bs <= 3)%nat)
  /\ (forall n, cardMore D game = Some n -> length bs = (3 + n)%nat).
Proof.
  intros E Hid Hnd. cbv zeta.
  assert (H : cardMilestones D game
              = gameBadges D (length pre) game (stateAfter D pre)).
  { unfold cardMilestones. apply orStr_truthy_iff in Hid as (id & Eid & Hid).
    rewrite gameMilestones_lastEntry.
    pose proof (lastEntry_unique _ _ Hnd (badgeStream_split D pre game post E))
      as Hl.
    cbn [fst snd] in Hl. unfold gameIdOf in Hl.
    rewrite Eid in Hl |- *. cbn [JS.orStr propertyKey] in Hl |- *.
    rewrite Hid in Hl. now rewrite Hl. }
  unfold cardBadges, cardMore. rewrite H.
  split; [reflexivity|]. split; [reflexivity|].
  destruct (Nat.ltb_spec 3
              (length (gameBadges D (length pre) game (stateAfter D pre))))
    as [Hl|Hl].
  - split; [split; [discriminate | lia]|]. intros n [= <-]. lia.
  - split; [split; [intros _; exact Hl | reflexivity]|]. discriminate.
Qed.

Lemma card_shows_engine_badges_witness :
  cardMilestones (scenario M)
    (scenarioGame "game2" "20240102" "TeamY" "TeamX" "Arena2" 55 65 M)
  = [StreakB 2].
Proof.
  refine (proj1 (card_shows_engine_badges (scenario M)
                   [scenarioGame "game1" "20240101" "TeamX" "TeamY" "Arena1"
                      70 60 M]
                   [scenarioGame "game3" "20240103" "TeamX" "TeamY" "Arena1"
                      80 75 M]
                   (scenarioGame "game2" "20240102" "TeamY" "TeamX" "Arena2"
                      55 65 M) _ _ _)).
  - vm_compute. reflexivity.
  - reflexivity.
  - vm_compute. repeat constructor; cbn; intuition discriminate.
Defined.

Lemma gameIdOf_generated index game k :
  JS.truthy (JS.orStr (GameID game) "") = false ->
  (k = "" \/ k = "undefined") ->
  gameIdOf index game <> k.
Proof.
  intros Hid Hk. unfold gameIdOf.
  destruct (GameID game) as [id|]; cbn [JS.orStr] in *.
  - destruct (JS.truthy id) eqn:Et; [congruence|].
    destruct Hk as [->| ->]; intros H; cbv [String.append] in H;
      discriminate H.
  - destruct Hk as [->| ->]; intros H; cbv [String.append] in H;
      discriminate H.
Qed.

(** X20. A game whose [GameID] is absent or empty shows no badge on its
    card, whatever the engine pushed for it: the engine stores its entry
    under 'game-<index>', the card reads the key of its [GameID].  The
    one exception the code leaves is a game whose id is the string
    'undefined'. *)
Theorem card_without_id_blank (D : Data) (game : Game) :
  JS.truthy (JS.orStr (GameID game) "") = false ->
  (forall g, In g (games D) -> GameID g <> Some "undefined") ->
  cardMilestones D game = []
  /\ cardBadges D game = []
  /\ cardMore D game = None.
Proof.
  intros Hid Hno.
  assert (H : cardMilestones D game = []).
  { unfold cardMilestones. rewrite gameMilestones_lastEntry.
    rewrite lastEntry_none; [reflexivity|].
    intros e He. apply stream_keys in He as (i & g & Hg & ->).
    assert (Hk : propertyKey (GameID game) = ""
                 \/ propertyKey (GameID game) = "undefined").
    { destruct (GameID game) as [id|]; [left | now right].
      cbn [JS.orStr propertyKey] in *.
      destruct id; [reflexivity | discriminate Hid]. }
    destruct (JS.truthy (JS.orStr (GameID g) "")) eqn:Hg_id;
      [|now apply gameIdOf_generated].
    apply orStr_truthy_iff in Hg_id as (id & Eid & Hidt).
    unfold gameIdOf. rewrite Eid. cbn [JS.orStr]. rewrite Hidt.
    destruct Hk as [-> | ->].
    - intros ->. discriminate Hidt.
    - intros ->. apply (Hno g); [|exact Eid].
      apply (Permutation_in g
               (Permutation_sym (sort_perm compareGames (games D)))).
      exact Hg. }
  unfold cardBadges, cardMore. now rewrite H.
Qed.

Lemma card_without_id_blank_witness :
  gameBadges noIdData 0 noIdGame initSt <> []
  /\ cardMilestones noIdData noIdGame = [].
Proof.
  split; [vm_compute; discriminate|].
  refine (proj1 (card_without_id_blank noIdData noIdGame _ _)).
  - reflexivity.
  - intros g [<-|[]]. discriminate.
Defined.

(** ** Pagination *)

Lemma lastItem_snoc pages x : lastItem (pages ++ [x]) = Some x.
Proof. unfold lastItem. rewrite map_app. apply last_last. Qed.

Lemma pageRange_S (k : nat) :
  map Z.of_nat (seq 1 (S k)) = map Z.of_nat (seq 1 k) ++ [Z.of_nat (S k)].
Proof. now rewrite seq_S, map_app. Qed.

(** The loop in closed form, with the state of the last entry. *)
Lemma pageItems_prefix totalPages page (k : nat) :
  let pages := fold_left (pageStep totalPages page)
                 (map Z.of_nat (seq 1 k)) [] in
  pages = flat_map (pageItemSpec totalPages page) (map Z.of_nat (seq 1 k))
  /\ ((1 <= k)%nat ->
      lastItem pages
      = Some (if keepPage totalPages page (Z.of_nat k)
              then PageNum (Z.of_nat k) else Ellipsis)).
Proof.
  cbv zeta. induction k as [|k [IH Hlast]]; [split; [reflexivity | lia]|].
  rewrite pageRange_S, fold_left_app, flat_map_app. cbn [fold_left flat_map].
  rewrite app_nil_r, <- IH. clear IH.
  set (pages := fold_left _ _ _) in *.
  unfold pageStep, pageItemSpec.
  replace (Z.of_nat (S k) - 1) with (Z.of_nat k) by lia.
  destruct (keepPage totalPages page (Z.of_nat (S k))) eqn:Ek.
  - split; [reflexivity | intros _; apply lastItem_snoc].
  - destruct k as [|k]; [discriminate Ek|].
    rewrite Hlast by lia.
    destruct (keepPage totalPages page (Z.of_nat (S k))).
    + split; [reflexivity | intros _; apply lastItem_snoc].
    + rewrite app_nil_r. split; [reflexivity | intros _; now rewrite Hlast by lia].
Qed.

Lemma pageItems_spec totalPages page :
  pageItems totalPages page
  = flat_map (pageItemSpec totalPages page) (pageRange totalPages).
Proof. apply pageItems_prefix. Qed.

Lemma pageRange_NoDup totalPages : List.NoDup (pageRange totalPages).
Proof.
  unfold pageRange. apply Finite.Injective_map_NoDup.
  - intros a b. apply Nat2Z.inj.
  - apply seq_NoDup.
Qed.

Lemma pageRange_In totalPages i :
  In i (pageRange totalPages) <-> 1 <= i <= totalPages.
Proof.
  unfold pageRange. rewrite in_map_iff. split.
  - intros (k & <- & Hk). apply in_seq in Hk. lia.
  - intros H. exists (Z.to_nat i). split; [lia|]. apply in_seq. lia.
Qed.

Lemma filter_bound (p : Z -> bool) (l bound : list Z) :
  List.NoDup l ->
  (forall i, In i l -> p i = true -> In i bound) ->
  (length (List.filter p l) <= length bound)%nat.
Proof.
  intros Hnd H. apply NoDup_incl_length.
  - now apply List.NoDup_filter.
  - intros i Hi. apply filter_In in Hi as [Hi Hp]. now apply H.
Qed.

Lemma pageItemSpec_length totalPages page l :
  length (flat_map (pageItemSpec totalPages page) l)
  = (length (List.filter (keepPage totalPages page) l)
     + length (List.filter
                 (fun i => negb (keepPage totalPages page i)
                           && keepPage totalPages page (i - 1)) l))%nat.
Proof.
  induction l as [|i l IH]; [reflexivity|].
  cbn [flat_map List.filter]. rewrite length_app, IH. unfold pageItemSpec.
  destruct (keepPage totalPages page i); cbn [negb andb length]; [lia|].
  destruct (keepPage totalPages page (i - 1)); cbn [length]; lia.
Qed.

Lemma pageItems_length totalPages page :
  (length (pageItems totalPages page) <= 9)%nat.
Proof.
  rewrite pageItems_spec, pageItemSpec_length.
  pose proof (filter_bound (keepPage totalPages page) (pageRange totalPages)
                [1; totalPages; page - 2; page - 1; page; page + 1; page + 2]
                (pageRange_NoDup totalPages)) as H1.
  pose proof (filter_bound
                (fun i => negb (keepPage totalPages page i)
                          && keepPage totalPages page (i - 1))
                (pageRange totalPages) [2; page + 3]
                (pageRange_NoDup totalPages)) as H2.
  cbn [length] in H1, H2.
  enough ((length (List.filter (keepPage totalPages page)
                     (pageRange totalPages)) <= 7)%nat
          /\ (length (List.filter
                        (fun i => negb (keepPage totalPages page i)
                                  && keepPage totalPages page (i - 1))
                        (pageRange totalPages)) <= 2)%nat) by lia.
  split.
  - apply H1. intros i _ Hk. unfold keepPage in Hk. cbn [In]. lia.
  - apply H2. intros i Hi Hk. apply pageRange_In in Hi.
    unfold keepPage in Hk. cbn [In]. lia.
Qed.

Lemma totalPagesOf_le total pageSize :
  totalPagesOf total pageSize <= 1 <-> (total <= Pos.to_nat pageSize)%nat.
Proof.
  unfold totalPagesOf.
  pose proof (Z.div_mod (Z.of_nat total + Z.pos pageSize - 1) (Z.pos pageSize)
                ltac:(lia)) as Hdm.
  pose proof (Z.mod_pos_bound (Z.of_nat total + Z.pos pageSize - 1)
                (Z.pos pageSize) ltac:(lia)) as Hb.
  split; intros H; nia.
Qed.

(** X21. The page bar (app.js 817-827) is absent exactly when all items
    fit on one page.  Otherwise it lists the first page, the last page
    and the pages within two of the current one, in order, with one
    ellipsis wherever pages are left out between them; so it starts with
    page 1, ends with the last page and never has more than nine
    entries, however many pages there are. *)
Theorem pagination_items (page : Z) (pageSize : positive) (total : nat) :
  let totalPages := totalPagesOf total pageSize in
  (Pagination page pageSize total = None
   <-> (total <= Pos.to_nat pageSize)%nat)
  /\ forall items,
       Pagination page pageSize total = Some items ->
       items = flat_map (pageItemSpec totalPages page) (pageRange totalPages)
       /\ (length items <= 9)%nat
       /\ hd_error items = Some (PageNum 1)
       /\ lastItem items = Some (PageNum totalPages).
Proof.
  cbv zeta. unfold Pagination. cbv zeta.
  pose proof (totalPagesOf_le total pageSize) as Hle.
  destruct (Z.leb_spec (totalPagesOf total pageSize) 1) as [H1|H1].
  - split; [split; [intros _; now apply Hle | reflexivity]|]. discriminate.
  - split; [split; [discriminate | intros H; apply Hle in H; lia]|].
    intros items [= <-].
    split; [apply pageItems_spec|]. split; [apply pageItems_length|].
    rewrite pageItems_spec. set (tp := totalPagesOf total pageSize) in *.
    unfold pageRange.
    destruct (Z.to_nat tp) as [|k] eqn:Ek; [lia|]. split.
    + cbn [seq map flat_map]. unfold pageItemSpec at 1.
      now replace (keepPage tp page (Z.of_nat 1)) with true by reflexivity.
    + rewrite pageRange_S, flat_map_app. cbn [flat_map].
      rewrite app_nil_r. unfold pageItemSpec at 2.
      replace (Z.of_nat (S k)) with tp by lia.
      replace (keepPage tp page tp) with true
        by (unfold keepPage; now rewrite Z.eqb_refl, orb_true_r).
      apply lastItem_snoc.
Qed.

Lemma pagination_items_witness :
  Pagination 10 50 1000
  = Some [PageNum 1; Ellipsis; PageNum 8; PageNum 9; PageNum 10; PageNum 11;
          PageNum 12; Ellipsis; PageNum 20]
  /\ lastItem [PageNum 1; Ellipsis; PageNum 8; PageNum 9; PageNum 10;
               PageNum 11; PageNum 12; Ellipsis; PageNum 20]
     = Some (PageNum (totalPagesOf 1000 50)).
Proof.
  split; [vm_compute; reflexivity|].
  apply (proj2 (pagination_items 10 50 1000)). vm_compute. reflexivity.
Defined.

Lemma firstn_add_skipn {A : Type} (l : list A) : forall a b,
  firstn a l ++ firstn b (skipn a l) = firstn (a + b) l.
Proof.
  induction l as [|x l IH]; intros [|a] b; cbn;
    rewrite ?firstn_nil; try reflexivity.
  now rewrite IH.
Qed.

(** A page at or after the first is the slice of [pageSize] items that
    follows the earlier pages. *)
Lemma pageData_firstn {A : Type} (l : list A) (pageSize : positive) (k : nat) :
  pageData l pageSize (Z.of_nat (S k))
  = firstn (Pos.to_nat pageSize) (skipn (k * Pos.to_nat pageSize) l).
Proof.
  unfold pageData, sliceList. cbv zeta.
  set (len := Z.of_nat (length l)). set (p := Z.pos pageSize).
  replace ((Z.of_nat (S k) - 1) * p) with (Z.of_nat k * p) by lia.
  assert (Hp : p = Z.of_nat (Pos.to_nat pageSize)) by (unfold p; lia).
  assert (Hp0 : 0 < p) by (unfold p; lia).
  destruct (Z.ltb_spec (Z.of_nat k * p) 0) as [H|_]; [nia|].
  destruct (Z.ltb_spec (Z.of_nat (S k) * p) 0) as [H|_]; [nia|].
  destruct (Z.le_gt_cases len (Z.of_nat k * p)) as [Hout|Hin].
  - rewrite (Z.min_r (Z.of_nat k * p)) by lia.
    rewrite (Z.min_r (Z.of_nat (S k) * p)) by nia.
    rewrite !skipn_all2 by (unfold len in *; nia).
    now rewrite !firstn_nil.
  - rewrite (Z.min_l (Z.of_nat k * p)) by lia.
    replace (Z.to_nat (Z.of_nat k * p)) with (k * Pos.to_nat pageSize)%nat
      by nia.
    destruct (Z.le_gt_cases (Z.of_nat (S k) * p) len) as [Hfull|Hpart].
    + rewrite Z.min_l by lia. f_equal. nia.
    + rewrite Z.min_r by lia.
      rewrite !firstn_all2; try reflexivity;
        rewrite length_skipn; unfold len in *; nia.
Qed.

Lemma pages_concat {A : Type} (l : list A) (pageSize : positive) (k : nat) :
  concat (map (pageData l pageSize) (map Z.of_nat (seq 1 k)))
  = firstn (k * Pos.to_nat pageSize) l.
Proof.
  induction k as [|k IH]; [reflexivity|].
  rewrite pageRange_S, map_app, concat_app, IH. cbn [map concat].
  rewrite app_nil_r, pageData_firstn, firstn_add_skipn. f_equal. lia.
Qed.

(** X22. The pages of a list (app.js 1363, 2442) partition it: the
    slices of pages 1 to [totalPages], in order, give the list back, no
    page holds more than [pageSize] items, every page from 1 to
    [totalPages] holds at least one, and a page after the last is
    empty. *)
Theorem pages_partition {A : Type} (filtered : list A) (pageSize : positive) :
  let totalPages := totalPagesOf (length filtered) pageSize in
  concat (map (pageData filtered pageSize) (pageRange totalPages)) = filtered
  /\ forall page,
       (length (pageData filtered pageSize page) <= Pos.to_nat pageSize)%nat
       /\ (1 <= page <= totalPages -> pageData filtered pageSize page <> [])
       /\ (totalPages < page -> pageData filtered pageSize page = []).
Proof.
  cbv zeta. set (tp := totalPagesOf (length filtered) pageSize).
  assert (Htp : Z.of_nat (length filtered) <= tp * Z.pos pageSize
                /\ (tp - 1) * Z.pos pageSize < Z.of_nat (length filtered)
                   \/ (length filtered = 0%nat /\ tp = 0)).
  { unfold tp, totalPagesOf.
    pose proof (Z.div_mod (Z.of_nat (length filtered) + Z.pos pageSize - 1)
                  (Z.pos pageSize) ltac:(lia)) as Hdm.
    pose proof (Z.mod_pos_bound (Z.of_nat (length filtered) + Z.pos pageSize - 1)
                  (Z.pos pageSize) ltac:(lia)) as Hb.
    destruct (length filtered) as [|n]; [right|left].
    - split; [reflexivity|]. apply Z.div_small. lia.
    - nia. }
  assert (Htp0 : 0 <= tp).
  { unfold tp, totalPagesOf. apply Z.div_pos; lia. }
  split.
  - unfold pageRange. rewrite pages_concat. apply firstn_all2. nia.
  - intros page.
    assert (Hlen : (length (pageData filtered pageSize page)
                    <= Pos.to_nat pageSize)%nat).
    { unfold pageData, sliceList. cbv zeta. rewrite length_firstn.
      set (len := Z.of_nat (length filtered)).
      destruct (Z.ltb_spec ((page - 1) * Z.pos pageSize) 0),
        (Z.ltb_spec (page * Z.pos pageSize) 0); lia. }
    split; [exact Hlen|]. split.
    + intros Hpage.
      replace page with (Z.of_nat (S (Z.to_nat (page - 1)))) by lia.
      rewrite pageData_firstn. intros E.
      apply (f_equal (@length A)) in E.
      rewrite length_firstn, length_skipn in E. cbn [length] in E. nia.
    + intros Hpage.
      replace page with (Z.of_nat (S (Z.to_nat (page - 1)))) by lia.
      rewrite pageData_firstn, skipn_all2; [apply firstn_nil | nia].
Qed.

Lemma pages_partition_witness :
  pageData [1; 2; 3; 4; 5]%nat 2 3 <> []
  /\ pageData [1; 2; 3; 4; 5]%nat 2 4 = [].
Proof.
  pose proof (pages_partition [1; 2; 3; 4; 5]%nat 2) as H.
  cbv zeta in H. destruct H as [_ H]. split.
  - apply (proj1 (proj2 (H 3))). vm_compute. split; discriminate.
  - apply (proj2 (proj2 (H 4))). vm_compute. reflexivity.
Defined.
